(** * web-fetch: the URL fetch-and-render pipeline of agentkit

    A shallow embedding of [tools/web-fetch/lib/web_fetch/main.py] and the
    properties of its size parser, bounded streaming fetcher, decompressor,
    text decoder, renderer and batch orchestrator.

    Conventions.  A Python [str] that carries protocol text (a URL, a header
    value, a command-line argument, a message) is a Rocq [string] and is read as
    ASCII; decoded body text and rendered output are sequences of Unicode code
    points ([ustr]); [bytes] are lists of [Byte.byte]; Python's unbounded [int]
    is [Z]; a [float] is an IEEE 754 binary64 value of [SpecFloat].  A call that
    can raise returns [res]: the value, or the exception raised. *)

From Stdlib Require Import ZArith List String Ascii Bool Lia.
From Stdlib Require Import Strings.Byte.
From Stdlib Require Import Floats.SpecFloat.
From stdpp Require Import base option list strings gmap pretty sorting.

Local Open Scope string_scope.
Local Open Scope Z_scope.
Local Open Scope list_scope.

(** ** Exceptions and results *)

Module Py.

(** The exception classes this program can meet, each with [str(e)].  The
    class tree is Python's: [UnicodeDecodeError <: UnicodeError <: ValueError],
    [UnicodeEncodeError <: UnicodeError], [JSONDecodeError <: ValueError],
    [HTTPError <: URLError <: OSError],
    [BadGzipFile <: OSError]; [zlib.error], [EOFError], [LookupError],
    [OverflowError] and [HTTPException] derive from [Exception] directly. *)
Inductive exn : Type :=
| ValueError (msg : string)
| UnicodeError (msg : string)
| UnicodeDecodeError (msg : string)
| JSONDecodeError (msg : string)
| RuntimeError (msg : string)
| OverflowError (msg : string)
| LookupError (msg : string)
| OSError (msg : string)
| BadGzipFile (msg : string)
| URLError (reason : string)
| HTTPError (code : Z) (reason : string)
| ZlibError (msg : string)
| EOFError (msg : string)
| HTTPException (msg : string)
| UnicodeEncodeError (msg : string).

(** [isinstance(e, ValueError)] *)
Definition is_ValueError (e : exn) : bool :=
  match e with
  | ValueError _ | UnicodeError _ | UnicodeDecodeError _ | JSONDecodeError _
  | UnicodeEncodeError _ => true
  | _ => false
  end.

(** [isinstance(e, RuntimeError)] *)
Definition is_RuntimeError (e : exn) : bool :=
  match e with RuntimeError _ => true | _ => false end.

(** [isinstance(e, OSError)] *)
Definition is_OSError (e : exn) : bool :=
  match e with
  | OSError _ | BadGzipFile _ | URLError _ | HTTPError _ _ => true
  | _ => false
  end.

(** [str(e)] *)
Definition str_exn (e : exn) : string :=
  match e with
  | ValueError m | UnicodeError m | UnicodeDecodeError m | JSONDecodeError m
  | RuntimeError m | OverflowError m | LookupError m | OSError m
  | BadGzipFile m | ZlibError m | EOFError m | HTTPException m
  | UnicodeEncodeError m => m
  | URLError r => "<urlopen error " +:+ r +:+ ">"
  | HTTPError c r => "HTTP Error " +:+ pretty c +:+ ": " +:+ r
  end.

Inductive res (A : Type) : Type :=
| Ok (a : A)
| Raise (e : exn).
Arguments Ok {A} a.
Arguments Raise {A} e.

Definition bind {A B} (m : res A) (k : A -> res B) : res B :=
  match m with Ok a => k a | Raise e => Raise e end.

(** [try: m  except <classes in handles>: h e] *)
Definition try_except {A} (m : res A) (handles : exn -> bool) (h : exn -> res A) : res A :=
  match m with
  | Ok a => Ok a
  | Raise e => if handles e then h e else Raise e
  end.

Definition is_ok {A} (m : res A) : bool :=
  match m with Ok _ => true | Raise _ => false end.

End Py.
Import Py.

Notation "'do' x <- m ; k" := (bind m (fun x => k))
  (at level 10, x name, m at level 100, k at level 200).
Notation "'do*' p <- m ; k" := (bind m (fun p => k))
  (at level 10, p strict pattern, m at level 100, k at level 200).

Abbreviation bytes := (list byte).

(** [len(b)] of a bytes object. *)
Definition blen (b : bytes) : Z := Z.of_nat (List.length b).

(** ** The [str] methods the program uses *)

Module Str.

Definition code (c : ascii) : Z := Z.of_N (N_of_ascii c).

(** [len(s)] *)
Definition len (s : string) : Z := Z.of_nat (String.length s).

(** [c.isspace()], ASCII range: TAB..CR, FS..US and SPACE. *)
Definition isspace (c : ascii) : bool :=
  let n := code c in
  ((9 <=? n) && (n <=? 13)) || ((28 <=? n) && (n <=? 32)).

Definition isdigit (c : ascii) : bool :=
  let n := code c in (48 <=? n) && (n <=? 57).

Definition isalpha (c : ascii) : bool :=
  let n := code c in
  ((65 <=? n) && (n <=? 90)) || ((97 <=? n) && (n <=? 122)).

Definition upper_char (c : ascii) : ascii :=
  let n := code c in
  if (97 <=? n) && (n <=? 122) then ascii_of_N (Z.to_N (n - 32)) else c.

Definition lower_char (c : ascii) : ascii :=
  let n := code c in
  if (65 <=? n) && (n <=? 90) then ascii_of_N (Z.to_N (n + 32)) else c.

Fixpoint map (f : ascii -> ascii) (s : string) : string :=
  match s with
  | EmptyString => EmptyString
  | String c r => String (f c) (map f r)
  end.

(** [s.upper()], [s.lower()] *)
Definition upper : string -> string := map upper_char.
Definition lower : string -> string := map lower_char.

(** [s.lstrip(chars)] with the set of characters given as a predicate. *)
Fixpoint lstrip_of (p : ascii -> bool) (s : string) : string :=
  match s with
  | EmptyString => EmptyString
  | String c r => if p c then lstrip_of p r else s
  end.

Definition rstrip_of (p : ascii -> bool) (s : string) : string :=
  String.rev (lstrip_of p (String.rev s)).

Definition strip_of (p : ascii -> bool) (s : string) : string :=
  rstrip_of p (lstrip_of p s).

(** [s.strip()] *)
Definition strip : string -> string := strip_of isspace.

(** [s.startswith(p)] *)
Fixpoint startswith (s p : string) : bool :=
  match p, s with
  | EmptyString, _ => true
  | String a p', String b s' => if Ascii.eqb a b then startswith s' p' else false
  | String _ _, EmptyString => false
  end.

(** [s.endswith(p)] *)
Definition endswith (s p : string) : bool :=
  startswith (String.rev s) (String.rev p).

(** [s[:n]] for [0 <= n]. *)
Fixpoint take (n : nat) (s : string) : string :=
  match n, s with
  | S n', String c r => String c (take n' r)
  | _, _ => EmptyString
  end.

(** [s[:-n]] for [0 < n]: everything but the last [n] characters. *)
Definition drop_last (n : nat) (s : string) : string :=
  take (String.length s - n) s.

(** [sub in s] *)
Fixpoint contains (s sub : string) : bool :=
  startswith s sub ||
  match s with
  | EmptyString => false
  | String _ r => contains r sub
  end.

(** [s.split(sep)] for a one-character separator. *)
Fixpoint split_go (sep : ascii) (cur : string) (s : string) : list string :=
  match s with
  | EmptyString => [String.rev cur]
  | String c r =>
      if Ascii.eqb c sep then String.rev cur :: split_go sep EmptyString r
      else split_go sep (String c cur) r
  end.
Definition split (s : string) (sep : ascii) : list string :=
  split_go sep EmptyString s.

(** [s.split(sep, 1)]: cut at the first separator, if any. *)
Fixpoint split1_go (sep : ascii) (cur : string) (s : string) : list string :=
  match s with
  | EmptyString => [String.rev cur]
  | String c r =>
      if Ascii.eqb c sep then [String.rev cur; r]
      else split1_go sep (String c cur) r
  end.
Definition split1 (s : string) (sep : ascii) : list string :=
  split1_go sep EmptyString s.

(** [s.rsplit(sep, 1)]: cut at the last separator, if any. *)
Definition rsplit1 (s : string) (sep : ascii) : list string :=
  match split1 (String.rev s) sep with
  | [a; b] => [String.rev b; String.rev a]
  | _ => [s]
  end.

(** [sep.join(parts)] *)
Fixpoint join (sep : string) (parts : list string) : string :=
  match parts with
  | [] => ""
  | [p] => p
  | p :: rest => p +:+ sep +:+ join sep rest
  end.

End Str.

(** ** The numeric builtins [int(str)], [float(str)], [int(float)]

    These are CPython's, written out for ASCII input: [int] follows
    [PyLong_FromString] in base 10, [float] follows [float_from_string] and
    [_Py_dg_strtod] (correctly rounded, ties to even, overflow to infinity). *)

Module Num.

Definition prec : Z := 53.
Definition emax : Z := 1024.
Abbreviation float := spec_float.

(** [Py_ISSPACE]: the whitespace both parsers skip at the two ends. *)
Definition c_isspace (c : ascii) : bool :=
  let n := Str.code c in ((9 <=? n) && (n <=? 13)) || (n =? 32).

Definition digit_val (c : ascii) : Z := Str.code c - 48.

(** [sys.get_int_max_str_digits()] *)
Definition int_max_str_digits : Z := 4300.

(** A run of decimal digits with single underscores between digits, read from
    the front of [s]: the value so far, the number of digits, the rest.
    [prev_us] tells that the previous character was an underscore. *)
Fixpoint digit_run (s : string) (acc : Z) (n : Z) (prev_us : bool)
  : option (Z * Z * string) :=
  match s with
  | String c r =>
      if Str.isdigit c then digit_run r (10 * acc + digit_val c) (n + 1) false
      else if Ascii.eqb c "_" then
        if prev_us || (n =? 0) then None else digit_run r acc n true
      else if prev_us then None else Some (acc, n, s)
  | EmptyString => if prev_us then None else Some (acc, n, s)
  end.

Definition read_sign (s : string) : bool * string :=
  match s with
  | String "-" r => (true, r)
  | String "+" r => (false, r)
  | _ => (false, s)
  end.

Definition int_error (s : string) : exn :=
  ValueError ("invalid literal for int() with base 10: '" +:+ s +:+ "'").

(** [int(s)] *)
Definition py_int (s : string) : res Z :=
  let body := Str.lstrip_of c_isspace s in
  let '(neg, body) := read_sign body in
  match digit_run body 0 0 false with
  | Some (v, n, rest) =>
      if n =? 0 then Raise (int_error s)
      else if negb (String.eqb (Str.lstrip_of c_isspace rest) "") then Raise (int_error s)
      else if int_max_str_digits <? n then
        Raise (ValueError "Exceeds the limit (4300 digits) for integer string conversion")
      else Ok (if neg then - v else v)
  | None => Raise (int_error s)
  end.

(** The correctly rounded binary64 value of [(-1)^neg * d * 10^k]. *)
Definition decimal_to_float (neg : bool) (d : Z) (k : Z) : float :=
  match d with
  | Zpos p =>
      if 0 <=? k then binary_normalize prec emax ((if neg then -1 else 1) * (d * 10 ^ k)) 0 neg
      else SFdiv prec emax (S754_finite neg p 0) (S754_finite false (Z.to_pos (10 ^ (- k))) 0)
  | _ => S754_zero neg
  end.

Definition float_error (s : string) : exn :=
  ValueError ("could not convert string to float: '" +:+ s +:+ "'").

(** [_Py_string_to_number_with_underscores]: drop the underscores, each of
    which must stand between two digits. *)
Fixpoint strip_underscores (s : string) (prev : ascii) : option string :=
  match s with
  | EmptyString => if Ascii.eqb prev "_" then None else Some EmptyString
  | String c r =>
      if Ascii.eqb c "_" then
        if Str.isdigit prev then strip_underscores r c else None
      else if Ascii.eqb prev "_" && negb (Str.isdigit c) then None
      else option_map (String c) (strip_underscores r c)
  end.

(** Plain digits from the front of [s]: value, count, rest. *)
Fixpoint digits (s : string) (acc : Z) (n : Z) : Z * Z * string :=
  match s with
  | String c r => if Str.isdigit c then digits r (10 * acc + digit_val c) (n + 1) else (acc, n, s)
  | EmptyString => (acc, n, s)
  end.

(** The optional exponent part: [e], an optional sign, at least one digit.
    Without a digit nothing is consumed. *)
Definition read_exponent (s : string) : Z * string :=
  match s with
  | String c r =>
      if Ascii.eqb c "e" || Ascii.eqb c "E" then
        let '(neg, r') := read_sign r in
        let '(v, n, rest) := digits r' 0 0 in
        if n =? 0 then (0, s) else ((if neg then - v else v), rest)
      else (0, s)
  | EmptyString => (0, s)
  end.

(** [_Py_parse_inf_or_nan] on the text after the sign. *)
Definition inf_or_nan (neg : bool) (s : string) : option float :=
  let l := Str.lower s in
  if String.eqb l "inf" || String.eqb l "infinity" then Some (S754_infinity neg)
  else if String.eqb l "nan" then Some S754_nan
  else None.

(** [float(s)] *)
Definition py_float (s : string) : res float :=
  let t := Str.strip_of c_isspace s in
  match (if Str.contains t "_" then strip_underscores t "000" else Some t) with
  | None => Raise (float_error s)
  | Some t =>
      let '(neg, body) := read_sign t in
      let '(ip, ni, r1) := digits body 0 0 in
      let '(fp, nf, r2) :=
        match r1 with
        | String "." r => digits r ip 0
        | _ => (ip, 0, r1)
        end in
      if (ni + nf =? 0) then
        match inf_or_nan neg body with
        | Some f => Ok f
        | None => Raise (float_error s)
        end
      else
        let '(e, r3) := read_exponent r2 in
        if String.eqb r3 "" then Ok (decimal_to_float neg fp (e - nf))
        else Raise (float_error s)
  end.

(** [float(n)] for an [int] that binary64 holds exactly or rounds. *)
Definition float_of_int (n : Z) : float := binary_normalize prec emax n 0 false.

(** [x * y] on floats. *)
Definition fmul (x y : float) : float := SFmul prec emax x y.

(** [int(x)]: truncation toward zero. *)
Definition int_of_float (x : float) : res Z :=
  match x with
  | S754_zero _ => Ok 0
  | S754_finite s m e =>
      let a := if 0 <=? e then Z.shiftl (Zpos m) e else Z.shiftr (Zpos m) (- e) in
      Ok (if s then - a else a)
  | S754_infinity _ => Raise (OverflowError "cannot convert float infinity to integer")
  | S754_nan => Raise (ValueError "cannot convert float NaN to integer")
  end.

End Num.

(** ** [parse_size] *)

(** The [multipliers] dict, in its insertion order, which is the order
    [.items()] iterates in. *)
Definition multipliers : list (string * Z) :=
  [ ("K", 1024); ("KB", 1024);
    ("M", 1024 * 1024); ("MB", 1024 * 1024);
    ("G", 1024 * 1024 * 1024); ("GB", 1024 * 1024 * 1024) ].

(** One turn of the [for suffix, multiplier] loop body: the [try] block. *)
Definition parse_size_try (size_str suffix : string) (multiplier : Z) : res Z :=
  do num <- Num.py_float (Str.drop_last (String.length suffix) size_str);
  Num.int_of_float (Num.fmul num (Num.float_of_int multiplier)).

(** The loop over the table: [Some r] when a turn returned or raised out of the
    function, [None] when the loop ran to its end. *)
Fixpoint parse_size_loop (size_str : string) (table : list (string * Z)) : option (res Z) :=
  match table with
  | [] => None
  | (suffix, multiplier) :: rest =>
      if Str.endswith size_str suffix then
        match parse_size_try size_str suffix multiplier with
        | Ok n => Some (Ok n)
        | Raise e => if is_ValueError e then parse_size_loop size_str rest else Some (Raise e)
        end
      else parse_size_loop size_str rest
  end.

Definition invalid_size_format (size_str : string) : exn :=
  ValueError ("Invalid size format: " +:+ size_str).

Definition parse_size (size_str : string) : res Z :=
  let size_str := Str.upper (Str.strip size_str) in
  match parse_size_loop size_str multipliers with
  | Some r => r
  | None =>
      try_except (Num.py_int size_str) is_ValueError
        (fun _ => Raise (invalid_size_format size_str))
  end.

(** The size parser as section 4.1 of the specification words it: the same
    function, over a table that lists each longer suffix before the shorter
    one it extends.  It is compared with [parse_size] below. *)
Definition multipliers_longest_first : list (string * Z) :=
  [ ("KB", 1024); ("K", 1024);
    ("MB", 1024 * 1024); ("M", 1024 * 1024);
    ("GB", 1024 * 1024 * 1024); ("G", 1024 * 1024 * 1024) ].

Definition parse_size_longest_first (size_str : string) : res Z :=
  let size_str := Str.upper (Str.strip size_str) in
  match parse_size_loop size_str multipliers_longest_first with
  | Some r => r
  | None =>
      try_except (Num.py_int size_str) is_ValueError
        (fun _ => Raise (invalid_size_format size_str))
  end.

(** Strings of decimal digits and the number they write. *)
Fixpoint all_digits (s : string) : bool :=
  match s with
  | EmptyString => true
  | String c r => Str.isdigit c && all_digits r
  end.

Fixpoint decimal_fold (s : string) (acc : Z) : Z :=
  match s with
  | EmptyString => acc
  | String c r => decimal_fold r (10 * acc + Num.digit_val c)
  end.

Definition decimal_value (s : string) : Z := decimal_fold s 0.

(** ** The [zlib] and [gzip] libraries

    [decompress_content] reaches the compression libraries through two calls,
    [gzip.decompress(data)] and [zlib.decompress(data, wbits)].  The program is
    modelled over any implementation of this interface; [Inflate.cpython] below
    is the reference one. *)

Module Zlib.

Record lib : Type := {
  gzip_decompress : bytes -> res bytes;
  zlib_decompress : bytes -> Z -> res bytes
}.

(** [zlib.MAX_WBITS] *)
Definition MAX_WBITS : Z := 15.

Definition is_error (e : exn) : bool :=
  match e with ZlibError _ => true | _ => false end.

End Zlib.

(** ** [decompress_content] *)

Definition decompress_content (L : Zlib.lib) (content : bytes) (encoding : string) : res bytes :=
  if String.eqb encoding "gzip" then
    Zlib.gzip_decompress L content
  else if String.eqb encoding "deflate" then
    try_except (Zlib.zlib_decompress L content Zlib.MAX_WBITS) Zlib.is_error
      (fun _ => Zlib.zlib_decompress L content (- Zlib.MAX_WBITS))
  else Ok content.

(** ** A reference implementation of the compression libraries

    DEFLATE (RFC 1951) with its zlib (RFC 1950) and gzip (RFC 1952) framings,
    decoded the way zlib's [inflate] and CPython 3.11's [gzip.decompress] do,
    with their error classes. *)

Module Inflate.

Inductive outcome (A : Type) : Type :=
| Done (a : A)
| NeedInput
| Invalid (msg : string).
Arguments Done {A} a.
Arguments NeedInput {A}.
Arguments Invalid {A} msg.

Definition obind {A B} (m : outcome A) (k : A -> outcome B) : outcome B :=
  match m with
  | Done a => k a
  | NeedInput => NeedInput
  | Invalid msg => Invalid msg
  end.

Notation "'get' p <- m ; k" := (obind m (fun p => k))
  (at level 10, p strict pattern, m at level 100, k at level 200).

Definition byte_val (b : byte) : Z := Z.of_N (Byte.to_N b).

Definition byte_of_Z (z : Z) : byte :=
  match Byte.of_N (Z.to_N z) with Some b => b | None => x00 end.

(** The input: the bits left of the byte being read, least significant
    first, and the bytes after it. *)
Record stream : Type := { bitbuf : list bool; rest : bytes }.

Definition bits_of_byte (b : byte) : list bool :=
  List.map (fun i => Z.testbit (byte_val b) i) [0; 1; 2; 3; 4; 5; 6; 7].

Definition next_bit (s : stream) : outcome (bool * stream) :=
  match bitbuf s with
  | b :: bs => Done (b, {| bitbuf := bs; rest := rest s |})
  | [] =>
      match rest s with
      | [] => NeedInput
      | x :: xs =>
          match bits_of_byte x with
          | b :: bs => Done (b, {| bitbuf := bs; rest := xs |})
          | [] => NeedInput
          end
      end
  end.

(** [n] bits as a number, the first bit read being the least significant. *)
Fixpoint read_bits (n : nat) (s : stream) : outcome (Z * stream) :=
  match n with
  | O => Done (0, s)
  | S n' =>
      get (b, s1) <- next_bit s;
      get (v, s2) <- read_bits n' s1;
      Done (Z.b2z b + 2 * v, s2)
  end.

(** Whole bytes from the next byte boundary on. *)
Fixpoint read_bytes (n : nat) (l : bytes) : outcome (bytes * bytes) :=
  match n with
  | O => Done ([], l)
  | S n' =>
      match l with
      | [] => NeedInput
      | x :: xs => get (d, r) <- read_bytes n' xs; Done (x :: d, r)
      end
  end.

(** A canonical Huffman code: how many codes there are of each length
    1..15, and the symbols ordered by code. *)
Record huffman : Type := { counts : list Z; symbols : list Z }.

Definition max_bits : list Z := [1; 2; 3; 4; 5; 6; 7; 8; 9; 10; 11; 12; 13; 14; 15].

Definition count_of (lengths : list Z) (len : Z) : Z :=
  Z.of_nat (List.length (List.filter (Z.eqb len) lengths)).

Fixpoint symbols_of (lengths : list Z) (sym : Z) (len : Z) : list Z :=
  match lengths with
  | [] => []
  | l :: ls => if l =? len then sym :: symbols_of ls (sym + 1) len else symbols_of ls (sym + 1) len
  end.

(** The code for a list of code lengths, with the number of codes left
    unused: negative when the lengths are over-subscribed, zero when the
    code is complete. *)
Definition construct (lengths : list Z) : huffman * Z :=
  let h := {| counts := List.map (count_of lengths) max_bits;
              symbols := List.concat (List.map (symbols_of lengths 0) max_bits) |} in
  let unused :=
    if count_of lengths 0 =? Z.of_nat (List.length lengths) then 0
    else List.fold_left (fun u c => if u <? 0 then u else 2 * u - c) (counts h) 1 in
  (h, unused).

Fixpoint decode_go (cs : list Z) (syms : list Z) (code first index : Z) (s : stream)
  : outcome (Z * stream) :=
  match cs with
  | [] => Invalid "invalid code"
  | count :: cs' =>
      get (b, s1) <- next_bit s;
      let code := code + Z.b2z b in
      if code - count <? first then
        Done (List.nth (Z.to_nat (index + (code - first))) syms 0, s1)
      else decode_go cs' syms (2 * code) (2 * (first + count)) (index + count) s1
  end.

Definition decode (h : huffman) (s : stream) : outcome (Z * stream) :=
  decode_go (counts h) (symbols h) 0 0 0 s.

Definition length_base : list Z :=
  [3; 4; 5; 6; 7; 8; 9; 10; 11; 13; 15; 17; 19; 23; 27; 31; 35; 43; 51; 59;
   67; 83; 99; 115; 131; 163; 195; 227; 258].
Definition length_extra : list nat :=
  [0; 0; 0; 0; 0; 0; 0; 0; 1; 1; 1; 1; 2; 2; 2; 2; 3; 3; 3; 3;
   4; 4; 4; 4; 5; 5; 5; 5; 0]%nat.
Definition dist_base : list Z :=
  [1; 2; 3; 4; 5; 7; 9; 13; 17; 25; 33; 49; 65; 97; 129; 193; 257; 385; 513; 769;
   1025; 1537; 2049; 3073; 4097; 6145; 8193; 12289; 16385; 24577].
Definition dist_extra : list nat :=
  [0; 0; 0; 0; 1; 1; 2; 2; 3; 3; 4; 4; 5; 5; 6; 6; 7; 7; 8; 8;
   9; 9; 10; 10; 11; 11; 12; 12; 13; 13]%nat.

(** Copy [len] bytes from [dist] back; the output is kept last byte first. *)
Fixpoint copy_back (len : nat) (dist : nat) (out : bytes) : bytes :=
  match len with
  | O => out
  | S n => copy_back n dist (List.nth (dist - 1) out x00 :: out)
  end.

(** The literal/length and distance codes of one block, up to its
    end-of-block symbol. *)
Fixpoint codes (fuel : nat) (lencode distcode : huffman) (s : stream) (out : bytes)
  : outcome (stream * bytes) :=
  match fuel with
  | O => NeedInput
  | S fuel' =>
      get (sym, s1) <- decode lencode s;
      if sym <? 256 then codes fuel' lencode distcode s1 (byte_of_Z sym :: out)
      else if sym =? 256 then Done (s1, out)
      else
        let i := Z.to_nat (sym - 257) in
        if (29 <=? sym - 257) then Invalid "invalid literal/length code"
        else
          get (eb, s2) <- read_bits (List.nth i length_extra O) s1;
          let len := List.nth i length_base 0 + eb in
          get (dsym, s3) <- decode distcode s2;
          if 30 <=? dsym then Invalid "invalid distance code"
          else
            get (db, s4) <- read_bits (List.nth (Z.to_nat dsym) dist_extra O) s3;
            let dist := List.nth (Z.to_nat dsym) dist_base 0 + db in
            if Z.of_nat (List.length out) <? dist then Invalid "invalid distance too far back"
            else codes fuel' lencode distcode s4 (copy_back (Z.to_nat len) (Z.to_nat dist) out)
  end.

Definition stored (s : stream) (out : bytes) : outcome (stream * bytes) :=
  get (hdr, r) <- read_bytes 4 (rest s);
  match List.map byte_val hdr with
  | [l0; l1; n0; n1] =>
      let len := l0 + 256 * l1 in
      if negb (len =? Z.lxor (n0 + 256 * n1) 65535) then Invalid "invalid stored block lengths"
      else
        get (d, r') <- read_bytes (Z.to_nat len) r;
        Done ({| bitbuf := []; rest := r' |}, List.rev_append d out)
  | _ => NeedInput
  end.

Definition fixed_lencode : huffman :=
  fst (construct (List.repeat 8 144 ++ List.repeat 9 112 ++ List.repeat 7 24 ++ List.repeat 8 8)).
Definition fixed_distcode : huffman := fst (construct (List.repeat 5 30)).

Definition code_length_order : list nat :=
  [16; 17; 18; 0; 8; 7; 9; 6; 10; 5; 11; 4; 12; 3; 13; 2; 14; 1; 15]%nat.

Fixpoint read_code_lengths (n : nat) (s : stream) : outcome (list Z * stream) :=
  match n with
  | O => Done ([], s)
  | S n' =>
      get (v, s1) <- read_bits 3 s;
      get (vs, s2) <- read_code_lengths n' s1;
      Done (v :: vs, s2)
  end.

(** The code lengths of the code-length alphabet, put in symbol order. *)
Definition place_code_lengths (vs : list Z) : list Z :=
  List.map (fun sym =>
    match List.find (fun p => Nat.eqb (fst p) sym) (List.combine code_length_order vs) with
    | Some (_, v) => v
    | None => 0
    end) (List.seq 0 19).

(** The run-length coded literal/length and distance code lengths; [acc]
    holds the lengths read so far, last first. *)
Fixpoint read_lengths (fuel : nat) (h : huffman) (total : Z) (s : stream) (acc : list Z)
  : outcome (list Z * stream) :=
  if total <=? Z.of_nat (List.length acc) then Done (List.rev acc, s)
  else
    match fuel with
    | O => NeedInput
    | S fuel' =>
        get (sym, s1) <- decode h s;
        if sym <? 16 then read_lengths fuel' h total s1 (sym :: acc)
        else
          get (len, rep, s2) <-
            (if sym =? 16 then
               match acc with
               | [] => Invalid "invalid bit length repeat"
               | prev :: _ => get (v, s2) <- read_bits 2 s1; Done (prev, 3 + v, s2)
               end
             else if sym =? 17 then get (v, s2) <- read_bits 3 s1; Done (0, 3 + v, s2)
             else get (v, s2) <- read_bits 7 s1; Done (0, 11 + v, s2));
          if total <? Z.of_nat (List.length acc) + rep then Invalid "invalid bit length repeat"
          else read_lengths fuel' h total s2 (List.repeat len (Z.to_nat rep) ++ acc)
    end.

(** A code may be incomplete only when it has a single code, of length 1. *)
Definition usable (lengths : list Z) : bool :=
  let unused := snd (construct lengths) in
  (unused =? 0) ||
  ((0 <? unused) && (Z.of_nat (List.length lengths) =? count_of lengths 0 + count_of lengths 1)).

Definition dynamic (fuel : nat) (s : stream) (out : bytes) : outcome (stream * bytes) :=
  get (hlit, s1) <- read_bits 5 s;
  get (hdist, s2) <- read_bits 5 s1;
  get (hclen, s3) <- read_bits 4 s2;
  let nlen := hlit + 257 in
  let ndist := hdist + 1 in
  if (286 <? nlen) || (30 <? ndist) then Invalid "too many length or distance symbols"
  else
    get (vs, s4) <- read_code_lengths (Z.to_nat (hclen + 4)) s3;
    let '(clcode, unused) := construct (place_code_lengths vs) in
    if negb (unused =? 0) then Invalid "invalid code lengths set"
    else
      get (lengths, s5) <- read_lengths fuel clcode (nlen + ndist) s4 [];
      let ll := List.firstn (Z.to_nat nlen) lengths in
      let dl := List.skipn (Z.to_nat nlen) lengths in
      if List.nth 256 ll 0 =? 0 then Invalid "invalid code -- missing end-of-block"
      else if negb (usable ll) then Invalid "invalid literal/lengths set"
      else if negb (usable dl) then Invalid "invalid distances set"
      else codes fuel (fst (construct ll)) (fst (construct dl)) s5 out.

(** The blocks of a raw DEFLATE stream, up to and including the final one. *)
Fixpoint blocks (fuel : nat) (inner : nat) (s : stream) (out : bytes) : outcome (stream * bytes) :=
  match fuel with
  | O => NeedInput
  | S fuel' =>
      get (last, s1) <- read_bits 1 s;
      get (type, s2) <- read_bits 2 s1;
      get (s3, out') <-
        (if type =? 0 then stored s2 out
         else if type =? 1 then codes inner fixed_lencode fixed_distcode s2 out
         else if type =? 2 then dynamic inner s2 out
         else Invalid "invalid block type");
      if last =? 1 then Done (s3, out') else blocks fuel' inner s3 out'
  end.

(** A raw DEFLATE stream at the front of [data]: the decompressed bytes and
    the bytes after the stream ([unused_data]).  Every block and every code
    consumes at least one bit, which bounds the work. *)
Definition inflate (data : bytes) : outcome (bytes * bytes) :=
  let fuel := S (8 * List.length data) in
  get (s, out) <- blocks fuel fuel {| bitbuf := []; rest := data |} [];
  Done (List.rev out, rest s).

(** [zlib.adler32] *)
Definition adler32 (data : bytes) : Z :=
  let '(a, b) :=
    List.fold_left (fun '(a, b) x =>
      let a' := (a + byte_val x) mod 65521 in (a', (b + a') mod 65521)) data (1, 0) in
  b * 65536 + a.

(** [zlib.crc32] *)
Definition crc32_step (crc : Z) (_ : nat) : Z :=
  if Z.testbit crc 0 then Z.lxor (Z.shiftr crc 1) 3988292384 else Z.shiftr crc 1.

Definition crc32 (data : bytes) : Z :=
  Z.lxor
    (List.fold_left (fun crc x =>
       List.fold_left crc32_step (List.seq 0 8) (Z.lxor crc (byte_val x))) data 4294967295)
    4294967295.

Definition le32 (l : bytes) : Z :=
  List.fold_right (fun x acc => byte_val x + 256 * acc) 0 l.
Definition be32 (l : bytes) : Z :=
  List.fold_left (fun acc x => 256 * acc + byte_val x) l 0.

Definition zlib_error (msg : string) : exn :=
  ZlibError ("Error -3 while decompressing data: " +:+ msg).
Definition zlib_truncated : exn :=
  ZlibError "Error -5 while decompressing data: incomplete or truncated stream".

(** [zlib.decompress(data, wbits)] for the two values the program passes:
    [wbits = 15], a zlib stream, and [wbits = -15], a raw DEFLATE stream.
    Bytes after the end of the stream are ignored. *)
Definition zlib_decompress (data : bytes) (wbits : Z) : res bytes :=
  if wbits <? 0 then
    match inflate data with
    | Done (out, _) => Ok out
    | NeedInput => Raise zlib_truncated
    | Invalid msg => Raise (zlib_error msg)
    end
  else
    match data with
    | cmf :: flg :: body =>
        let c := byte_val cmf in
        let f := byte_val flg in
        if negb ((256 * c + f) mod 31 =? 0) then Raise (zlib_error "incorrect header check")
        else if negb (Z.land c 15 =? 8) then Raise (zlib_error "unknown compression method")
        else if wbits <? Z.shiftr c 4 + 8 then Raise (zlib_error "invalid window size")
        else if Z.testbit f 5 then
          match read_bytes 4 body with
          | Done _ => Raise (ZlibError "Error 2 while decompressing data")
          | _ => Raise zlib_truncated
          end
        else
          match inflate body with
          | Done (out, unused) =>
              match read_bytes 4 unused with
              | Done (chk, _) =>
                  if be32 chk =? adler32 out then Ok out
                  else Raise (zlib_error "incorrect data check")
              | _ => Raise zlib_truncated
              end
          | NeedInput => Raise zlib_truncated
          | Invalid msg => Raise (zlib_error msg)
          end
    | _ => Raise zlib_truncated
    end.

Definition eof_error : exn :=
  EOFError "Compressed file ended before the end-of-stream marker was reached".

(** [_read_exact(fp, n)] *)
Definition read_exact (n : nat) (l : bytes) : res (bytes * bytes) :=
  match read_bytes n l with
  | Done p => Ok p
  | _ => Raise eof_error
  end.

(** Read and discard a null-terminated string; the end of the data ends it
    too. *)
Fixpoint skip_cstring (l : bytes) : bytes :=
  match l with
  | [] => []
  | x :: xs => if byte_val x =? 0 then xs else skip_cstring xs
  end.

(** [_read_gzip_header(fp)]: [None] at the end of the data, otherwise the
    bytes after the header. *)
Definition read_gzip_header (data : bytes) : res (option bytes) :=
  match data with
  | [] => Ok None
  | [m0] => Raise (BadGzipFile "Not a gzipped file")
  | m0 :: m1 :: r =>
      if negb ((byte_val m0 =? 31) && (byte_val m1 =? 139)) then
        Raise (BadGzipFile "Not a gzipped file")
      else
        do* (h, r1) <- read_exact 8 r;
        match List.map byte_val h with
        | method :: flag :: _ =>
            if negb (method =? 8) then Raise (BadGzipFile "Unknown compression method")
            else
              do r2 <- (if Z.testbit flag 2 then
                          do* (xl, q) <- read_exact 2 r1;
                          do* (_, q') <- read_exact (Z.to_nat (le32 xl)) q;
                          Ok q'
                        else Ok r1);
              let r3 := if Z.testbit flag 3 then skip_cstring r2 else r2 in
              let r4 := if Z.testbit flag 4 then skip_cstring r3 else r3 in
              do r5 <- (if Z.testbit flag 1 then
                          do* (_, q) <- read_exact 2 r4; Ok q
                        else Ok r4);
              Ok (Some r5)
        | _ => Raise eof_error
        end
  end.

(** [data.lstrip(b"\x00")] *)
Fixpoint lstrip_zero (l : bytes) : bytes :=
  match l with
  | x :: xs => if byte_val x =? 0 then lstrip_zero xs else l
  | [] => []
  end.

(** [gzip.decompress(data)]: the members of the file, one after another. *)
Fixpoint gzip_members (fuel : nat) (data : bytes) (members : list bytes) : res bytes :=
  match fuel with
  | O => Raise eof_error
  | S fuel' =>
      do hdr <- read_gzip_header data;
      match hdr with
      | None => Ok (List.concat (List.rev members))
      | Some body =>
          match inflate body with
          | Invalid msg => Raise (zlib_error msg)
          | NeedInput => Raise eof_error
          | Done (decompressed, unused) =>
              match read_bytes 8 unused with
              | Done (trailer, after) =>
                  if negb (le32 (List.firstn 4 trailer) =? crc32 decompressed) then
                    Raise (BadGzipFile "CRC check failed")
                  else if negb (le32 (List.skipn 4 trailer)
                                =? Z.land (blen decompressed) 4294967295) then
                    Raise (BadGzipFile "Incorrect length of data produced")
                  else gzip_members fuel' (lstrip_zero after) (decompressed :: members)
              | _ => Raise eof_error
              end
          end
      end
  end.

Definition gzip_decompress (data : bytes) : res bytes :=
  gzip_members (S (List.length data)) data [].

Definition cpython : Zlib.lib :=
  {| Zlib.gzip_decompress := gzip_decompress; Zlib.zlib_decompress := zlib_decompress |}.

(** Bytes written in hexadecimal, as [bytes.fromhex] reads them. *)
Definition hex_val (c : ascii) : N :=
  let n := N_of_ascii c in
  if (48 <=? n)%N && (n <=? 57)%N then (n - 48)%N
  else if (97 <=? n)%N && (n <=? 102)%N then (n - 87)%N
  else if (65 <=? n)%N && (n <=? 70)%N then (n - 55)%N
  else 0%N.

Fixpoint fromhex (s : string) : bytes :=
  match s with
  | String a (String b r) =>
      match Byte.of_N (16 * hex_val a + hex_val b) with
      | Some x => x :: fromhex r
      | None => fromhex r
      end
  | _ => []
  end.

End Inflate.

(** ** The data model *)

(** A Python [dict] with [str] keys: the items in insertion order, each key
    once. *)
Module Dict.

Definition t (V : Type) : Type := list (string * V).

Fixpoint get {V} (d : t V) (k : string) : option V :=
  match d with
  | [] => None
  | (k', v) :: r => if String.eqb k' k then Some v else get r k
  end.

(** [d[k] = v]: an existing key keeps its place. *)
Fixpoint set {V} (d : t V) (k : string) (v : V) : t V :=
  match d with
  | [] => [(k, v)]
  | (k', v') :: r => if String.eqb k' k then (k', v) :: r else (k', v') :: set r k v
  end.

(** [d.update(other)] *)
Definition update {V} (d other : t V) : t V :=
  List.fold_left (fun acc kv => set acc (fst kv) (snd kv)) other d.

(** [dict(pairs)] *)
Definition of_pairs {V} (pairs : list (string * V)) : t V := update [] pairs.

End Dict.

(** Text: a [str] as its Unicode code points. *)
Abbreviation ustr := (list N).

Module U.

(** A protocol string read as text. *)
Fixpoint of_string (s : string) : ustr :=
  match s with
  | EmptyString => []
  | String c r => N_of_ascii c :: of_string r
  end.

Definition len (t : ustr) : Z := Z.of_nat (List.length t).

(** [c.isspace()] over Unicode. *)
Definition isspace (c : N) : bool :=
  ((9 <=? c) && (c <=? 13) || (28 <=? c) && (c <=? 32) || (c =? 133) || (c =? 160)
   || (c =? 5760) || (8192 <=? c) && (c <=? 8202) || (c =? 8232) || (c =? 8233)
   || (c =? 8239) || (c =? 8287) || (c =? 12288))%N.

Fixpoint lstrip (t : ustr) : ustr :=
  match t with
  | c :: r => if isspace c then lstrip r else t
  | [] => []
  end.

(** [t.strip()] *)
Definition strip (t : ustr) : ustr := List.rev (lstrip (List.rev (lstrip t))).

(** [t.split("\n")] *)
Fixpoint split_lines_go (cur : ustr) (t : ustr) : list ustr :=
  match t with
  | [] => [List.rev cur]
  | c :: r => if (c =? 10)%N then List.rev cur :: split_lines_go [] r
              else split_lines_go (c :: cur) r
  end.
Definition split_lines (t : ustr) : list ustr := split_lines_go [] t.

(** [sep.join(parts)] *)
Fixpoint join (sep : ustr) (parts : list ustr) : ustr :=
  match parts with
  | [] => []
  | [p] => p
  | p :: rest => p ++ sep ++ join sep rest
  end.

End U.

(** [FetchResult] *)
Record FetchResult : Type := {
  url : string;
  status : Z;
  headers : Dict.t string;
  content : bytes;
  content_type : string;
  charset : string
}.

(** ** The HTTP transport

    [urllib.request.Request] and [urlopen] are the external collaborator.  A
    response is what the program observes of it: the final URL, the status,
    the header lines, and what the successive [read(chunk_size)] calls return
    or raise; past the end of [reads], [read] returns [b""]. *)

Record Request : Type := {
  req_url : string;
  req_data : option bytes;
  req_headers : Dict.t string;
  req_method : string;
  req_timeout : Z
}.

Record Response : Type := {
  resp_url : string;
  resp_status : Z;
  resp_headers : list (string * string);
  resp_reads : list (res bytes)
}.

(** [response.headers.get(name, default)]: the first header line of that
    name, compared without case. *)
Fixpoint message_get (h : list (string * string)) (name default : string) : string :=
  match h with
  | [] => default
  | (k, v) :: r =>
      if String.eqb (Str.lower k) (Str.lower name) then v else message_get r name default
  end.

(** [dict(response.headers)]: every key of the message with [headers[key]]. *)
Definition message_dict (h : list (string * string)) : Dict.t string :=
  Dict.of_pairs (List.map (fun kv => (fst kv, message_get h (fst kv) "")) h).

(** What the program needs of its platform: the URL parser, the transport,
    the compression libraries. *)
Record Net : Type := {
  urlparse_scheme : string -> res string;
  urlopen : Request -> res Response;
  zlib : Zlib.lib
}.

(** ** [fetch_url] *)

Definition MAX_SIZE_DEFAULT : Z := 1024 * 1024.
Definition TIMEOUT_DEFAULT : Z := 30.
Definition OUTPUT_TRUNCATE_SIZE : Z := 50 * 1024.
Definition USER_AGENT_DEFAULT : string := "web-fetch/1.0".

Definition size_exceeded (max_size : Z) : exn :=
  RuntimeError ("Response size exceeds maximum (" +:+ pretty max_size +:+ " bytes)").

(** The [while True] loop that reads the body.  It yields the contents of the
    [BytesIO] buffer when the loop ends and the exception that ended it, if
    one did. *)
Fixpoint read_loop (max_size : Z) (reads : list (res bytes)) (total_size : Z) (buffer : bytes)
  : bytes * option exn :=
  match reads with
  | [] => (buffer, None)
  | Raise e :: _ => (buffer, Some e)
  | Ok chunk :: rest =>
      match chunk with
      | [] => (buffer, None)
      | _ =>
          let total_size := total_size + blen chunk in
          if max_size <? total_size then (buffer, Some (size_exceeded max_size))
          else read_loop max_size rest total_size (buffer ++ chunk)
      end
  end.

(** [content_bytes = content.getvalue()] after the loop. *)
Definition read_body (max_size : Z) (reads : list (res bytes)) : res bytes :=
  match read_loop max_size reads 0 [] with
  | (buffer, None) => Ok buffer
  | (_, Some e) => Raise e
  end.

Definition is_quote (c : ascii) : bool := Ascii.eqb c "034" || Ascii.eqb c "'".

(** The [for part in ct_parts[1:]] loop. *)
Fixpoint find_charset (parts : list string) : string :=
  match parts with
  | [] => "utf-8"
  | part :: rest =>
      if Str.contains part "charset=" then
        Str.strip_of is_quote (Str.strip (List.nth 1 (Str.split1 part "=") ""))
      else find_charset rest
  end.

(** The body of the [try] block, from [urlopen] to the [return]. *)
Definition fetch_body (W : Net) (request : Request) (max_size : Z) : res FetchResult :=
  do response <- urlopen W request;
  do content_bytes <- read_body max_size (resp_reads response);
  let headers_dict := message_dict (resp_headers response) in
  let encoding := Str.lower (message_get (resp_headers response) "Content-Encoding" "") in
  do content_bytes <-
    (if negb (String.eqb encoding "") then decompress_content (zlib W) content_bytes encoding
     else Ok content_bytes);
  let content_type :=
    message_get (resp_headers response) "Content-Type" "application/octet-stream" in
  let ct_parts := Str.split content_type ";" in
  let ct_main := Str.lower (Str.strip (List.nth 0 ct_parts "")) in
  let charset := find_charset (List.tl ct_parts) in
  Ok {| url := resp_url response;
        status := resp_status response;
        headers := headers_dict;
        content := content_bytes;
        content_type := ct_main;
        charset := charset |}.

(** The three [except] clauses, in order. *)
Definition fetch_handlers (url : string) (timeout : Z) (e : exn) : exn :=
  match e with
  | HTTPError code reason =>
      RuntimeError ("HTTP " +:+ pretty code +:+ " " +:+ reason +:+ ": " +:+ url)
  | URLError reason =>
      if Str.contains (Str.lower reason) "timed out" then
        RuntimeError ("Request timed out after " +:+ pretty timeout +:+ "s: " +:+ url)
      else if Str.contains (Str.lower reason) "ssl" then
        RuntimeError ("SSL error: " +:+ url +:+ ": " +:+ reason)
      else RuntimeError ("Network error: " +:+ url +:+ ": " +:+ reason)
  | _ =>
      if is_OSError e then RuntimeError ("Connection error: " +:+ url +:+ ": " +:+ str_exn e)
      else e
  end.

Definition default_headers (user_agent : string) : Dict.t string :=
  [ ("User-Agent", user_agent); ("Accept", "*/*"); ("Accept-Encoding", "gzip, deflate") ].

Definition fetch_url (W : Net) (url method : string) (headers : Dict.t string)
    (data : option bytes) (timeout max_size : Z) (user_agent : string) : res FetchResult :=
  do scheme <- urlparse_scheme W url;
  if negb (String.eqb scheme "http" || String.eqb scheme "https") then
    Raise (ValueError ("Only http and https URLs are supported, got: " +:+ scheme))
  else
    let request_headers := Dict.update (default_headers user_agent) headers in
    let request :=
      {| req_url := url; req_data := data; req_headers := request_headers;
         req_method := method; req_timeout := timeout |} in
    match fetch_body W request max_size with
    | Ok r => Ok r
    | Raise e => Raise (fetch_handlers url timeout e)
    end.

(** ** Text codecs *)

Module Codec.

Definition REPLACEMENT : N := 65533.

Definition in_range (lo hi x : Z) : bool := (lo <=? x) && (x <=? hi).
Definition cont (x : Z) : bool := in_range 128 191 x.

(** One UTF-8 sequence at the front of the input: its code point, or [None]
    for an ill-formed one, with the number of bytes it spans (for an
    ill-formed sequence, its maximal well-formed prefix, at least one byte). *)
Definition utf8_step (l : list Z) : option N * nat :=
  match l with
  | [] => (None, 1%nat)
  | b0 :: r =>
      if b0 <? 128 then (Some (Z.to_N b0), 1%nat)
      else if in_range 194 223 b0 then
        match r with
        | b1 :: _ => if cont b1 then (Some (Z.to_N ((b0 - 192) * 64 + (b1 - 128))), 2%nat)
                     else (None, 1%nat)
        | [] => (None, 1%nat)
        end
      else if in_range 224 239 b0 then
        let lo := if b0 =? 224 then 160 else 128 in
        let hi := if b0 =? 237 then 159 else 191 in
        match r with
        | b1 :: r1 =>
            if in_range lo hi b1 then
              match r1 with
              | b2 :: _ =>
                  if cont b2 then
                    (Some (Z.to_N ((b0 - 224) * 4096 + (b1 - 128) * 64 + (b2 - 128))), 3%nat)
                  else (None, 2%nat)
              | [] => (None, 2%nat)
              end
            else (None, 1%nat)
        | [] => (None, 1%nat)
        end
      else if in_range 240 244 b0 then
        let lo := if b0 =? 240 then 144 else 128 in
        let hi := if b0 =? 244 then 143 else 191 in
        match r with
        | b1 :: r1 =>
            if in_range lo hi b1 then
              match r1 with
              | b2 :: r2 =>
                  if cont b2 then
                    match r2 with
                    | b3 :: _ =>
                        if cont b3 then
                          (Some (Z.to_N ((b0 - 240) * 262144 + (b1 - 128) * 4096
                                         + (b2 - 128) * 64 + (b3 - 128))), 4%nat)
                        else (None, 3%nat)
                    | [] => (None, 3%nat)
                    end
                  else (None, 2%nat)
              | [] => (None, 2%nat)
              end
            else (None, 1%nat)
        | [] => (None, 1%nat)
        end
      else (None, 1%nat)
  end.

(** [data.decode("utf-8", errors="replace")]: each ill-formed sequence
    becomes U+FFFD.  It raises nothing. *)
Fixpoint utf8_replace_go (fuel : nat) (l : list Z) : ustr :=
  match fuel, l with
  | S fuel', _ :: _ =>
      let '(c, n) := utf8_step l in
      match c with Some cp => cp | None => REPLACEMENT end
      :: utf8_replace_go fuel' (List.skipn n l)
  | _, _ => []
  end.

Definition utf8_replace (data : bytes) : ustr :=
  utf8_replace_go (List.length data) (List.map Inflate.byte_val data).

(** [data.decode("utf-8")] *)
Fixpoint utf8_strict_go (fuel : nat) (l : list Z) : option ustr :=
  match fuel, l with
  | S fuel', _ :: _ =>
      let '(c, n) := utf8_step l in
      match c with
      | Some cp => option_map (cons cp) (utf8_strict_go fuel' (List.skipn n l))
      | None => None
      end
  | _, _ => Some []
  end.

Definition utf8_strict (data : bytes) : res ustr :=
  match utf8_strict_go (List.length data) (List.map Inflate.byte_val data) with
  | Some t => Ok t
  | None => Raise (UnicodeDecodeError "'utf-8' codec can't decode bytes")
  end.

(** [data.decode("latin-1", errors="replace")]: every byte is a code point. *)
Definition latin1 (data : bytes) : ustr := List.map Byte.to_N data.

(** [data.decode("ascii")] *)
Definition ascii_strict (data : bytes) : res ustr :=
  if List.forallb (fun b => (Byte.to_N b <? 128)%N) data then Ok (latin1 data)
  else Raise (UnicodeDecodeError "'ascii' codec can't decode byte: ordinal not in range(128)").

(** The [undefined] codec of the standard library ([encodings/undefined.py]):
    it raises [UnicodeError] for every input, and [bytes.decode] re-raises it
    with the name of the codec. *)
Definition undefined (data : bytes) : res ustr :=
  Raise (UnicodeError
           "decoding with 'undefined' codec failed (UnicodeError: undefined encoding)").

(** What [data.decode(name)] does in strict mode, for the encoding a name
    resolves to. *)
Definition decoder : Type := bytes -> res ustr.

End Codec.

(** ** JSON and HTML libraries *)

Module Json.

(** What [json.loads] returns and [json.dumps] takes.  A float is kept with
    its [repr]. *)
#[local] Unset Elimination Schemes.
Inductive value : Type :=
| Null
| Bool (b : bool)
| Int (n : Z)
| Float (repr : ustr)
| Str (s : ustr)
| List (items : list value)
| Dict (items : list (ustr * value)).
#[local] Set Elimination Schemes.

End Json.

Module Html.

(** What the program takes from a [BeautifulSoup] document: the text of the
    first [title] element, the [content] attribute of the description [meta]
    element (by name, or else the Open Graph property), and
    [get_text(separator="\n", strip=True)] once the script, style, nav,
    footer, header, aside and noscript subtrees are removed. *)
Record parsed : Type := {
  title_text : option ustr;
  meta_content : option ustr;
  visible_text : ustr
}.

End Html.

(** The libraries of the renderer: the codec registry ([None] for a name no
    text codec answers to), [json.loads], [json.dumps(_, indent=2,
    ensure_ascii=_)], and [BeautifulSoup] when it could be imported. *)
Record Libs : Type := {
  lookup_codec : string -> option Codec.decoder;
  json_loads : ustr -> res Json.value;
  json_dumps : Json.value -> bool -> ustr;
  soup : option (ustr -> res Html.parsed)
}.

(** [content.decode(charset)] *)
Definition bytes_decode (L : Libs) (content : bytes) (charset : string) : res ustr :=
  match lookup_codec L charset with
  | Some dec => dec content
  | None => Raise (LookupError ("unknown encoding: " +:+ charset))
  end.

(** ** [extract_html_text] *)

Inductive Extracted : Type :=
| SoupMissing (error : string) (raw_html : ustr)
| SoupText (title description : option ustr) (text : ustr).

Definition nonempty (t : ustr) : bool := match t with [] => false | _ => true end.

Definition extract_html_text (L : Libs) (html_content : ustr) : res Extracted :=
  match soup L with
  | None =>
      Ok (SoupMissing "BeautifulSoup not available - install beautifulsoup4"
            (if 1000 <? U.len html_content
             then List.firstn 1000 html_content ++ U.of_string "..."
             else html_content))
  | Some parse =>
      do doc <- parse html_content;
      let title := option_map U.strip (Html.title_text doc) in
      let description :=
        match Html.meta_content doc with
        | Some c => if nonempty c then Some (U.strip c) else None
        | None => None
        end in
      let lines :=
        List.filter nonempty (List.map U.strip (U.split_lines (Html.visible_text doc))) in
      Ok (SoupText title description (U.join [10%N] lines))
  end.

(** ** [format_output] *)

Definition TEXT_CONTENT_TYPES : list string :=
  [ "text/html"; "text/plain"; "text/xml"; "application/xml"; "application/json";
    "application/javascript"; "text/javascript"; "application/x-javascript"; "text/css" ].

Definition is_text_type (content_type : string) : bool :=
  List.existsb (Str.startswith content_type) TEXT_CONTENT_TYPES
  || Str.startswith content_type "text/".

(** Tuples of strings in Python's order. *)
Definition item_leb (a b : string * string) : bool :=
  if String.eqb (fst a) (fst b) then String.leb (snd a) (snd b)
  else String.leb (fst a) (fst b).

(** [sorted(d.items())] *)
Definition sorted_items (d : Dict.t string) : list (string * string) :=
  merge_sort (fun a b => Is_true (item_leb a b)) d.

(** The text decoding chain. *)
Definition is_decode_or_lookup_error (e : exn) : bool :=
  match e with UnicodeDecodeError _ | LookupError _ => true | _ => false end.

Definition decode_text (L : Libs) (content : bytes) (charset : string) : res ustr :=
  try_except (bytes_decode L content charset) is_decode_or_lookup_error
    (fun _ =>
       try_except (Ok (Codec.utf8_replace content)) (fun _ => true)
         (fun _ => Ok (Codec.latin1 content))).

Definition is_JSONDecodeError (e : exn) : bool :=
  match e with JSONDecodeError _ => true | _ => false end.

Definition jstr (s : string) : Json.value := Json.Str (U.of_string s).
Definition jkey (s : string) : ustr := U.of_string s.

Definition jopt (o : option ustr) : Json.value :=
  match o with Some t => Json.Str t | None => Json.Null end.

Definition json_of_extracted (x : Extracted) : Json.value :=
  match x with
  | SoupMissing error raw_html =>
      Json.Dict [ (jkey "error", jstr error); (jkey "raw_html", Json.Str raw_html) ]
  | SoupText title description text =>
      Json.Dict [ (jkey "title", jopt title); (jkey "description", jopt description);
                  (jkey "text", Json.Str text) ]
  end.

Definition truthy (o : option ustr) : bool :=
  match o with Some t => nonempty t | None => false end.

Definition truncation_marker : ustr :=
  U.of_string ("

... (truncated, showing first " +:+ pretty OUTPUT_TRUNCATE_SIZE +:+ " bytes)").

(** The last step of the text mode: [result_text[:OUTPUT_TRUNCATE_SIZE]] and
    the marker, when [len(result_text)] is above the cap. *)
Definition truncate_output (result_text : ustr) : ustr :=
  if OUTPUT_TRUNCATE_SIZE <? U.len result_text then
    List.firstn (Z.to_nat OUTPUT_TRUNCATE_SIZE) result_text ++ truncation_marker
  else result_text.

(** The head of the text output: URL, status, type and size, then the
    headers when asked for. *)
Definition text_head (result : FetchResult) (show_headers : bool) : list ustr :=
  [ U.of_string ("URL: " +:+ url result);
    U.of_string ("Status: " +:+ pretty (status result));
    U.of_string ("Content-Type: " +:+ content_type result);
    U.of_string ("Size: " +:+ pretty (blen (content result)) +:+ " bytes") ]
  ++ (if show_headers then
        U.of_string "
Headers:"
        :: List.map (fun kv => U.of_string ("  " +:+ fst kv +:+ ": " +:+ snd kv))
             (sorted_items (headers result))
      else []).

(** The payload of the JSON mode: the [output_data] dict. *)
Definition json_payload (L : Libs) (result : FetchResult) (show_headers raw : bool) (text : ustr)
  : res Json.value :=
  let base :=
    [ (jkey "url", jstr (url result));
      (jkey "status", Json.Int (status result));
      (jkey "content_type", jstr (content_type result));
      (jkey "size", Json.Int (blen (content result))) ]
    ++ (if show_headers then
          [ (jkey "headers",
             Json.Dict (List.map (fun kv => (jkey (fst kv), jstr (snd kv))) (headers result))) ]
        else []) in
  do variant <-
    (if String.eqb (content_type result) "application/json" then
       if negb (nonempty (U.strip text)) then Ok (jkey "text", jstr "(empty body)")
       else
         try_except (do v <- json_loads L text; Ok (jkey "json", v)) is_JSONDecodeError
           (fun _ => Ok (jkey "text", Json.Str text))
     else if String.eqb (content_type result) "text/html" && negb raw then
       do x <- extract_html_text L text; Ok (jkey "html", json_of_extracted x)
     else Ok (jkey "text", Json.Str text));
  Ok (Json.Dict (base ++ [variant])).

(** The parts the text mode appends for the body. *)
Definition text_body (L : Libs) (result : FetchResult) (raw : bool) (text : ustr)
  : res (list ustr) :=
  if String.eqb (content_type result) "application/json" then
    if negb (nonempty (U.strip text)) then Ok [U.of_string "(empty body)"]
    else
      try_except (do parsed <- json_loads L text; Ok [json_dumps L parsed false])
        is_JSONDecodeError
        (fun e => Ok [U.of_string ("Warning: Invalid JSON (" +:+ str_exn e +:+ ")"); text])
  else if String.eqb (content_type result) "text/html" && negb raw then
    do extracted <- extract_html_text L text;
    match extracted with
    | SoupMissing error raw_html =>
        Ok [ U.of_string ("Error: " +:+ error);
             U.of_string "
Raw HTML (truncated):";
             raw_html ]
    | SoupText title description body =>
        Ok ((match title with
             | Some t => if nonempty t then [U.of_string "Title: " ++ t] else []
             | None => []
             end)
            ++ (match description with
                | Some d => if nonempty d then [U.of_string "Description: " ++ d] else []
                | None => []
                end)
            ++ [ U.of_string "
Content:"; body ])
    end
  else Ok [text].

Definition NL : ustr := [10%N].

Definition format_output (L : Libs) (result : FetchResult)
    (show_headers raw json_output : bool) : res ustr :=
  let output_parts := if json_output then [] else text_head result show_headers in
  if negb (is_text_type (content_type result)) then
    if json_output then
      Ok (json_dumps L
            (Json.Dict
               [ (jkey "url", jstr (url result));
                 (jkey "status", Json.Int (status result));
                 (jkey "content_type", jstr (content_type result));
                 (jkey "size", Json.Int (blen (content result)));
                 (jkey "binary", Json.Bool true);
                 (jkey "message", jstr "Binary content - use --output to save to file") ])
            true)
    else
      Ok (U.join NL (output_parts
                     ++ [ U.of_string "
Binary content detected."; U.of_string "Use --output to save to a file." ]))
  else
    do text <- decode_text L (content result) (charset result);
    if json_output then
      do output_data <- json_payload L result show_headers raw text;
      Ok (json_dumps L output_data false)
    else
      do body <- text_body L result raw text;
      let result_text := U.join NL (output_parts ++ [[]] ++ body) in
      Ok (truncate_output result_text).

(** ** [main]: the batch orchestrator *)

(** The parsed command line ([args]). *)
Record Args : Type := {
  arg_urls : list string;
  arg_headers : bool;
  arg_raw : bool;
  arg_json : bool;
  arg_method : string;
  arg_data : option string;
  arg_custom_headers : option (list string);
  arg_timeout : Z;
  arg_max_size : string;
  arg_output : option string;
  arg_user_agent : string
}.

(** The platform of one invocation: the network side, the libraries of the
    renderer, whether [open(path, "wb")] succeeds, and whether [print(text)]
    does: [sys.stdout] raises [UnicodeEncodeError] for a text its encoding
    cannot write.  [sys.stderr] replaces what it cannot write and raises
    nothing. *)
Record World : Type := {
  net : Net;
  libs : Libs;
  open_wb : string -> res unit;
  print_stdout : ustr -> res unit
}.

(** How the process ends: [sys.exit(code)] or falling off the end of [main]
    (code 0), or an exception nobody caught, which the interpreter reports
    with status 1. *)
Inductive Termination : Type :=
| Exited (code : Z)
| Uncaught (e : exn).

Definition exit_status (t : Termination) : Z :=
  match t with Exited code => code | Uncaught _ => 1 end.

(** What one invocation leaves behind: what was printed to the two streams,
    one entry for each [print] call, the files written, and the way it ended. *)
Record Run : Type := {
  stdout : list ustr;
  stderr : list string;
  written : gmap string bytes;
  termination : Termination
}.

(** The accumulators of the [for url in args.urls] loop. *)
Record Batch : Type := {
  results : list ustr;
  errors : list string;
  printed : list ustr;
  files : gmap string bytes
}.

Definition empty_batch : Batch :=
  {| results := []; errors := []; printed := []; files := ∅ |}.

(** [s.encode("utf-8")] of an ASCII string. *)
Fixpoint encode_ascii (s : string) : bytes :=
  match s with
  | EmptyString => []
  | String c r => Inflate.byte_of_Z (Str.code c) :: encode_ascii r
  end.

(** The loop over [args.custom_headers]: the headers dict, or the header that
    has no colon. *)
Fixpoint parse_custom_headers (l : list string) (headers : Dict.t string)
  : string + Dict.t string :=
  match l with
  | [] => inr headers
  | header :: rest =>
      if negb (Str.contains header ":") then inl header
      else
        let parts := Str.split1 header ":" in
        parse_custom_headers rest
          (Dict.set headers (Str.strip (List.nth 0 parts "")) (Str.strip (List.nth 1 parts "")))
  end.

(** The name of the file a result is saved to. *)
Definition output_file_name (output : string) (n_urls n_results : nat) : string :=
  if (1 <? n_urls)%nat then
    let '(base, ext) :=
      if Str.contains output "." then
        match Str.rsplit1 output "." with
        | [b; e] => (b, e)
        | _ => (output, "")
        end
      else (output, "") in
    if negb (String.eqb ext "") then base +:+ "_" +:+ pretty n_results +:+ "." +:+ ext
    else base +:+ "_" +:+ pretty n_results
  else output.

Definition truthy_string (o : option string) : option string :=
  match o with
  | Some s => if String.eqb s "" then None else Some s
  | None => None
  end.

(** The body of the [try] for one URL: the batch after it, or the exception
    it raised together with the batch as it then was. *)
Definition fetch_one (W : World) (a : Args) (headers : Dict.t string) (data : option bytes)
    (max_size : Z) (b : Batch) (url : string) : Batch * option exn :=
  match fetch_url (net W) url (arg_method a) headers data (arg_timeout a) max_size
          (arg_user_agent a) with
  | Raise e => (b, Some e)
  | Ok result =>
      match truthy_string (arg_output a) with
      | Some output =>
          let output_file :=
            output_file_name output (List.length (arg_urls a)) (List.length (results b)) in
          match open_wb W output_file with
          | Raise e => (b, Some e)
          | Ok _ =>
              let saved := <[ output_file := content result ]> (files b) in
              match print_stdout W (U.of_string ("Saved to: " +:+ output_file)) with
              | Raise e =>
                  ({| results := results b; errors := errors b; printed := printed b;
                      files := saved |}, Some e)
              | Ok _ =>
                  ({| results := results b; errors := errors b;
                      printed := printed b ++ [U.of_string ("Saved to: " +:+ output_file)];
                      files := saved |}, None)
              end
          end
      | None =>
          match format_output (libs W) result (arg_headers a) (arg_raw a) (arg_json a) with
          | Raise e => (b, Some e)
          | Ok formatted =>
              ({| results := results b ++ [formatted]; errors := errors b;
                  printed := printed b; files := files b |}, None)
          end
      end
  end.

Definition caught_by_batch (e : exn) : bool := is_ValueError e || is_RuntimeError e.

Definition error_line (url : string) (e : exn) : string :=
  "Error fetching " +:+ url +:+ ": " +:+ str_exn e.

(** The [for url in args.urls] loop with its [except (ValueError,
    RuntimeError)] clause: the batch at the end, and the exception that left
    the loop, if one did. *)
Fixpoint process_urls (W : World) (a : Args) (headers : Dict.t string) (data : option bytes)
    (max_size : Z) (urls : list string) (b : Batch) : Batch * option exn :=
  match urls with
  | [] => (b, None)
  | url :: rest =>
      match fetch_one W a headers data max_size b url with
      | (b', None) => process_urls W a headers data max_size rest b'
      | (b', Some e) =>
          if caught_by_batch e then
            process_urls W a headers data max_size rest
              {| results := results b'; errors := errors b' ++ [error_line url e];
                 printed := printed b'; files := files b' |}
          else (b', Some e)
      end
  end.

Definition divider : ustr :=
  NL ++ List.repeat 61%N 70 ++ NL.

Fixpoint print_divided (first : bool) (l : list ustr) : list ustr :=
  match l with
  | [] => []
  | formatted :: rest =>
      (if first then [formatted] else [divider; formatted]) ++ print_divided false rest
  end.

(** The [if results:] block. *)
Definition print_results (L : Libs) (json : bool) (rs : list ustr) : list ustr :=
  match rs with
  | [] => []
  | _ =>
      if (1 <? List.length rs)%nat && negb json then print_divided true rs
      else if (List.length rs =? 1)%nat then [List.nth 0 rs []]
      else if json then [json_dumps L (Json.List (List.map Json.Str rs)) true]
      else []
  end.

(** The [print] calls after the loop, in order: what was printed, and the
    exception of the first call that raised, if one did. *)
Fixpoint print_all (W : World) (lines : list ustr) : list ustr * option exn :=
  match lines with
  | [] => ([], None)
  | t :: rest =>
      match print_stdout W t with
      | Raise e => ([], Some e)
      | Ok _ => let '(done, r) := print_all W rest in (t :: done, r)
      end
  end.

(** The exit at the end of [main]. *)
Definition final_status (b : Batch) : Z :=
  match errors b, results b with
  | _ :: _, [] => 1
  | _ :: _, _ :: _ => 2
  | [], _ => 0
  end.

Definition main (W : World) (a : Args) : Run :=
  match parse_custom_headers (default [] (arg_custom_headers a)) [] with
  | inl header =>
      {| stdout := [];
         stderr := [ "Error: Invalid header format: " +:+ header;
                     "Expected format: 'Name: Value'" ];
         written := ∅; termination := Exited 1 |}
  | inr headers =>
      match parse_size (arg_max_size a) with
      | Raise e =>
          if is_ValueError e then
            {| stdout := []; stderr := [ "Error: " +:+ str_exn e ];
               written := ∅; termination := Exited 1 |}
          else {| stdout := []; stderr := []; written := ∅; termination := Uncaught e |}
      | Ok max_size =>
          let data := option_map encode_ascii (truthy_string (arg_data a)) in
          match process_urls W a headers data max_size (arg_urls a) empty_batch with
          | (b, Some e) =>
              {| stdout := printed b; stderr := []; written := files b;
                 termination := Uncaught e |}
          | (b, None) =>
              match print_all W (print_results (libs W) (arg_json a) (results b)) with
              | (done, Some e) =>
                  {| stdout := printed b ++ done; stderr := []; written := files b;
                     termination := Uncaught e |}
              | (done, None) =>
                  {| stdout := printed b ++ done;
                     stderr := errors b;
                     written := files b;
                     termination := Exited (final_status b) |}
              end
          end
      end
  end.

(** ** A reference platform

    Concrete libraries to run the program on concrete inputs: the scheme
    part of [urllib.parse.urlsplit], a transport that answers from a table, the
    compression libraries of [Inflate], a codec registry of five encodings and
    a JSON reader and writer.  Every general statement below is made for an
    arbitrary platform; this one is for the examples. *)

Module Ref.

(** [urlsplit(url).scheme], with the check that rejects a netloc whose
    brackets do not match. *)
Definition is_c0_or_space (c : ascii) : bool := Str.code c <=? 32.
Definition is_unsafe (c : ascii) : bool :=
  (Str.code c =? 9) || (Str.code c =? 10) || (Str.code c =? 13).
Definition is_scheme_char (c : ascii) : bool :=
  Str.isalpha c || Str.isdigit c || Ascii.eqb c "+" || Ascii.eqb c "-" || Ascii.eqb c ".".

Fixpoint remove_unsafe (s : string) : string :=
  match s with
  | EmptyString => EmptyString
  | String c r => if is_unsafe c then remove_unsafe r else String c (remove_unsafe r)
  end.

Fixpoint all_chars (p : ascii -> bool) (s : string) : bool :=
  match s with
  | EmptyString => true
  | String c r => p c && all_chars p r
  end.

(** The netloc of what follows the scheme: from [//] to the first of [/?#]. *)
Fixpoint netloc_of (s : string) : string :=
  match s with
  | EmptyString => EmptyString
  | String c r =>
      if Ascii.eqb c "/" || Ascii.eqb c "?" || Ascii.eqb c "#" then EmptyString
      else String c (netloc_of r)
  end.

Definition url_scheme (url : string) : res string :=
  let url := remove_unsafe (Str.lstrip_of is_c0_or_space url) in
  let '(scheme, rest) :=
    match Str.split1 url ":" with
    | [pre; post] =>
        match pre with
        | String c _ =>
            if Str.isalpha c && all_chars is_scheme_char pre then (Str.lower pre, post)
            else ("", url)
        | EmptyString => ("", url)
        end
    | _ => ("", url)
    end in
  match rest with
  | String "/" (String "/" after) =>
      let netloc := netloc_of after in
      if xorb (Str.contains netloc "[") (Str.contains netloc "]") then
        Raise (ValueError "Invalid IPv6 URL")
      else Ok scheme
  | _ => Ok scheme
  end.

(** A transport that answers each URL as the table says and knows no other
    host. *)
Fixpoint answer (table : list (string * res Response)) (u : string) : res Response :=
  match table with
  | [] => Raise (URLError "[Errno -2] Name or service not known")
  | (k, r) :: rest => if String.eqb k u then r else answer rest u
  end.

Definition net_of (table : list (string * res Response)) : Net :=
  {| urlparse_scheme := url_scheme;
     urlopen := fun request => answer table (req_url request);
     zlib := Inflate.cpython |}.

(** The codec registry: the names are matched as Python normalizes them,
    without case and with [_] for [-]. *)
Definition normalize_char (c : ascii) : ascii :=
  if Ascii.eqb c "_" || Ascii.eqb c " " then "-"%char else Str.lower_char c.

Definition codec (name : string) : option Codec.decoder :=
  let n := Str.map normalize_char name in
  if String.eqb n "utf-8" || String.eqb n "utf8" then Some Codec.utf8_strict
  else if String.eqb n "latin-1" || String.eqb n "latin1" || String.eqb n "iso-8859-1"
  then Some (fun data => Ok (Codec.latin1 data))
  else if String.eqb n "ascii" || String.eqb n "us-ascii" then Some Codec.ascii_strict
  else if String.eqb n "undefined" then Some Codec.undefined
  else None.

(** [json.dumps(value, indent=2, ensure_ascii=_)] *)
Definition hex_digit (n : N) : N := if (n <? 10)%N then (48 + n)%N else (87 + n)%N.

Definition u_escape (c : N) : ustr :=
  [92; 117; hex_digit (c / 4096 mod 16); hex_digit (c / 256 mod 16);
   hex_digit (c / 16 mod 16); hex_digit (c mod 16)]%N.

Definition escape_char (ensure_ascii : bool) (c : N) : ustr :=
  if (c =? 34)%N then [92; 34]%N
  else if (c =? 92)%N then [92; 92]%N
  else if (c =? 10)%N then [92; 110]%N
  else if (c =? 13)%N then [92; 114]%N
  else if (c =? 9)%N then [92; 116]%N
  else if (c =? 8)%N then [92; 98]%N
  else if (c =? 12)%N then [92; 102]%N
  else if (c <? 32)%N then u_escape c
  else if ensure_ascii && (127 <? c)%N then
    if (c <? 65536)%N then u_escape c
    else u_escape (55296 + (c - 65536) / 1024) ++ u_escape (56320 + (c - 65536) mod 1024)
  else [c].

Definition dump_string (ensure_ascii : bool) (s : ustr) : ustr :=
  [34%N] ++ List.concat (List.map (escape_char ensure_ascii) s) ++ [34%N].

Definition indent_of (depth : nat) : ustr := List.repeat 32%N (2 * depth).

Definition dump_int (n : Z) : ustr := U.of_string (pretty n).

Fixpoint dump (ensure_ascii : bool) (depth : nat) (v : Json.value) : ustr :=
  match v with
  | Json.Null => U.of_string "null"
  | Json.Bool true => U.of_string "true"
  | Json.Bool false => U.of_string "false"
  | Json.Int n => dump_int n
  | Json.Float repr => repr
  | Json.Str s => dump_string ensure_ascii s
  | Json.List [] => U.of_string "[]"
  | Json.List items =>
      [91%N] ++ NL
      ++ U.join ([44%N] ++ NL)
           (List.map (fun x => indent_of (S depth) ++ dump ensure_ascii (S depth) x) items)
      ++ NL ++ indent_of depth ++ [93%N]
  | Json.Dict [] => U.of_string "{}"
  | Json.Dict items =>
      [123%N] ++ NL
      ++ U.join ([44%N] ++ NL)
           (List.map (fun kv => indent_of (S depth) ++ dump_string ensure_ascii (fst kv)
                                ++ [58; 32]%N ++ dump ensure_ascii (S depth) (snd kv)) items)
      ++ NL ++ indent_of depth ++ [125%N]
  end.

Definition dumps (v : Json.value) (ensure_ascii : bool) : ustr := dump ensure_ascii 0 v.

(** [json.loads(text)]: null, booleans, integers, strings, arrays and
    objects; a number with a fraction or an exponent is kept as written. *)
Definition ws (c : N) : bool := ((c =? 32) || (c =? 9) || (c =? 10) || (c =? 13))%N.

Fixpoint skip_ws (l : ustr) : ustr :=
  match l with
  | c :: r => if ws c then skip_ws r else l
  | [] => []
  end.

Definition is_digit (c : N) : bool := ((48 <=? c) && (c <=? 57))%N.

Definition hex_value (c : N) : option N :=
  if is_digit c then Some (c - 48)%N
  else if ((97 <=? c) && (c <=? 102))%N then Some (c - 87)%N
  else if ((65 <=? c) && (c <=? 70))%N then Some (c - 55)%N
  else None.

Definition hex4 (l : ustr) : option (N * ustr) :=
  match l with
  | a :: b :: c :: d :: r =>
      match hex_value a, hex_value b, hex_value c, hex_value d with
      | Some a, Some b, Some c, Some d => Some (a * 4096 + b * 256 + c * 16 + d, r)%N
      | _, _, _, _ => None
      end
  | _ => None
  end.

(** The characters of a string literal after its opening quote. *)
Fixpoint read_string (fuel : nat) (l : ustr) (acc : ustr) : option (ustr * ustr) :=
  match fuel with
  | O => None
  | S fuel' =>
      match l with
      | [] => None
      | c :: r =>
          if (c =? 34)%N then Some (List.rev acc, r)
          else if (c <? 32)%N then None
          else if (c =? 92)%N then
            match r with
            | e :: r' =>
                if (e =? 117)%N then
                  match hex4 r' with
                  | Some (hi, r'') =>
                      if ((55296 <=? hi) && (hi <=? 56319))%N then
                        match r'' with
                        | 92%N :: 117%N :: r3 =>
                            match hex4 r3 with
                            | Some (lo, r4) =>
                                if ((56320 <=? lo) && (lo <=? 57343))%N then
                                  read_string fuel' r4
                                    ((65536 + (hi - 55296) * 1024 + (lo - 56320))%N :: acc)
                                else read_string fuel' r'' (hi :: acc)
                            | None => read_string fuel' r'' (hi :: acc)
                            end
                        | _ => read_string fuel' r'' (hi :: acc)
                        end
                      else read_string fuel' r'' (hi :: acc)
                  | None => None
                  end
                else
                  match
                    (if (e =? 34)%N then Some 34 else if (e =? 92)%N then Some 92
                     else if (e =? 47)%N then Some 47 else if (e =? 98)%N then Some 8
                     else if (e =? 102)%N then Some 12 else if (e =? 110)%N then Some 10
                     else if (e =? 114)%N then Some 13 else if (e =? 116)%N then Some 9
                     else None)%N
                  with
                  | Some x => read_string fuel' r' (x :: acc)
                  | None => None
                  end
            | [] => None
            end
          else read_string fuel' r (c :: acc)
      end
  end.

Fixpoint span_digits (l : ustr) : ustr * ustr :=
  match l with
  | c :: r => if is_digit c then let '(d, r') := span_digits r in (c :: d, r') else ([], l)
  | [] => ([], [])
  end.

Definition digits_value (d : ustr) : Z :=
  List.fold_left (fun acc c => 10 * acc + Z.of_N (c - 48)) d 0.

(** A number: [-]? int frac? exp? *)
Definition read_number (l : ustr) : option (Json.value * ustr) :=
  let '(neg, l1) := match l with 45%N :: r => (true, r) | _ => (false, l) end in
  let '(ip, l2) := span_digits l1 in
  match ip with
  | [] => None
  | d0 :: ds =>
      if (d0 =? 48)%N && nonempty ds then
        (* a leading zero ends the integer part *)
        Some (Json.Int 0, ds ++ l2)
      else
        let '(frac, l3) :=
          match l2 with
          | 46%N :: r =>
              let '(fd, r') := span_digits r in
              if nonempty fd then (46%N :: fd, r') else ([], l2)
          | _ => ([], l2)
          end in
        let '(ex, l4) :=
          match l3 with
          | e :: r =>
              if ((e =? 101) || (e =? 69))%N then
                let '(sg, r1) :=
                  match r with
                  | s :: r1 => if ((s =? 43) || (s =? 45))%N then ([s], r1) else ([], r)
                  | [] => ([], r)
                  end in
                let '(ed, r2) := span_digits r1 in
                if nonempty ed then (e :: sg ++ ed, r2) else ([], l3)
              else ([], l3)
          | [] => ([], l3)
          end in
        if nonempty frac || nonempty ex then
          Some (Json.Float ((if neg then [45%N] else []) ++ ip ++ frac ++ ex), l4)
        else Some (Json.Int (if neg then - digits_value ip else digits_value ip), l4)
  end.

Fixpoint dict_put (d : list (ustr * Json.value)) (k : ustr) (v : Json.value)
  : list (ustr * Json.value) :=
  match d with
  | [] => [(k, v)]
  | (k', v') :: r =>
      if decide (k' = k) then (k', v) :: r else (k', v') :: dict_put r k v
  end.

Definition starts (l : ustr) (s : string) : option ustr :=
  let p := U.of_string s in
  if decide (List.firstn (List.length p) l = p) then Some (List.skipn (List.length p) l)
  else None.

Fixpoint read_value (fuel : nat) (l : ustr) : option (Json.value * ustr) :=
  match fuel with
  | O => None
  | S fuel' =>
      let read_items :=
        fix read_items (n : nat) (l : ustr) (acc : list Json.value)
          : option (Json.value * ustr) :=
          match n with
          | O => None
          | S n' =>
              match read_value fuel' l with
              | Some (v, r) =>
                  match skip_ws r with
                  | 44%N :: r' => read_items n' r' (v :: acc)
                  | 93%N :: r' => Some (Json.List (List.rev (v :: acc)), r')
                  | _ => None
                  end
              | None => None
              end
          end in
      let read_members :=
        fix read_members (n : nat) (l : ustr) (acc : list (ustr * Json.value))
          : option (Json.value * ustr) :=
          match n with
          | O => None
          | S n' =>
              match skip_ws l with
              | 34%N :: r =>
                  match read_string fuel' r [] with
                  | Some (k, r1) =>
                      match skip_ws r1 with
                      | 58%N :: r2 =>
                          match read_value fuel' r2 with
                          | Some (v, r3) =>
                              match skip_ws r3 with
                              | 44%N :: r4 => read_members n' r4 (dict_put acc k v)
                              | 125%N :: r4 => Some (Json.Dict (dict_put acc k v), r4)
                              | _ => None
                              end
                          | None => None
                          end
                      | _ => None
                      end
                  | None => None
                  end
              | _ => None
              end
          end in
      match skip_ws l with
      | [] => None
      | c :: r =>
          if (c =? 34)%N then
            match read_string fuel' r [] with
            | Some (s, r') => Some (Json.Str s, r')
            | None => None
            end
          else if (c =? 91)%N then
            match skip_ws r with
            | 93%N :: r' => Some (Json.List [], r')
            | _ => read_items fuel' r []
            end
          else if (c =? 123)%N then
            match skip_ws r with
            | 125%N :: r' => Some (Json.Dict [], r')
            | _ => read_members fuel' r []
            end
          else
            match starts (c :: r) "null", starts (c :: r) "true", starts (c :: r) "false" with
            | Some r', _, _ => Some (Json.Null, r')
            | _, Some r', _ => Some (Json.Bool true, r')
            | _, _, Some r' => Some (Json.Bool false, r')
            | _, _, _ => read_number (c :: r)
            end
      end
  end.

Definition loads (text : ustr) : res Json.value :=
  match read_value (S (List.length text)) text with
  | Some (v, r) =>
      match skip_ws r with
      | [] => Ok v
      | _ => Raise (JSONDecodeError "Extra data")
      end
  | None => Raise (JSONDecodeError "Expecting value")
  end.

(** The libraries of a host where [bs4] is not installed. *)
Definition libraries : Libs :=
  {| lookup_codec := codec;
     json_loads := loads;
     json_dumps := dumps;
     soup := None |}.

(** [print] to a [sys.stdout] that writes UTF-8: a surrogate code point
    cannot be written.  The error names the first one and its position, or
    the positions of the run of surrogates that starts there. *)
Definition is_surrogate (c : N) : bool := ((55296 <=? c) && (c <=? 57343))%N.

Fixpoint surrogate_run (l : ustr) : nat :=
  match l with
  | c :: r => if is_surrogate c then S (surrogate_run r) else O
  | [] => O
  end.

Fixpoint first_surrogate (l : ustr) (pos : nat) : option (nat * N * nat) :=
  match l with
  | [] => None
  | c :: r =>
      if is_surrogate c then Some (pos, c, surrogate_run r) else first_surrogate r (S pos)
  end.

Definition hex4_text (c : N) : string :=
  String (ascii_of_N (hex_digit (c / 4096 mod 16)))
    (String (ascii_of_N (hex_digit (c / 256 mod 16)))
       (String (ascii_of_N (hex_digit (c / 16 mod 16)))
          (String (ascii_of_N (hex_digit (c mod 16))) EmptyString))).

Definition utf8_print (t : ustr) : res unit :=
  match first_surrogate t 0 with
  | None => Ok tt
  | Some (pos, c, more) =>
      Raise (UnicodeEncodeError
               (match more with
                | O =>
                    "'utf-8' codec can't encode character '\u" +:+ hex4_text c
                    +:+ "' in position " +:+ pretty (Z.of_nat pos)
                | S _ =>
                    "'utf-8' codec can't encode characters in position "
                    +:+ pretty (Z.of_nat pos) +:+ "-" +:+ pretty (Z.of_nat (pos + more))
                end +:+ ": surrogates not allowed"))
  end.

(** A platform over a table of responses, where every file can be opened and
    the output is written as UTF-8. *)
Definition world_of (table : list (string * res Response)) : World :=
  {| net := net_of table; libs := libraries; open_wb := fun _ => Ok tt;
     print_stdout := utf8_print |}.

End Ref.

(** ** Notions used in the statements *)

(** The chunks a response streams: what the successive reads return up to
    the end of the body, which an empty chunk marks, or up to a read that
    raises. *)
Fixpoint streamed_chunks (reads : list (res bytes)) : list bytes :=
  match reads with
  | Ok (x :: c) :: rest => (x :: c) :: streamed_chunks rest
  | _ => []
  end.

(** The cumulative byte count of the stream. *)
Definition streamed_size (reads : list (res bytes)) : Z :=
  blen (List.concat (streamed_chunks reads)).

(** The request [fetch_url] sends. *)
Definition request_of (url method : string) (headers : Dict.t string) (data : option bytes)
    (timeout : Z) (user_agent : string) : Request :=
  {| req_url := url; req_data := data;
     req_headers := Dict.update (default_headers user_agent) headers;
     req_method := method; req_timeout := timeout |}.

(** The [Content-Encoding] of a response as [fetch_url] reads it. *)
Definition response_encoding (response : Response) : string :=
  Str.lower (message_get (resp_headers response) "Content-Encoding" "").

(** The number of bytes a text takes when it is written in UTF-8, as a
    terminal or a pipe with that encoding receives it. *)
Definition utf8_width (c : N) : Z :=
  if (c <? 128)%N then 1 else if (c <? 2048)%N then 2 else if (c <? 65536)%N then 3 else 4.

Definition utf8_size (t : ustr) : Z :=
  List.fold_right (fun c acc => utf8_width c + acc) 0 t.

(** [t.endswith(suffix)] on text. *)
Definition u_endswith (t suffix : ustr) : bool :=
  if decide (List.skipn (List.length t - List.length suffix) t = suffix) then true else false.

(** What is measured of a rendering: its length in code points, its size in
    UTF-8 bytes, and whether it ends with the truncation marker. *)
Definition render_stats (r : res ustr) : option (Z * Z * bool) :=
  match r with
  | Ok out => Some (U.len out, utf8_size out, u_endswith out truncation_marker)
  | Raise _ => None
  end.

(** ** Concrete inputs *)

(** A body that arrives as 8, 8 and 4 bytes. *)
Definition three_chunks : Response :=
  {| resp_url := "http://example.test/big"; resp_status := 200;
     resp_headers := [("Content-Type", "text/plain")];
     resp_reads :=
       [ Ok (Inflate.fromhex "0001020304050607"); Ok (Inflate.fromhex "08090a0b0c0d0e0f");
         Ok (Inflate.fromhex "10111213") ] |}.

(** A gzip response of 29 bytes that inflates to 1000 bytes: what
    [gzip.compress(b"a" * 1000, mtime=0)] gives. *)
Definition gzip_bomb : Response :=
  {| resp_url := "http://example.test/z"; resp_status := 200;
     resp_headers := [("Content-Type", "text/plain"); ("Content-Encoding", "gzip")];
     resp_reads :=
       [ Ok (Inflate.fromhex "1f8b08000000000002034b4c1c05a360140c77000003da389ae8030000") ] |}.

Definition plain_page : Response :=
  {| resp_url := "http://example.test/a"; resp_status := 200;
     resp_headers := [("Content-Type", "text/plain; charset=utf-8")];
     resp_reads := [ Ok (encode_ascii "first page") ] |}.

Definition second_page : Response :=
  {| resp_url := "http://example.test/b"; resp_status := 200;
     resp_headers := [("Content-Type", "text/plain; charset=utf-8")];
     resp_reads := [ Ok (encode_ascii "second page") ] |}.

(** A response that announces [deflate] and carries two bytes that are
    neither a zlib stream nor a raw DEFLATE stream. *)
Definition broken_deflate : Response :=
  {| resp_url := "http://example.test/d"; resp_status := 200;
     resp_headers := [("Content-Type", "text/plain"); ("Content-Encoding", "deflate")];
     resp_reads := [ Ok (Inflate.fromhex "ffff") ] |}.

(** A page that declares Python's [undefined] codec. *)
Definition undefined_page : FetchResult :=
  {| url := "http://example.test/u"; status := 200;
     headers := [("Content-Type", "text/plain; charset=undefined")];
     content := encode_ascii "x"; content_type := "text/plain"; charset := "undefined" |}.

(** A plain text page of [n] times the letter e-acute, served as UTF-8. *)
Definition accented_page (n : nat) : FetchResult :=
  {| url := "http://example.test/e"; status := 200;
     headers := [("Content-Type", "text/plain; charset=utf-8")];
     content := List.concat (List.repeat (Inflate.fromhex "c3a9") n);
     content_type := "text/plain"; charset := "utf-8" |}.

(** A small web: three pages, a broken one, and a path that is not there. *)
Definition example_web : World :=
  Ref.world_of
    [ ("http://example.test/a", Ok plain_page);
      ("http://example.test/b", Ok second_page);
      ("http://example.test/d", Ok broken_deflate);
      ("http://example.test/z", Ok gzip_bomb);
      ("http://example.test/missing", Raise (HTTPError 404 "Not Found")) ].

(** [web-fetch URL... [--output PATH]] with every other option at its
    default. *)
Definition command_line (urls : list string) (output : option string) : Args :=
  {| arg_urls := urls; arg_headers := false; arg_raw := false; arg_json := false;
     arg_method := "GET"; arg_data := None; arg_custom_headers := None;
     arg_timeout := TIMEOUT_DEFAULT; arg_max_size := pretty MAX_SIZE_DEFAULT;
     arg_output := output; arg_user_agent := USER_AGENT_DEFAULT |}.

(** What fetching and rendering one URL comes to when nothing is saved to a
    file. *)
Definition rendered (W : World) (a : Args) (headers : Dict.t string) (data : option bytes)
    (max_size : Z) (url : string) : res ustr :=
  do result <- fetch_url (net W) url (arg_method a) headers data (arg_timeout a) max_size
                 (arg_user_agent a);
  format_output (libs W) result (arg_headers a) (arg_raw a) (arg_json a).

(** The outcomes of a batch: the renderings of the URLs that succeeded, and
    the error lines of those that failed, in input order. *)
Fixpoint successes (outcomes : list (string * res ustr)) : list ustr :=
  match outcomes with
  | [] => []
  | (_, Ok t) :: rest => t :: successes rest
  | (_, Raise _) :: rest => successes rest
  end.

Fixpoint failures (outcomes : list (string * res ustr)) : list string :=
  match outcomes with
  | [] => []
  | (_, Ok _) :: rest => failures rest
  | (u, Raise e) :: rest => error_line u e :: failures rest
  end.

(** The exit status the specification gives a batch. *)
Definition expected_status (n_succeeded n_failed : nat) : Z :=
  match n_failed, n_succeeded with
  | O, _ => 0
  | S _, O => 1
  | S _, S _ => 2
  end.

(** The batch with one more rendering, and with one more error line. *)
Definition with_result (b : Batch) (t : ustr) : Batch :=
  {| results := results b ++ [t]; errors := errors b; printed := printed b; files := files b |}.

Definition with_error (b : Batch) (line : string) : Batch :=
  {| results := results b; errors := errors b ++ [line]; printed := printed b;
     files := files b |}.

(** Each URL of a batch with what fetching and rendering it comes to. *)
Definition outcomes (W : World) (a : Args) (headers : Dict.t string) (data : option bytes)
    (max_size : Z) (urls : list string) : list (string * res ustr) :=
  List.map (fun u => (u, rendered W a headers data max_size u)) urls.

(** Every failure in the batch is of a class the orchestrator catches. *)
Definition all_caught (W : World) (a : Args) (headers : Dict.t string) (data : option bytes)
    (max_size : Z) (urls : list string) : Prop :=
  forall u e, In u urls -> rendered W a headers data max_size u = Raise e ->
              caught_by_batch e = true.

(** ** A compressor for the reference libraries

    DEFLATE with stored blocks only, which is what compression level 0
    writes, and its zlib and gzip framings. *)

Module Store.

Definition byte_at (n : Z) (i : Z) : byte := Inflate.byte_of_Z (n / 256 ^ i mod 256).

Definition le16 (n : Z) : bytes := [byte_at n 0; byte_at n 1].
Definition le32 (n : Z) : bytes := [byte_at n 0; byte_at n 1; byte_at n 2; byte_at n 3].
Definition be32 (n : Z) : bytes := [byte_at n 3; byte_at n 2; byte_at n 1; byte_at n 0].

(** The header of a gzip file without optional fields. *)
Definition gzip_header : bytes := Inflate.fromhex "1f8b08000000000000ff".

(** The bits left of a header byte once its set bits are read. *)
Definition zero_bits (n : nat) : list bool := List.repeat false n.

(** One stored block: the header byte with BFINAL and BTYPE = 00, LEN, its
    one's complement NLEN, and the bytes. *)
Definition block (final : bool) (chunk : bytes) : bytes :=
  Inflate.byte_of_Z (Z.b2z final) :: le16 (blen chunk) ++ le16 (65535 - blen chunk) ++ chunk.

Fixpoint blocks_of (chunks : list bytes) : bytes :=
  match chunks with
  | [] => block true []
  | [c] => block true c
  | c :: rest => block false c ++ blocks_of rest
  end.

(** The most bytes a stored block holds. *)
Definition max_block : nat := Z.to_nat 65535.

(** The input cut into pieces of at most [max_block] bytes. *)
Fixpoint chunks_of (fuel : nat) (l : bytes) : list bytes :=
  match fuel, l with
  | S fuel', _ :: _ => List.firstn max_block l :: chunks_of fuel' (List.skipn max_block l)
  | _, _ => []
  end.

(** A raw DEFLATE stream of [b]. *)
Definition deflate (b : bytes) : bytes := blocks_of (chunks_of (List.length b) b).

(** A zlib stream of [b]: header [78 01], the raw stream, Adler-32. *)
Definition zlib_compress (b : bytes) : bytes :=
  Inflate.fromhex "7801" ++ deflate b ++ be32 (Inflate.adler32 b).

(** A gzip file of [b]: a ten-byte header without optional fields, the raw
    stream, CRC-32 and the length modulo 2^32. *)
Definition gzip_compress (b : bytes) : bytes :=
  gzip_header ++ deflate b ++ le32 (Inflate.crc32 b) ++ le32 (blen b mod 2 ^ 32).

End Store.

(** ** Notions used in the further statements *)

(** What [int(x)] raises for an infinite float. *)
Definition float_infinity_error : exn :=
  OverflowError "cannot convert float infinity to integer".

(** The first [--header] argument that has no colon, which is the one [main]
    reports. *)
Definition first_invalid_header (l : list string) : option string :=
  List.find (fun header => negb (Str.contains header ":")) l.

(** The line [main] prints when it has saved a result. *)
Definition saved_line (output_file : string) : ustr :=
  U.of_string ("Saved to: " +:+ output_file).

(** A response with no body: the first read returns [b""]. *)
Definition empty_page : Response :=
  {| resp_url := "http://example.test/none"; resp_status := 200;
     resp_headers := []; resp_reads := [ Ok [] ] |}.




(** A header value written from its parts: the part before the first
    semicolon and the parameters after it, each after a semicolon. *)
Fixpoint with_params (first : string) (params : list string) : string :=
  match params with
  | [] => first
  | p :: rest => first +:+ ";" +:+ with_params p rest
  end.

(** A JSON page whose body is the string with the escape of a lone
    surrogate, U+D800, and a web that has it after a plain page. *)
Definition surrogate_page : Response :=
  {| resp_url := "http://example.test/s"; resp_status := 200;
     resp_headers := [("Content-Type", "application/json")];
     resp_reads := [ Ok (Inflate.fromhex "225c756438303022") ] |}.

Definition surrogate_web : World :=
  Ref.world_of
    [ ("http://example.test/a", Ok plain_page);
      ("http://example.test/s", Ok surrogate_page) ].


(** * Facts about the [str] model *)

Section StrFacts.

Lemma app_String c (s t : string) : String c s +:+ t = String c (s +:+ t).
Proof. reflexivity. Qed.

Lemma app_empty_l (t : string) : "" +:+ t = t.
Proof. reflexivity. Qed.

Lemma app_empty_r (s : string) : s +:+ "" = s.
Proof. induction s as [|c s IH]; [reflexivity|]. rewrite app_String, IH. reflexivity. Qed.

Lemma app_assoc_s (a b c : string) : (a +:+ b) +:+ c = a +:+ (b +:+ c).
Proof. induction a as [|x a IH]; [reflexivity|]. rewrite !app_String, IH. reflexivity. Qed.


Lemma rev_app_spec (a acc : string) : String.rev_app a acc = String.rev a +:+ acc.
Proof.
  unfold String.rev. revert acc.
  induction a as [|x a IH]; intros acc; simpl; [reflexivity|].
  rewrite (IH (String x acc)), (IH (String x "")), app_assoc_s. reflexivity.
Qed.

Lemma rev_String c (s : string) : String.rev (String c s) = String.rev s +:+ String c "".
Proof. unfold String.rev at 1. simpl. apply rev_app_spec. Qed.

Lemma rev_app_distr_s (a b : string) : String.rev (a +:+ b) = String.rev b +:+ String.rev a.
Proof.
  induction a as [|x a IH].
  - rewrite app_empty_l. symmetry. apply app_empty_r.
  - rewrite app_String, !rev_String, IH, app_assoc_s. reflexivity.
Qed.

Lemma rev_involutive_s (s : string) : String.rev (String.rev s) = s.
Proof.
  induction s as [|x s IH]; [reflexivity|].
  rewrite rev_String, rev_app_distr_s, IH. reflexivity.
Qed.



Lemma map_app_s f (a b : string) : Str.map f (a +:+ b) = Str.map f a +:+ Str.map f b.
Proof. induction a as [|x a IH]; [reflexivity|]. rewrite app_String. simpl. rewrite IH. reflexivity. Qed.

(** Stripping is the identity on a string whose two ends are not in the set. *)
Lemma lstrip_of_head p c s : p c = false -> Str.lstrip_of p (String c s) = String c s.
Proof. intros H. simpl. rewrite H. reflexivity. Qed.

Lemma strip_of_id p c s d r :
  p c = false -> p d = false -> String.rev (String c s) = String d r ->
  Str.strip_of p (String c s) = String c s.
Proof.
  intros Hc Hd Hr. unfold Str.strip_of, Str.rstrip_of.
  rewrite (lstrip_of_head _ _ _ Hc), Hr, (lstrip_of_head _ _ _ Hd), <- Hr.
  apply rev_involutive_s.
Qed.

Lemma startswith_String b s a p :
  Str.startswith (String b s) (String a p) = if Ascii.eqb a b then Str.startswith s p else false.
Proof. reflexivity. Qed.

Lemma contains_String c r sub :
  Str.contains (String c r) sub = Str.startswith (String c r) sub || Str.contains r sub.
Proof. reflexivity. Qed.

End StrFacts.

(** * Facts about the numeric builtins *)

Section NumFacts.

Ltac ascii_cases c := destruct c as [[|] [|] [|] [|] [|] [|] [|] [|]].

Lemma isdigit_facts c :
  Str.isdigit c = true ->
  Str.isspace c = false /\ Num.c_isspace c = false /\ Str.upper_char c = c
  /\ Ascii.eqb c "_" = false /\ Ascii.eqb "_" c = false
  /\ (forall r : string, Num.read_sign (String c r) = (false, String c r))
  /\ (forall x, In x ["K"; "B"; "M"; "G"]%char -> Ascii.eqb x c = false).
Proof.
  ascii_cases c; intros H; try discriminate H;
    (repeat split; try reflexivity;
     intros x Hx; simpl in Hx;
     repeat (destruct Hx as [<- | Hx]; [reflexivity|]); destruct Hx).
Qed.

Lemma all_digits_app a b : all_digits (a +:+ b) = all_digits a && all_digits b.
Proof.
  induction a as [|c a IH]; [reflexivity|].
  rewrite app_String. simpl. rewrite IH, andb_assoc. reflexivity.
Qed.

Lemma all_digits_rev a : all_digits (String.rev a) = all_digits a.
Proof.
  induction a as [|c a IH]; [reflexivity|].
  rewrite rev_String, all_digits_app, IH. simpl. rewrite andb_true_r, andb_comm. reflexivity.
Qed.

(** A non-empty digit string ends with a digit. *)
Lemma digits_rev_head b :
  all_digits b = true -> b <> "" ->
  exists d r, String.rev b = String d r /\ Str.isdigit d = true.
Proof.
  intros Hb Hne. rewrite <- all_digits_rev in Hb.
  destruct (String.rev b) as [|d r] eqn:E.
  - exfalso. apply Hne. rewrite <- (rev_involutive_s b), E. reflexivity.
  - simpl in Hb. apply andb_true_iff in Hb as [Hd _]. eauto.
Qed.

Lemma upper_digits a : all_digits a = true -> Str.upper a = a.
Proof.
  induction a as [|c a IH]; [reflexivity|]. simpl.
  intros [Hc Ha]%andb_true_iff. unfold Str.upper in *. simpl.
  rewrite (IH Ha). destruct (isdigit_facts c Hc) as (_ & _ & -> & _). reflexivity.
Qed.



Lemma digit_run_app a rest acc n :
  all_digits a = true ->
  Num.digit_run (a +:+ rest) acc n false
  = Num.digit_run rest (decimal_fold a acc) (n + Str.len a) false.
Proof.
  revert acc n. induction a as [|c a IH]; intros acc n H.
  - rewrite app_empty_l. unfold Str.len. simpl. rewrite Z.add_0_r. reflexivity.
  - simpl in H. apply andb_true_iff in H as [Hc Ha].
    rewrite app_String. simpl. rewrite Hc, (IH _ _ Ha). f_equal.
    unfold Str.len. simpl String.length. lia.
Qed.


Lemma len_pos b : b <> "" -> 0 < Str.len b.
Proof. destruct b; [congruence|]. intros _. unfold Str.len. simpl. lia. Qed.










End NumFacts.

(** * The size parser *)

Section ParseSize.

(** No suffix of the table is the tail of another, so a string matches at most
    one entry and the order of the table does not matter. *)
Lemma parse_size_loop_order (s : string) :
  parse_size_loop s multipliers = parse_size_loop s multipliers_longest_first.
Proof.
  unfold multipliers, multipliers_longest_first, parse_size_loop, Str.endswith.
  change (String.rev "K") with "K". change (String.rev "KB") with "BK".
  change (String.rev "M") with "M". change (String.rev "MB") with "BM".
  change (String.rev "G") with "G". change (String.rev "GB") with "BG".
  generalize (parse_size_try s "K" 1024) (parse_size_try s "KB" 1024)
    (parse_size_try s "M" (1024 * 1024)) (parse_size_try s "MB" (1024 * 1024))
    (parse_size_try s "G" (1024 * 1024 * 1024)) (parse_size_try s "GB" (1024 * 1024 * 1024)).
  intros t1 t2 t3 t4 t5 t6.
  destruct (String.rev s) as [|c1 [|c2 r]];
    rewrite ?startswith_String; try reflexivity;
    repeat match goal with
           | |- context [Ascii.eqb ?a ?b] =>
               destruct (Ascii.eqb_spec a b); subst; try discriminate
           end;
    try reflexivity.
Qed.






End ParseSize.

(** C6.  [parse_size] maps "1M" to 1048576, "500K" to 512000, "10MB" to
    10485760 and "123" to 123, and fails with the invalid-size-format error on
    "bogus"; on every input it agrees with the parser that tries the longer
    suffix of each pair first, so that a longer suffix is never mis-parsed by
    stripping a shorter one ("10MB" is scaled by 1024 * 1024). *)
Theorem parse_size_examples_and_suffix_order :
  parse_size "1M" = Ok 1048576
  /\ parse_size "500K" = Ok 512000
  /\ parse_size "10MB" = Ok (10 * (1024 * 1024))
  /\ parse_size "123" = Ok 123
  /\ parse_size "bogus" = Raise (invalid_size_format "BOGUS")
  /\ forall s : string, parse_size s = parse_size_longest_first s.
Proof.
  do 5 (split; [vm_compute; reflexivity|]).
  intros s. unfold parse_size, parse_size_longest_first.
  rewrite parse_size_loop_order. reflexivity.
Qed.





(** * The decompressor *)

Section Decompress.

Variable L : Zlib.lib.

Lemma decompress_gzip content :
  decompress_content L content "gzip" = Zlib.gzip_decompress L content.
Proof. reflexivity. Qed.

Lemma decompress_deflate_zlib content out :
  Zlib.zlib_decompress L content Zlib.MAX_WBITS = Ok out ->
  decompress_content L content "deflate" = Ok out.
Proof. intros H. unfold decompress_content. simpl. rewrite H. reflexivity. Qed.

(** The retry: a [zlib.error] from the zlib-wrapped attempt hands the same
    bytes to the raw inflater, whose outcome is the outcome of the call. *)
Lemma decompress_deflate_retry content msg :
  Zlib.zlib_decompress L content Zlib.MAX_WBITS = Raise (ZlibError msg) ->
  decompress_content L content "deflate"
  = Zlib.zlib_decompress L content (- Zlib.MAX_WBITS).
Proof. intros H. unfold decompress_content. simpl. rewrite H. reflexivity. Qed.

Lemma decompress_passthrough content encoding :
  encoding <> "gzip" -> encoding <> "deflate" ->
  decompress_content L content encoding = Ok content.
Proof.
  intros Hg Hd. unfold decompress_content.
  destruct (String.eqb_spec encoding "gzip"); [congruence|].
  destruct (String.eqb_spec encoding "deflate"); [congruence|]. reflexivity.
Qed.

End Decompress.


(** * The bounded read loop *)

Section ReadLoop.

Variable max_size : Z.

Lemma blen_app (a b : bytes) : blen (a ++ b) = blen a + blen b.
Proof. unfold blen. rewrite List.length_app. lia. Qed.

Lemma blen_nonneg (a : bytes) : 0 <= blen a.
Proof. unfold blen. lia. Qed.

(** A loop that ends without raising leaves at most [max_size] bytes in the
    buffer, as long as [total_size] counts the buffer. *)
Lemma read_loop_bound reads : forall buffer out,
  blen buffer <= max_size ->
  read_loop max_size reads (blen buffer) buffer = (out, None) ->
  blen out <= max_size.
Proof.
  induction reads as [|r rest IH]; intros buffer out Hb H; simpl in H.
  - injection H as <-. exact Hb.
  - destruct r as [chunk|e]; [|discriminate].
    destruct chunk as [|x chunk]; [injection H as <-; exact Hb|].
    destruct (max_size <? blen buffer + blen (x :: chunk)) eqn:E; [discriminate|].
    apply Z.ltb_ge in E. rewrite <- blen_app in H, E.
    apply (IH _ _ E H).
Qed.

(** The loop stops at the first chunk that takes the running total over the
    cap, with the buffer holding the chunks before it and nothing of it. *)
Lemma read_loop_exceeds reads : forall buffer,
  blen buffer <= max_size ->
  max_size < blen buffer + streamed_size reads ->
  exists pre c post,
    reads = List.map Ok pre ++ Ok c :: post
    /\ blen (buffer ++ List.concat pre) <= max_size
    /\ max_size < blen (buffer ++ List.concat pre) + blen c
    /\ read_loop max_size reads (blen buffer) buffer
       = (buffer ++ List.concat pre, Some (size_exceeded max_size)).
Proof.
  unfold streamed_size.
  induction reads as [|r rest IH]; intros buffer Hb H; simpl in H.
  - unfold blen in H at 2. simpl in H. lia.
  - destruct r as [chunk|e]; [|unfold blen in H at 2; simpl in H; lia].
    destruct chunk as [|x chunk]; [unfold blen in H at 2; simpl in H; lia|].
    simpl in H. change (x :: chunk ++ concat (streamed_chunks rest))
      with ((x :: chunk) ++ concat (streamed_chunks rest)) in H.
    rewrite blen_app in H.
    simpl read_loop.
    destruct (max_size <? blen buffer + blen (x :: chunk)) eqn:E.
    + apply Z.ltb_lt in E. exists [], (x :: chunk), rest.
      simpl. rewrite List.app_nil_r. auto.
    + pose proof E as E'. apply Z.ltb_ge in E'. rewrite <- blen_app in E'.
      destruct (IH (buffer ++ x :: chunk) E') as (pre & c & post & Hr & H1 & H2 & H3).
      { rewrite blen_app. lia. }
      exists ((x :: chunk) :: pre), c, post.
      assert (Heq : buffer ++ concat ((x :: chunk) :: pre)
                    = (buffer ++ x :: chunk) ++ concat pre).
      { simpl. rewrite <- List.app_assoc. reflexivity. }
      rewrite Heq. repeat split; auto.
      * simpl. rewrite Hr. reflexivity.
      * rewrite <- H3, blen_app. reflexivity.
Qed.

End ReadLoop.

(** * The fetcher *)

Section Fetch.

Variable W : Net.
Variables (url method : string) (headers : Dict.t string) (data : option bytes).
Variables (timeout max_size : Z) (user_agent : string).

Lemma fetch_url_unfold scheme :
  urlparse_scheme W url = Ok scheme ->
  scheme = "http" \/ scheme = "https" ->
  fetch_url W url method headers data timeout max_size user_agent
  = match fetch_body W (request_of url method headers data timeout user_agent) max_size with
    | Ok r => Ok r
    | Raise e => Raise (fetch_handlers url timeout e)
    end.
Proof.
  intros Hs Hok. unfold fetch_url. rewrite Hs. simpl.
  destruct Hok as [-> | ->]; reflexivity.
Qed.

(** A result comes only from an http or https URL that the transport
    answered. *)
Lemma fetch_url_ok_inv r :
  fetch_url W url method headers data timeout max_size user_agent = Ok r ->
  fetch_body W (request_of url method headers data timeout user_agent) max_size = Ok r.
Proof.
  unfold fetch_url. destruct (urlparse_scheme W url) as [scheme|e]; [|discriminate].
  simpl. destruct (negb _); [discriminate|].
  fold (request_of url method headers data timeout user_agent).
  destruct (fetch_body _ _ _); [trivial | discriminate].
Qed.

End Fetch.

(** C3, as amended.  For a cap [max_size] that is not negative: when the
    chunks a response streams add up to more than [max_size], the read loop
    stops at the first chunk [c] that takes the running total over the cap:
    what the buffer holds then is the chunks before [c], which are within the
    cap, and no byte of [c]; [fetch_url] raises the size-exceeded error and
    returns no result. *)
Theorem fetch_url_size_exceeded (W : Net) (url method : string) (headers : Dict.t string)
    (data : option bytes) (timeout max_size : Z) (user_agent scheme : string)
    (response : Response) :
  0 <= max_size ->
  urlparse_scheme W url = Ok scheme ->
  scheme = "http" \/ scheme = "https" ->
  urlopen W (request_of url method headers data timeout user_agent) = Ok response ->
  max_size < streamed_size (resp_reads response) ->
  (exists pre c post,
      resp_reads response = List.map Ok pre ++ Ok c :: post
      /\ blen (List.concat pre) <= max_size
      /\ max_size < blen (List.concat pre) + blen c
      /\ read_loop max_size (resp_reads response) 0 []
         = (List.concat pre, Some (size_exceeded max_size)))
  /\ fetch_url W url method headers data timeout max_size user_agent
     = Raise (size_exceeded max_size).
Proof.
  intros Hmax Hs Hok Hopen Hsize.
  destruct (read_loop_exceeds max_size (resp_reads response) [] Hmax Hsize)
    as (pre & c & post & Hr & H1 & H2 & H3).
  simpl in H1, H2, H3. change (blen []) with 0 in H3.
  split; [exists pre, c, post; auto|].
  rewrite (fetch_url_unfold W url method headers data timeout max_size user_agent scheme Hs Hok).
  unfold fetch_body. rewrite Hopen. simpl. unfold read_body. rewrite H3. reflexivity.
Qed.

Lemma fetch_url_size_exceeded_witness :
  read_loop 10 (resp_reads three_chunks) 0 []
  = (Inflate.fromhex "0001020304050607", Some (size_exceeded 10))
  /\ fetch_url (Ref.net_of [("http://example.test/big", Ok three_chunks)])
       "http://example.test/big" "GET" [] None 30 10 "web-fetch/1.0"
     = Raise (size_exceeded 10).
Proof.
  destruct (fetch_url_size_exceeded
              (Ref.net_of [("http://example.test/big", Ok three_chunks)])
              "http://example.test/big" "GET" [] None 30 10 "web-fetch/1.0" "http"
              three_chunks)
    as [(pre & c & post & Hr & _ & _ & Hloop) Hfetch];
    [lia | reflexivity | left; reflexivity | reflexivity | vm_compute; reflexivity |].
  split; [|exact Hfetch].
  vm_compute. reflexivity.
Defined.

(** C3, as stated, fails for a negative cap, which [parse_size] gives for
    "-1".  The body of no bytes is 0 bytes, more than the cap of -1; the loop
    leaves at the empty chunk without testing the cap, and [fetch_url] returns
    a result. *)
Lemma fetch_url_negative_cap :
  parse_size "-1" = Ok (- 1)
  /\ - 1 < streamed_size (resp_reads empty_page)
  /\ fetch_url (Ref.net_of [("http://example.test/none", Ok empty_page)])
       "http://example.test/none" "GET" [] None 30 (- 1) "web-fetch/1.0"
     = Ok {| url := "http://example.test/none"; status := 200; headers := [];
             content := []; content_type := "application/octet-stream";
             charset := "utf-8" |}.
Proof.
  split; [vm_compute; reflexivity|]. split; [reflexivity|]. vm_compute. reflexivity.
Qed.

(** C2, as amended.  For every result [r] of [fetch_url] under a cap
    [max_size], the body received from the transport is at most [max_size]
    bytes long; [content r] is that body when the response names no
    [Content-Encoding], and what [decompress_content] makes of it otherwise.
    So [content r] is within the cap whenever the encoding is neither
    "gzip" nor "deflate". *)
Theorem fetch_url_content_bound (W : Net) (url method : string) (headers : Dict.t string)
    (data : option bytes) (timeout max_size : Z) (user_agent : string) (r : FetchResult) :
  0 <= max_size ->
  fetch_url W url method headers data timeout max_size user_agent = Ok r ->
  exists response body,
    urlopen W (request_of url method headers data timeout user_agent) = Ok response
    /\ read_body max_size (resp_reads response) = Ok body
    /\ blen body <= max_size
    /\ (if String.eqb (response_encoding response) "" then content r = body
        else decompress_content (zlib W) body (response_encoding response) = Ok (content r))
    /\ (response_encoding response <> "gzip" -> response_encoding response <> "deflate" ->
        blen (content r) <= max_size).
Proof.
  intros Hmax H. apply fetch_url_ok_inv in H. unfold fetch_body in H.
  destruct (urlopen W _) as [response|e]; [|discriminate]. simpl in H.
  destruct (read_body max_size (resp_reads response)) as [body|e] eqn:Hbody; [|discriminate].
  simpl in H. fold (response_encoding response) in H.
  assert (Hlen : blen body <= max_size).
  { unfold read_body in Hbody.
    destruct (read_loop max_size (resp_reads response) 0 []) as [out [e|]] eqn:Hloop;
      [discriminate|]. injection Hbody as <-.
    apply (read_loop_bound max_size (resp_reads response) [] out Hmax Hloop). }
  exists response, body. split; [reflexivity|]. split; [exact Hbody|]. split; [exact Hlen|].
  destruct (String.eqb_spec (response_encoding response) "") as [He|He]; simpl in H.
  - injection H as <-. simpl. split; [reflexivity|]. intros _ _. exact Hlen.
  - destruct (decompress_content (zlib W) body (response_encoding response))
      as [out|e] eqn:Hd; [|discriminate].
    simpl in H. injection H as <-. simpl. split; [reflexivity|].
    intros Hg Hdef. rewrite (decompress_passthrough _ _ _ Hg Hdef) in Hd.
    injection Hd as <-. exact Hlen.
Qed.

(** C2, as stated, fails: the 29 streamed bytes pass the cap of 64 and the
    result holds the 1000 bytes they inflate to. *)
Lemma fetch_url_content_over_cap :
  exists r,
    fetch_url (Ref.net_of [("http://example.test/z", Ok gzip_bomb)])
      "http://example.test/z" "GET" [] None 30 64 "web-fetch/1.0" = Ok r
    /\ streamed_size (resp_reads gzip_bomb) = 29
    /\ blen (content r) = 1000
    /\ 64 < blen (content r).
Proof.
  eexists. split; [vm_compute; reflexivity|].
  split; [vm_compute; reflexivity|]. split; vm_compute; reflexivity.
Qed.

Lemma fetch_url_content_bound_witness :
  exists r,
    fetch_url (Ref.net_of [("http://example.test/a", Ok plain_page)])
      "http://example.test/a" "GET" [] None 30 64 "web-fetch/1.0" = Ok r
    /\ blen (content r) <= 64.
Proof.
  eexists. split; [vm_compute; reflexivity|].
  destruct (fetch_url_content_bound
              (Ref.net_of [("http://example.test/a", Ok plain_page)])
              "http://example.test/a" "GET" [] None 30 64 "web-fetch/1.0" _
              ltac:(lia) eq_refl)
    as (response & body & Hopen & _ & _ & _ & Hbound).
  injection Hopen as <-. apply Hbound; vm_compute; discriminate.
Defined.


(** * The text decoder *)

Section Decode.

Variable L : Libs.

(** The chain, case by case on the first attempt. *)
Lemma decode_text_cases content charset :
  decode_text L content charset
  = match bytes_decode L content charset with
    | Ok text => Ok text
    | Raise e =>
        if is_decode_or_lookup_error e then Ok (Codec.utf8_replace content) else Raise e
    end.
Proof. unfold decode_text, try_except. destruct (bytes_decode L content charset); reflexivity. Qed.

(** A name the registry does not know falls back to UTF-8. *)
Lemma decode_text_unknown_charset content charset :
  lookup_codec L charset = None ->
  decode_text L content charset = Ok (Codec.utf8_replace content).
Proof. intros H. rewrite decode_text_cases. unfold bytes_decode. rewrite H. reflexivity. Qed.

(** An error leaves the chain only if the declared codec raised it and it is
    neither a decode error nor a lookup error. *)
Lemma decode_text_raises content charset e :
  decode_text L content charset = Raise e ->
  bytes_decode L content charset = Raise e /\ is_decode_or_lookup_error e = false.
Proof.
  rewrite decode_text_cases. destruct (bytes_decode L content charset) as [t|e']; [discriminate|].
  destruct (is_decode_or_lookup_error e') eqn:E; [discriminate|].
  intros [= <-]. auto.
Qed.

End Decode.

(** For every byte string and every declared charset whose codec either
    decodes the bytes or fails with [UnicodeDecodeError] or [LookupError] (an
    unknown name), the chain ends with a text: the one the declared charset
    gave, or else the UTF-8 reading with replacement. *)
Lemma decode_text_total (L : Libs) (content : bytes) (charset : string) :
  (forall e, bytes_decode L content charset = Raise e -> is_decode_or_lookup_error e = true) ->
  exists text,
    decode_text L content charset = Ok text
    /\ (bytes_decode L content charset = Ok text \/ text = Codec.utf8_replace content).
Proof.
  intros H. rewrite decode_text_cases.
  destruct (bytes_decode L content charset) as [t|e].
  - exists t. auto.
  - rewrite (H e eq_refl). eauto.
Qed.

(** The byte [0xff] declared as UTF-8: the strict attempt fails and the
    fallback gives U+FFFD. *)
Lemma decode_text_total_witness :
  decode_text Ref.libraries (Inflate.fromhex "ff") "utf-8" = Ok [Codec.REPLACEMENT].
Proof.
  destruct (decode_text_total Ref.libraries (Inflate.fromhex "ff") "utf-8") as (text & Ht & Hc).
  - intros e H. vm_compute in H. injection H as <-. reflexivity.
  - rewrite Ht. destruct Hc as [Hc | ->]; [vm_compute in Hc; discriminate Hc | reflexivity].
Defined.

(** C8 at its failing input.  The first [except] clause of the chain names
    [UnicodeDecodeError] and [LookupError] only, so an exception of any other
    class that the declared codec raises leaves the chain and the renderer,
    and the fallbacks, which cannot fail, are not tried.  The page declares
    Python's [undefined] codec, whose [UnicodeError] is neither of the two:
    [format_output] raises it, although the UTF-8 fallback reads the body, the
    letter x, without any replacement. *)
Theorem decode_text_propagates :
  (forall (L : Libs) (content : bytes) (charset : string) (e : exn),
      bytes_decode L content charset = Raise e ->
      is_decode_or_lookup_error e = false ->
      decode_text L content charset = Raise e)
  /\ bytes_decode Ref.libraries (content undefined_page) (charset undefined_page)
     = Raise (UnicodeError
                "decoding with 'undefined' codec failed (UnicodeError: undefined encoding)")
  /\ decode_text Ref.libraries (content undefined_page) (charset undefined_page)
     = Raise (UnicodeError
                "decoding with 'undefined' codec failed (UnicodeError: undefined encoding)")
  /\ format_output Ref.libraries undefined_page false false false
     = Raise (UnicodeError
                "decoding with 'undefined' codec failed (UnicodeError: undefined encoding)")
  /\ Codec.utf8_replace (content undefined_page) = U.of_string "x".
Proof.
  split.
  - intros L content charset e Hb He. rewrite decode_text_cases, Hb, He. reflexivity.
  - split; [vm_compute; reflexivity|]. split; [vm_compute; reflexivity|].
    split; vm_compute; reflexivity.
Qed.

(** * The renderer *)

Section Render.

Variable L : Libs.

Lemma U_len_firstn (n : nat) (t : ustr) :
  Z.of_nat n <= U.len t -> U.len (List.firstn n t) = Z.of_nat n.
Proof. unfold U.len. intros H. rewrite List.length_firstn. lia. Qed.

(** Above the cap the text is cut to its first [OUTPUT_TRUNCATE_SIZE] code
    points and the marker follows; at or under the cap nothing changes. *)
Lemma truncate_output_over (t : ustr) :
  OUTPUT_TRUNCATE_SIZE < U.len t ->
  truncate_output t = List.firstn (Z.to_nat OUTPUT_TRUNCATE_SIZE) t ++ truncation_marker
  /\ U.len (List.firstn (Z.to_nat OUTPUT_TRUNCATE_SIZE) t) = OUTPUT_TRUNCATE_SIZE.
Proof.
  intros H. unfold truncate_output.
  destruct (OUTPUT_TRUNCATE_SIZE <? U.len t) eqn:E; [|apply Z.ltb_ge in E; lia].
  split; [reflexivity|]. rewrite U_len_firstn; unfold OUTPUT_TRUNCATE_SIZE in *; lia.
Qed.

Lemma truncate_output_within (t : ustr) :
  U.len t <= OUTPUT_TRUNCATE_SIZE -> truncate_output t = t.
Proof.
  intros H. unfold truncate_output.
  destruct (OUTPUT_TRUNCATE_SIZE <? U.len t) eqn:E; [apply Z.ltb_lt in E; lia | reflexivity].
Qed.

Lemma truncation_marker_text :
  truncation_marker = NL ++ NL ++ U.of_string "... (truncated, showing first 51200 bytes)".
Proof. vm_compute. reflexivity. Qed.

(** Text mode, text-like content: the joined parts go through the cut. *)
Lemma format_output_text_mode (r : FetchResult) (show_headers raw : bool) text body :
  is_text_type (content_type r) = true ->
  decode_text L (content r) (charset r) = Ok text ->
  text_body L r raw text = Ok body ->
  format_output L r show_headers raw false
  = Ok (truncate_output (U.join NL (text_head r show_headers ++ [[]] ++ body))).
Proof.
  intros Ht Hd Hb. unfold format_output. rewrite Ht, Hd. simpl. rewrite Hb. reflexivity.
Qed.

(** JSON mode, text-like content: the output is the serialization of the
    whole payload; the cut is not on this path. *)
Lemma format_output_json_mode (r : FetchResult) (show_headers raw : bool) text payload :
  is_text_type (content_type r) = true ->
  decode_text L (content r) (charset r) = Ok text ->
  json_payload L r show_headers raw text = Ok payload ->
  format_output L r show_headers raw true = Ok (json_dumps L payload false).
Proof.
  intros Ht Hd Hp. unfold format_output. rewrite Ht, Hd. simpl. rewrite Hp. reflexivity.
Qed.

(** In JSON mode a plain text body is carried whole in the payload, whatever
    its length. *)
Lemma json_payload_carries_text (r : FetchResult) (show_headers raw : bool) text :
  content_type r = "text/plain" ->
  exists base,
    json_payload L r show_headers raw text
    = Ok (Json.Dict (base ++ [(jkey "text", Json.Str text)])).
Proof. intros H. unfold json_payload. rewrite H. eexists. reflexivity. Qed.

(** On text made of ASCII only, code points and UTF-8 bytes count the same. *)
Lemma utf8_size_ascii (t : ustr) :
  List.Forall (fun c => (c < 128)%N) t -> utf8_size t = U.len t.
Proof.
  unfold U.len. induction 1 as [|c t Hc _ IH]; [reflexivity|].
  simpl utf8_size. rewrite IH. unfold utf8_width.
  destruct (N.ltb_spec c 128); [|lia]. simpl List.length. lia.
Qed.

End Render.

(** C9 at its failing inputs.  The cap is applied to [len(result_text)],
    which counts code points.  A text-mode render of 30000 accented letters is
    60083 bytes of output, above the cap of 51200, and is returned whole with no
    marker; a render of 60000 of them is cut to 51200 code points, which are
    102316 bytes, under a marker of 44 characters that says 51200 bytes.  In
    JSON mode the same page is serialized whole. *)
Theorem format_output_cap_counts_code_points :
  render_stats (format_output Ref.libraries (accented_page (Z.to_nat 30000)) false false false)
  = Some (30083, 60083, false)
  /\ OUTPUT_TRUNCATE_SIZE < 60083
  /\ render_stats (format_output Ref.libraries (accented_page (Z.to_nat 60000)) false false false)
     = Some (51200 + 44, 102316 + 44, true)
  /\ render_stats (format_output Ref.libraries (accented_page (Z.to_nat 60000)) false false true)
     = Some (60117, 120117, false).
Proof.
  split; [vm_compute; reflexivity|]. split; [reflexivity|].
  split; vm_compute; reflexivity.
Qed.


(** * The batch orchestrator *)

Section Batch.

Variable W : World.
Variable a : Args.
Variables (hdrs : Dict.t string) (data : option bytes) (max_size : Z).

(** One URL when nothing is saved: its rendering is appended, or its
    exception comes out with the batch untouched. *)
Lemma fetch_one_render b u :
  truthy_string (arg_output a) = None ->
  fetch_one W a hdrs data max_size b u
  = match rendered W a hdrs data max_size u with
    | Ok t => (with_result b t, None)
    | Raise e => (b, Some e)
    end.
Proof.
  intros Ho. unfold fetch_one, rendered. rewrite Ho.
  destruct (fetch_url _ _ _ _ _ _ _ _) as [r|e]; simpl; [|reflexivity].
  destruct (format_output _ _ _ _ _); reflexivity.
Qed.

(** A failure of a class the batch catches costs one error line and the loop
    goes on with the next URL. *)
Lemma process_urls_caught b b' u rest e :
  fetch_one W a hdrs data max_size b u = (b', Some e) ->
  caught_by_batch e = true ->
  process_urls W a hdrs data max_size (u :: rest) b
  = process_urls W a hdrs data max_size rest (with_error b' (error_line u e)).
Proof. intros H1 H2. simpl. rewrite H1, H2. reflexivity. Qed.

(** A failure of any other class ends the loop there: nothing is recorded
    for it and the URLs after it are not fetched. *)
Lemma process_urls_uncaught b b' u rest e :
  fetch_one W a hdrs data max_size b u = (b', Some e) ->
  caught_by_batch e = false ->
  process_urls W a hdrs data max_size (u :: rest) b = (b', Some e).
Proof. intros H1 H2. simpl. rewrite H1, H2. reflexivity. Qed.

(** Without [--output], and as long as every failure is a [ValueError] or a
    [RuntimeError], the loop ends with the renderings and the error lines of
    the batch, each in input order. *)
Lemma process_urls_render urls : forall b,
  truthy_string (arg_output a) = None ->
  all_caught W a hdrs data max_size urls ->
  process_urls W a hdrs data max_size urls b
  = ({| results := results b ++ successes (outcomes W a hdrs data max_size urls);
        errors := errors b ++ failures (outcomes W a hdrs data max_size urls);
        printed := printed b; files := files b |}, None).
Proof.
  induction urls as [|u rest IH]; intros b Ho Hc.
  - simpl. rewrite !List.app_nil_r. destruct b; reflexivity.
  - simpl process_urls. rewrite (fetch_one_render b u Ho).
    assert (Hrest : all_caught W a hdrs data max_size rest)
      by (intros v e Hv; apply Hc; right; exact Hv).
    simpl outcomes. destruct (rendered W a hdrs data max_size u) as [t|e] eqn:E.
    + rewrite (IH _ Ho Hrest). simpl. rewrite <- !List.app_assoc. reflexivity.
    + rewrite (Hc u e (or_introl eq_refl) E), (IH _ Ho Hrest). simpl.
      rewrite <- !List.app_assoc. reflexivity.
Qed.

(** With [--output] the list of results never grows. *)
Lemma process_urls_output_results o urls : forall b,
  truthy_string (arg_output a) = Some o ->
  results (fst (process_urls W a hdrs data max_size urls b)) = results b.
Proof.
  induction urls as [|u rest IH]; intros b Ho; [reflexivity|].
  simpl. unfold fetch_one. rewrite Ho.
  destruct (fetch_url _ _ _ _ _ _ _ _) as [r|e].
  - destruct (open_wb W _) as [[]|e].
    + cbv zeta. destruct (print_stdout W _) as [[]|e].
      * rewrite (IH _ Ho). reflexivity.
      * destruct (caught_by_batch e); [rewrite (IH _ Ho)|]; reflexivity.
    + destruct (caught_by_batch e); [rewrite (IH _ Ho)|]; reflexivity.
  - destruct (caught_by_batch e); [rewrite (IH _ Ho)|]; reflexivity.
Qed.

(** With [--output] and more than one URL, every file the loop writes has
    the one name that carries the index 0. *)
Lemma process_urls_output_files o urls : forall b f,
  truthy_string (arg_output a) = Some o ->
  results b = [] ->
  is_Some (files (fst (process_urls W a hdrs data max_size urls b)) !! f) ->
  is_Some (files b !! f) \/ f = output_file_name o (List.length (arg_urls a)) 0.
Proof.
  induction urls as [|u rest IH]; intros b f Ho Hb Hf; [left; exact Hf|].
  simpl in Hf. unfold fetch_one in Hf. rewrite Ho, Hb in Hf. simpl List.length in Hf.
  destruct (fetch_url _ _ _ _ _ _ _ _) as [r|e].
  - destruct (open_wb W _) as [[]|e].
    + assert (Hins : forall g : gmap string bytes,
                is_Some (<[ output_file_name o (List.length (arg_urls a)) 0 := content r ]>
                           (files b) !! f) ->
                is_Some (files b !! f)
                \/ f = output_file_name o (List.length (arg_urls a)) 0).
      { intros _ H.
        destruct (decide (output_file_name o (List.length (arg_urls a)) 0 = f)) as [<-|Hne];
          [right; reflexivity|].
        left. rewrite lookup_insert_ne in H by exact Hne. exact H. }
      cbv zeta in Hf. destruct (print_stdout W _) as [[]|e].
      * apply IH in Hf; [|exact Ho|reflexivity]. simpl in Hf.
        destruct Hf as [Hf|Hf]; [|right; exact Hf]. apply (Hins ∅ Hf).
      * destruct (caught_by_batch e).
        -- apply IH in Hf; [|exact Ho|reflexivity]. simpl in Hf.
           destruct Hf as [Hf|Hf]; [|right; exact Hf]. apply (Hins ∅ Hf).
        -- simpl in Hf. apply (Hins ∅ Hf).
    + destruct (caught_by_batch e); [|left; exact Hf].
      apply IH in Hf; [exact Hf|exact Ho|exact Hb].
  - destruct (caught_by_batch e); [|left; exact Hf].
    apply IH in Hf; [exact Hf|exact Ho|exact Hb].
Qed.

End Batch.

Lemma final_status_expected b :
  final_status b = expected_status (List.length (results b)) (List.length (errors b)).
Proof. unfold final_status. destruct (errors b), (results b); reflexivity. Qed.

Lemma outcomes_count W a hdrs data max_size urls :
  (List.length (successes (outcomes W a hdrs data max_size urls))
   + List.length (failures (outcomes W a hdrs data max_size urls)))%nat
  = List.length urls.
Proof.
  induction urls as [|u rest IH]; [reflexivity|].
  simpl. destruct (rendered W a hdrs data max_size u); simpl; lia.
Qed.

(** The exit status without [--output]: 0 when no URL failed, 1 when every
    one did, 2 when some succeeded and some failed.  It holds as long as the
    command line is well formed, every failure is of a class the batch
    catches, and every rendering can be printed. *)
Lemma main_exit_status_render W a hdrs max_size done :
  parse_custom_headers (default [] (arg_custom_headers a)) [] = inr hdrs ->
  parse_size (arg_max_size a) = Ok max_size ->
  truthy_string (arg_output a) = None ->
  all_caught W a hdrs (option_map encode_ascii (truthy_string (arg_data a))) max_size
    (arg_urls a) ->
  let outs := outcomes W a hdrs (option_map encode_ascii (truthy_string (arg_data a)))
                max_size (arg_urls a) in
  print_all W (print_results (libs W) (arg_json a) (successes outs)) = (done, None) ->
  termination (main W a)
  = Exited (expected_status (List.length (successes outs)) (List.length (failures outs)))
  /\ stderr (main W a) = failures outs.
Proof.
  intros Hh Hs Ho Hc outs Hp. unfold main. rewrite Hh, Hs.
  rewrite (process_urls_render W a hdrs _ max_size (arg_urls a) empty_batch Ho Hc).
  simpl. fold outs. rewrite Hp. simpl. rewrite final_status_expected. simpl. auto.
Qed.

(** The exit status with [--output]: never 2, whatever the batch. *)
Lemma main_exit_status_output W a o :
  truthy_string (arg_output a) = Some o ->
  exit_status (termination (main W a)) <> 2.
Proof.
  intros Ho. unfold main.
  destruct (parse_custom_headers _ _) as [h|hdrs]; [simpl; lia|].
  destruct (parse_size _) as [max_size|e]; [|destruct (is_ValueError e); simpl; lia].
  pose proof (process_urls_output_results W a hdrs
                (option_map encode_ascii (truthy_string (arg_data a))) max_size o
                (arg_urls a) empty_batch Ho) as Hr.
  destruct (process_urls _ _ _ _ _ _ _) as [b [e|]]; simpl in Hr; [simpl; lia|].
  rewrite Hr. simpl. unfold final_status. rewrite Hr. destruct (errors b); simpl; lia.
Qed.

(** What [fetch_url] re-raises is caught by the batch exactly when the
    original exception is an [OSError], a [ValueError] or a [RuntimeError]. *)
Lemma fetch_handlers_caught url timeout e :
  caught_by_batch (fetch_handlers url timeout e)
  = is_OSError e || is_ValueError e || is_RuntimeError e.
Proof.
  destruct e; try reflexivity.
  simpl. destruct (Str.contains _ "timed out"); [reflexivity|].
  destruct (Str.contains _ "ssl"); reflexivity.
Qed.

(** With [--output] every file the run writes has the name with index 0. *)
Lemma main_output_single_name W a o f :
  truthy_string (arg_output a) = Some o ->
  is_Some (written (main W a) !! f) ->
  f = output_file_name o (List.length (arg_urls a)) 0.
Proof.
  intros Ho. unfold main.
  destruct (parse_custom_headers _ _) as [h|hdrs];
    [simpl; rewrite lookup_empty; intros [? [=]]|].
  destruct (parse_size _) as [max_size|e];
    [|destruct (is_ValueError e); simpl; rewrite lookup_empty; intros [? [=]]].
  pose proof (process_urls_output_files W a hdrs
                (option_map encode_ascii (truthy_string (arg_data a))) max_size o
                (arg_urls a) empty_batch f Ho eq_refl) as Hfiles.
  destruct (process_urls _ _ _ _ _ _ _) as [b [e|]];
    [|destruct (print_all W _) as [done [e|]]];
    simpl in *; intros Hf;
    (destruct (Hfiles Hf) as [H|H]; [rewrite lookup_empty in H; destruct H as [? [=]] | exact H]).
Qed.

(** C1 at its failing input.  Two URLs with [--output out.txt]: the first
    is fetched and saved, the second answers 404.  One succeeded and one
    failed, for which the specification gives status 2; the process exits
    with status 1.  Without [--output] the same batch exits with status 2. *)
Theorem main_exit_status_with_output :
  let urls := ["http://example.test/a"; "http://example.test/missing"] in
  let run := main example_web (command_line urls (Some "out.txt")) in
  written run !! "out_0.txt" = Some (encode_ascii "first page")
  /\ stderr run
     = ["Error fetching http://example.test/missing: HTTP 404 Not Found: http://example.test/missing"]
  /\ termination run = Exited 1
  /\ expected_status 1 1 = 2
  /\ termination (main example_web (command_line urls None)) = Exited 2.
Proof.
  intros urls run.
  split; [vm_compute; reflexivity|]. split; [vm_compute; reflexivity|].
  split; [vm_compute; reflexivity|]. split; [reflexivity|]. vm_compute; reflexivity.
Qed.

(** C4 at its failing input.  Two URLs, both fetched, with
    [--output page.html]: both are saved under the name with index 0, and the
    one file left holds the second page. *)
Theorem main_output_index_is_zero :
  let urls := ["http://example.test/a"; "http://example.test/b"] in
  let run := main example_web (command_line urls (Some "page.html")) in
  stdout run = [U.of_string "Saved to: page_0.html"; U.of_string "Saved to: page_0.html"]
  /\ written run !! "page_0.html" = Some (encode_ascii "second page")
  /\ written run !! "page_1.html" = None
  /\ size (written run) = 1%nat
  /\ termination run = Exited 0.
Proof.
  intros urls run.
  split; [vm_compute; reflexivity|]. split; [vm_compute; reflexivity|].
  split; [vm_compute; reflexivity|]. split; vm_compute; reflexivity.
Qed.

(** C5 at its failing input.  The first URL announces [deflate] and sends
    bytes that do not inflate: the [zlib.error] is none of the classes
    [fetch_url] wraps or the batch catches, so it ends the run; no error line
    is recorded and the second URL, which would have rendered, is never
    fetched. *)
Theorem main_aborts_on_zlib_error :
  let urls := ["http://example.test/d"; "http://example.test/a"] in
  let run := main example_web (command_line urls None) in
  termination run
  = Uncaught (ZlibError "Error -3 while decompressing data: invalid block type")
  /\ stdout run = []
  /\ stderr run = []
  /\ is_ok (rendered example_web (command_line urls None) [] None MAX_SIZE_DEFAULT
              "http://example.test/a") = true.
Proof.
  intros urls run.
  split; [vm_compute; reflexivity|]. split; [vm_compute; reflexivity|].
  split; vm_compute; reflexivity.
Qed.


(** * The reference inflater inverts the stored-block compressor *)

Section StoreRoundtrip.

Import Inflate.

Lemma byte_val_range (x : byte) : 0 <= byte_val x < 256.
Proof.
  unfold byte_val. pose proof (Byte.to_N_bounded x) as H.
  apply N.leb_le in H. apply N.leb_le in H. lia.
Qed.

Lemma byte_val_of_Z (x : Z) : 0 <= x < 256 -> byte_val (byte_of_Z x) = x.
Proof.
  intros H. unfold byte_val, byte_of_Z.
  pose proof (Byte.to_of_N_option_map (Z.to_N x)) as E.
  destruct (Byte.of_N (Z.to_N x)) as [b|]; simpl in E.
  - destruct (N.leb_spec (Z.to_N x) 255); [|discriminate]. injection E as ->. lia.
  - destruct (N.leb_spec (Z.to_N x) 255); [discriminate|]. lia.
Qed.

Lemma byte_at_val n i : byte_val (Store.byte_at n i) = n / 256 ^ i mod 256.
Proof. unfold Store.byte_at. apply byte_val_of_Z. apply Z.mod_pos_bound. lia. Qed.

Lemma read_bytes_app (c tail : bytes) :
  read_bytes (List.length c) (c ++ tail) = Done (c, tail).
Proof. induction c as [|x c IH]; [reflexivity|]. simpl. rewrite IH. reflexivity. Qed.

(** The decoded fields of a block header. *)
Lemma le16_decode n : 0 <= n <= 65535 ->
  List.map byte_val (Store.le16 n) = [n mod 256; n / 256].
Proof.
  intros H. unfold Store.le16. simpl List.map. rewrite !byte_at_val.
  change (256 ^ 0) with 1. change (256 ^ 1) with 256. rewrite Z.div_1_r.
  f_equal. f_equal. apply Z.mod_small. split; [apply Z.div_pos; lia|].
  apply Z.div_lt_upper_bound; lia.
Qed.

Lemma lxor_complement16 x : 0 <= x <= 65535 -> Z.lxor (65535 - x) 65535 = x.
Proof.
  intros H. set (y := 65535 - x).
  assert (Hy : 0 <= y <= 65535) by (unfold y; lia).
  assert (Hland : Z.land y (Z.lxor y 65535) = 0).
  { apply Z.bits_inj'. intros i Hi.
    rewrite Z.land_spec, Z.lxor_spec, Z.bits_0.
    destruct (Z.testbit y i) eqn:E; [|reflexivity].
    destruct (Z.lt_ge_cases i 16) as [Hlt|Hge].
    - change 65535 with (Z.ones 16). rewrite Z.ones_spec_low by lia. reflexivity.
    - exfalso. rewrite Z.testbit_true in E by lia.
      rewrite Z.div_small in E; [discriminate|].
      split; [lia|]. apply Z.le_lt_trans with 65535; [lia|].
      apply Z.lt_le_trans with (2 ^ 16); [reflexivity|].
      apply Z.pow_le_mono_r; lia. }
  pose proof (Z.add_nocarry_lxor _ _ Hland) as Hadd.
  replace (Z.lxor y (Z.lxor y 65535)) with 65535 in Hadd.
  - unfold y in *. lia.
  - rewrite <- Z.lxor_assoc, Z.lxor_nilpotent, Z.lxor_0_l. reflexivity.
Qed.

Lemma blen_length (c : bytes) : Z.to_nat (blen c) = List.length c.
Proof. unfold blen. lia. Qed.

(** A stored block decodes to its bytes, whatever is left in the bit buffer. *)
Lemma stored_decode bb (chunk tail out : bytes) :
  blen chunk <= 65535 ->
  stored {| bitbuf := bb;
            rest := Store.le16 (blen chunk) ++ Store.le16 (65535 - blen chunk)
                    ++ chunk ++ tail |} out
  = Done ({| bitbuf := []; rest := tail |}, List.rev_append chunk out).
Proof.
  intros H.
  assert (H0 : 0 <= blen chunk) by (unfold blen; lia).
  unfold stored. cbn [rest].
  change (Store.le16 (blen chunk) ++ Store.le16 (65535 - blen chunk) ++ chunk ++ tail)
    with (Store.byte_at (blen chunk) 0 :: Store.byte_at (blen chunk) 1
          :: Store.byte_at (65535 - blen chunk) 0 :: Store.byte_at (65535 - blen chunk) 1
          :: chunk ++ tail).
  cbn [read_bytes obind List.map].
  rewrite !byte_at_val.
  change (256 ^ 0) with 1. change (256 ^ 1) with 256. rewrite !Z.div_1_r.
  assert (E1 : blen chunk mod 256 + 256 * (blen chunk / 256 mod 256) = blen chunk).
  { rewrite (Z.mod_small (blen chunk / 256) 256).
    - pose proof (Z.div_mod (blen chunk) 256). lia.
    - split; [apply Z.div_pos; lia | apply Z.div_lt_upper_bound; lia]. }
  assert (E2 : (65535 - blen chunk) mod 256 + 256 * ((65535 - blen chunk) / 256 mod 256)
               = 65535 - blen chunk).
  { rewrite (Z.mod_small ((65535 - blen chunk) / 256) 256).
    - pose proof (Z.div_mod (65535 - blen chunk) 256). lia.
    - split; [apply Z.div_pos; lia | apply Z.div_lt_upper_bound; lia]. }
  rewrite E1, E2, lxor_complement16 by lia.
  rewrite Z.eqb_refl. cbn [negb]. rewrite blen_length, read_bytes_app.
  reflexivity.
Qed.

Lemma header_bits (final : bool) (tail : bytes) :
  read_bits 1 {| bitbuf := []; rest := byte_of_Z (Z.b2z final) :: tail |}
  = Done (Z.b2z final, {| bitbuf := Store.zero_bits 7; rest := tail |}).
Proof. destruct final; reflexivity. Qed.

Lemma type_bits (tail : bytes) :
  read_bits 2 {| bitbuf := Store.zero_bits 7; rest := tail |}
  = Done (0, {| bitbuf := Store.zero_bits 5; rest := tail |}).
Proof. reflexivity. Qed.

Lemma blocks_unfold fuel inner s out :
  blocks (S fuel) inner s out
  = obind (read_bits 1 s) (fun '(last, s1) =>
      obind (read_bits 2 s1) (fun '(type, s2) =>
        obind (if type =? 0 then stored s2 out
               else if type =? 1 then codes inner fixed_lencode fixed_distcode s2 out
               else if type =? 2 then dynamic inner s2 out
               else Invalid "invalid block type")
          (fun '(s3, out') =>
             if last =? 1 then Done (s3, out') else blocks fuel inner s3 out'))).
Proof. reflexivity. Qed.

(** One block: its bytes are appended, and the final flag tells whether the
    stream ends. *)
Lemma blocks_step fuel inner (final : bool) (chunk tail out : bytes) :
  blen chunk <= 65535 ->
  blocks (S fuel) inner {| bitbuf := []; rest := Store.block final chunk ++ tail |} out
  = if final then Done ({| bitbuf := []; rest := tail |}, List.rev_append chunk out)
    else blocks fuel inner {| bitbuf := []; rest := tail |} (List.rev_append chunk out).
Proof.
  intros H. unfold Store.block.
  rewrite <- List.app_comm_cons, <- !List.app_assoc.
  rewrite blocks_unfold, header_bits. cbn [obind].
  rewrite type_bits. cbn [obind].
  change (0 =? 0) with true. cbv iota.
  rewrite stored_decode by exact H. cbn [obind].
  destruct final; reflexivity.
Qed.

(** All the blocks of a chunk list decode to the chunks in order, given one
    unit of fuel for each block. *)
Lemma blocks_of_decode inner (chunks : list bytes) : forall fuel tail out,
  List.Forall (fun c => blen c <= 65535) chunks ->
  (List.length chunks <= fuel)%nat ->
  blocks (S fuel) inner {| bitbuf := []; rest := Store.blocks_of chunks ++ tail |} out
  = Done ({| bitbuf := []; rest := tail |}, List.rev (List.concat chunks) ++ out).
Proof.
  induction chunks as [|c rest IH]; intros fuel tail out Hall Hfuel.
  - simpl Store.blocks_of. rewrite blocks_step by (unfold blen; simpl; lia). reflexivity.
  - inversion Hall as [|? ? Hc Hrest]; subst.
    destruct rest as [|c' rest'].
    + simpl Store.blocks_of. rewrite blocks_step by exact Hc.
      simpl List.concat. rewrite List.app_nil_r, List.rev_append_rev. reflexivity.
    + change (Store.blocks_of (c :: c' :: rest'))
        with (Store.block false c ++ Store.blocks_of (c' :: rest')).
      rewrite <- List.app_assoc, blocks_step by exact Hc.
      destruct fuel as [|fuel]; [simpl in Hfuel; lia|].
      rewrite IH by (auto; simpl in *; lia).
      change (List.concat (c :: c' :: rest')) with (c ++ List.concat (c' :: rest')).
      rewrite List.rev_app_distr, List.rev_append_rev, <- List.app_assoc. reflexivity.
Qed.

Lemma max_block_val : Z.of_nat Store.max_block = 65535.
Proof. unfold Store.max_block. apply Z2Nat.id. lia. Qed.

Lemma chunks_of_cons fuel x (l : bytes) :
  Store.chunks_of (S fuel) (x :: l)
  = List.firstn Store.max_block (x :: l)
    :: Store.chunks_of fuel (List.skipn Store.max_block (x :: l)).
Proof. reflexivity. Qed.

Lemma chunks_of_spec fuel : forall l,
  (List.length l <= fuel)%nat ->
  List.concat (Store.chunks_of fuel l) = l
  /\ List.Forall (fun c => blen c <= 65535) (Store.chunks_of fuel l)
  /\ (List.length (Store.chunks_of fuel l) <= List.length l)%nat.
Proof.
  pose proof max_block_val as Hmax.
  induction fuel as [|fuel IH]; intros l Hl.
  - destruct l as [|x l]; [repeat split; constructor|].
    exfalso. rewrite List.length_cons in Hl. lia.
  - destruct l as [|x l]; [repeat split; constructor|].
    rewrite chunks_of_cons.
    revert Hmax IH. generalize Store.max_block. intros m Hmax IH.
    assert (Hskip : (List.length (List.skipn m (x :: l)) < List.length (x :: l))%nat).
    { rewrite List.length_skipn, List.length_cons. lia. }
    destruct (IH (List.skipn m (x :: l))) as (H1 & H2 & H3); [lia|].
    split; [|split].
    + change (List.concat (?a :: ?r)) with (a ++ List.concat r).
      rewrite H1. apply List.firstn_skipn.
    + constructor; [|exact H2]. unfold blen. rewrite List.length_firstn. lia.
    + rewrite !List.length_cons. rewrite List.length_cons in Hskip. lia.
Qed.

Lemma blocks_of_length chunks :
  (List.length chunks <= List.length (Store.blocks_of chunks))%nat.
Proof.
  induction chunks as [|c rest IH]; [simpl; lia|].
  destruct rest as [|c' rest'].
  - simpl. lia.
  - change (Store.blocks_of (c :: c' :: rest'))
      with (Store.block false c ++ Store.blocks_of (c' :: rest')).
    rewrite List.length_app. unfold Store.block at 1. simpl List.length in *. lia.
Qed.

(** The raw stream of [b], followed by anything, inflates to [b] and leaves
    what follows. *)
Lemma inflate_deflate (b tail : bytes) :
  inflate (Store.deflate b ++ tail) = Done (b, tail).
Proof.
  unfold inflate, Store.deflate.
  destruct (chunks_of_spec (List.length b) b (le_n _)) as (Hc & Hall & Hlen).
  rewrite blocks_of_decode.
  - cbn [obind rest]. rewrite List.app_nil_r, List.rev_involutive, Hc. reflexivity.
  - exact Hall.
  - pose proof (blocks_of_length (Store.chunks_of (List.length b) b)).
    rewrite List.length_app. lia.
Qed.

(** ** Checksums fit in 32 bits *)

Lemma lxor_range32 a b :
  0 <= a < 2 ^ 32 -> 0 <= b < 2 ^ 32 -> 0 <= Z.lxor a b < 2 ^ 32.
Proof.
  intros Ha Hb.
  assert (Hnn : 0 <= Z.lxor a b) by (apply Z.lxor_nonneg; lia).
  split; [exact Hnn|].
  destruct (Z.eq_dec a 0) as [->|Ha0]; [rewrite Z.lxor_0_l; lia|].
  destruct (Z.eq_dec b 0) as [->|Hb0]; [rewrite Z.lxor_0_r; lia|].
  destruct (Z.eq_dec (Z.lxor a b) 0) as [->|Hx0]; [reflexivity|].
  apply Z.log2_lt_pow2; [lia|].
  apply Z.le_lt_trans with (Z.max (Z.log2 a) (Z.log2 b)); [apply Z.log2_lxor; lia|].
  apply Z.max_lub_lt; apply Z.log2_lt_pow2; lia.
Qed.

Lemma shiftr1_range32 a : 0 <= a < 2 ^ 32 -> 0 <= Z.shiftr a 1 < 2 ^ 32.
Proof.
  intros Ha. rewrite Z.shiftr_div_pow2 by lia. change (2 ^ 1) with 2.
  split; [apply Z.div_pos; lia|]. apply Z.div_lt_upper_bound; lia.
Qed.

Lemma crc32_step_range c i : 0 <= c < 2 ^ 32 -> 0 <= crc32_step c i < 2 ^ 32.
Proof.
  intros Hc. unfold crc32_step. pose proof (shiftr1_range32 c Hc).
  destruct (Z.testbit c 0); [apply lxor_range32; [assumption|]|assumption].
  split; [lia|reflexivity].
Qed.

Lemma crc32_steps_range (l : list nat) : forall c,
  0 <= c < 2 ^ 32 -> 0 <= List.fold_left crc32_step l c < 2 ^ 32.
Proof.
  induction l as [|i l IH]; intros c Hc; [exact Hc|].
  simpl. apply IH, crc32_step_range, Hc.
Qed.

Lemma byte_val_range32 (x : byte) : 0 <= byte_val x < 2 ^ 32.
Proof.
  pose proof (byte_val_range x). split; [lia|].
  apply Z.lt_le_trans with 256; [lia|]. change 256 with (2 ^ 8).
  apply Z.pow_le_mono_r; lia.
Qed.

Lemma crc32_range (data : bytes) : 0 <= crc32 data < 2 ^ 32.
Proof.
  unfold crc32.
  assert (Hinit : 0 <= 4294967295 < 2 ^ 32) by (split; [lia|reflexivity]).
  apply lxor_range32; [|exact Hinit].
  revert Hinit. generalize 4294967295.
  induction data as [|x data IH]; intros c Hc; [exact Hc|].
  change (0 <= List.fold_left
                 (fun crc x0 => List.fold_left crc32_step (List.seq 0 8) (Z.lxor crc (byte_val x0)))
                 data (List.fold_left crc32_step (List.seq 0 8) (Z.lxor c (byte_val x)))
          < 2 ^ 32).
  apply IH. apply crc32_steps_range.
  apply lxor_range32; [exact Hc | apply byte_val_range32].
Qed.

Lemma adler32_range (data : bytes) : 0 <= adler32 data < 2 ^ 32.
Proof.
  unfold adler32.
  assert (H : forall l a b, 0 <= a < 65521 -> 0 <= b < 65521 ->
            let '(a', b') :=
              List.fold_left (fun '(a, b) x =>
                let a' := (a + byte_val x) mod 65521 in (a', (b + a') mod 65521)) l (a, b) in
            0 <= a' < 65521 /\ 0 <= b' < 65521).
  { induction l as [|x l IH]; intros a b Ha Hb; [simpl; auto|].
    simpl List.fold_left. apply IH; apply Z.mod_pos_bound; lia. }
  specialize (H data 1 0 ltac:(lia) ltac:(lia)).
  destruct (List.fold_left _ data (1, 0)) as [a b].
  destruct H as [Ha Hb]. change (2 ^ 32) with 4294967296. lia.
Qed.

(** ** Four bytes hold a 32-bit number *)

Lemma le32_roundtrip x : 0 <= x < 2 ^ 32 -> le32 (Store.le32 x) = x.
Proof.
  intros H. unfold le32, Store.le32. cbn [List.fold_right].
  rewrite !byte_at_val.
  change (256 ^ 0) with 1. change (256 ^ 1) with 256.
  change (256 ^ 2) with 65536. change (256 ^ 3) with 16777216.
  change (2 ^ 32) with 4294967296 in H.
  Z.div_mod_to_equations. lia.
Qed.

Lemma be32_roundtrip x : 0 <= x < 2 ^ 32 -> be32 (Store.be32 x) = x.
Proof.
  intros H. unfold be32, Store.be32. cbn [List.fold_left].
  rewrite !byte_at_val.
  change (256 ^ 0) with 1. change (256 ^ 1) with 256.
  change (256 ^ 2) with 65536. change (256 ^ 3) with 16777216.
  change (2 ^ 32) with 4294967296 in H.
  Z.div_mod_to_equations. lia.
Qed.

(** ** The three framings *)

Lemma zlib_raw_roundtrip (b : bytes) :
  zlib_decompress (Store.deflate b) (- Zlib.MAX_WBITS) = Ok b.
Proof.
  unfold zlib_decompress. change (- Zlib.MAX_WBITS <? 0) with true. cbv iota.
  rewrite <- (List.app_nil_r (Store.deflate b)), inflate_deflate. reflexivity.
Qed.

(** A raw stream of stored blocks begins with a byte 0 or 1 and has a
    second byte. *)
Lemma deflate_head (b : bytes) :
  exists final f r, Store.deflate b = byte_of_Z (Z.b2z final) :: f :: r.
Proof.
  unfold Store.deflate. destruct (Store.chunks_of _ b) as [|c [|c' rest]].
  - exists true. eexists. eexists. reflexivity.
  - exists true. eexists. eexists. reflexivity.
  - exists false. eexists. eexists. reflexivity.
Qed.

(** The zlib-wrapped attempt rejects it: the first byte cannot be the CMF of
    a zlib header. *)
Lemma zlib_rejects_raw (b : bytes) :
  exists msg, zlib_decompress (Store.deflate b) Zlib.MAX_WBITS = Raise (ZlibError msg).
Proof.
  destruct (deflate_head b) as (final & f & r & ->).
  unfold zlib_decompress. change (Zlib.MAX_WBITS <? 0) with false. cbv iota.
  destruct (negb ((256 * byte_val (byte_of_Z (Z.b2z final)) + byte_val f) mod 31 =? 0));
    [eexists; reflexivity|].
  destruct final; eexists; reflexivity.
Qed.

Lemma zlib_decompress_7801 (body : bytes) :
  zlib_decompress (x78 :: x01 :: body) Zlib.MAX_WBITS
  = match inflate body with
    | Done (out, unused) =>
        match read_bytes 4 unused with
        | Done (chk, _) =>
            if be32 chk =? adler32 out then Ok out
            else Raise (zlib_error "incorrect data check")
        | _ => Raise zlib_truncated
        end
    | NeedInput => Raise zlib_truncated
    | Invalid msg => Raise (zlib_error msg)
    end.
Proof. reflexivity. Qed.

Lemma zlib_roundtrip (b : bytes) :
  zlib_decompress (Store.zlib_compress b) Zlib.MAX_WBITS = Ok b.
Proof.
  unfold Store.zlib_compress. change (fromhex "7801") with [x78; x01].
  change ([x78; x01] ++ ?t) with (x78 :: x01 :: t).
  rewrite zlib_decompress_7801, inflate_deflate.
  change (read_bytes 4 (Store.be32 (adler32 b))) with (@Done (bytes * bytes) (Store.be32 (adler32 b), [])).
  cbv iota beta. rewrite be32_roundtrip by apply adler32_range.
  rewrite Z.eqb_refl. reflexivity.
Qed.

Lemma read_gzip_header_plain (body : bytes) :
  read_gzip_header (Store.gzip_header ++ body) = Ok (Some body).
Proof. reflexivity. Qed.

Lemma gzip_members_unfold fuel data members :
  gzip_members (S fuel) data members
  = bind (read_gzip_header data) (fun hdr =>
      match hdr with
      | None => Ok (List.concat (List.rev members))
      | Some body =>
          match inflate body with
          | Invalid msg => Raise (zlib_error msg)
          | NeedInput => Raise eof_error
          | Done (decompressed, unused) =>
              match read_bytes 8 unused with
              | Done (trailer, after) =>
                  if negb (le32 (List.firstn 4 trailer) =? crc32 decompressed) then
                    Raise (BadGzipFile "CRC check failed")
                  else if negb (le32 (List.skipn 4 trailer)
                                =? Z.land (blen decompressed) 4294967295) then
                    Raise (BadGzipFile "Incorrect length of data produced")
                  else gzip_members fuel (lstrip_zero after) (decompressed :: members)
              | _ => Raise eof_error
              end
          end
      end).
Proof. reflexivity. Qed.

Lemma gzip_roundtrip (b : bytes) :
  gzip_decompress (Store.gzip_compress b) = Ok b.
Proof.
  unfold gzip_decompress, Store.gzip_compress.
  set (trailer := Store.le32 (crc32 b) ++ Store.le32 (blen b mod 2 ^ 32)).
  assert (Hlen : exists n, List.length (Store.gzip_header ++ Store.deflate b ++ trailer) = S n).
  { rewrite List.length_app. exists (9 + List.length (Store.deflate b ++ trailer))%nat.
    reflexivity. }
  destruct Hlen as [n ->].
  rewrite gzip_members_unfold, read_gzip_header_plain. cbn [bind].
  rewrite inflate_deflate.
  change (read_bytes 8 trailer) with (@Done (bytes * bytes) (trailer, [])).
  cbv iota beta.
  change (List.firstn 4 trailer) with (Store.le32 (crc32 b)).
  change (List.skipn 4 trailer) with (Store.le32 (blen b mod 2 ^ 32)).
  rewrite le32_roundtrip by apply crc32_range.
  rewrite le32_roundtrip by (apply Z.mod_pos_bound; lia).
  change 4294967295 with (Z.ones 32). rewrite Z.land_ones by lia.
  rewrite !Z.eqb_refl. cbn [negb]. cbv iota.
  change (lstrip_zero []) with (@nil byte).
  rewrite gzip_members_unfold. cbn [read_gzip_header bind List.rev List.app List.concat].
  rewrite List.app_nil_r. reflexivity.
Qed.

End StoreRoundtrip.

(** The reference libraries invert the compressor, and [decompress_content]
    gives back every byte string from its gzip file under "gzip", and from
    its zlib stream and from its raw stream under "deflate". *)
Lemma decompress_content_inverts_store (b : bytes) :
  decompress_content Inflate.cpython (Store.gzip_compress b) "gzip" = Ok b
  /\ decompress_content Inflate.cpython (Store.zlib_compress b) "deflate" = Ok b
  /\ decompress_content Inflate.cpython (Store.deflate b) "deflate" = Ok b.
Proof.
  destruct (zlib_rejects_raw b) as [msg Hrej].
  split; [|split].
  - rewrite decompress_gzip. apply gzip_roundtrip.
  - apply decompress_deflate_zlib. apply zlib_roundtrip.
  - rewrite (decompress_deflate_retry Inflate.cpython _ msg Hrej). apply zlib_raw_roundtrip.
Qed.





(** * The size parser on every input *)

Section Strip.

Variable p : ascii -> bool.

Lemma lstrip_of_cases (s : string) :
  Str.lstrip_of p s = "" \/ exists c r, Str.lstrip_of p s = String c r /\ p c = false.
Proof.
  induction s as [|c s IH]; [left; reflexivity|].
  simpl. destruct (p c) eqn:E; [exact IH|]. right. eauto.
Qed.

Lemma lstrip_of_idem (s : string) : Str.lstrip_of p (Str.lstrip_of p s) = Str.lstrip_of p s.
Proof.
  destruct (lstrip_of_cases s) as [-> | (c & r & -> & Hc)]; [reflexivity|].
  apply lstrip_of_head, Hc.
Qed.

Lemma lstrip_of_snoc (a : string) c :
  p c = false -> Str.lstrip_of p (a +:+ String c "") = Str.lstrip_of p a +:+ String c "".
Proof.
  intros Hc. induction a as [|d a IH].
  - rewrite !app_empty_l. apply lstrip_of_head, Hc.
  - rewrite app_String. simpl. destruct (p d); [exact IH|]. rewrite app_String. reflexivity.
Qed.

(** Stripping twice is stripping once. *)
Lemma strip_of_idem (s : string) : Str.strip_of p (Str.strip_of p s) = Str.strip_of p s.
Proof.
  unfold Str.strip_of, Str.rstrip_of.
  destruct (lstrip_of_cases s) as [-> | (c & r & -> & Hc)]; [reflexivity|].
  rewrite rev_String, (lstrip_of_snoc _ _ Hc), rev_app_distr_s.
  change (String.rev (String c "")) with (String c ""). rewrite app_String, app_empty_l.
  rewrite (lstrip_of_head _ _ _ Hc), rev_String, rev_involutive_s.
  rewrite (lstrip_of_snoc _ _ Hc), lstrip_of_idem, rev_app_distr_s.
  reflexivity.
Qed.

Variable f : ascii -> ascii.
Hypothesis p_f : forall c, p (f c) = p c.

Lemma lstrip_of_map (s : string) :
  Str.lstrip_of p (Str.map f s) = Str.map f (Str.lstrip_of p s).
Proof.
  induction s as [|c s IH]; [reflexivity|].
  simpl. rewrite p_f. destruct (p c); [exact IH | reflexivity].
Qed.

Lemma rev_map (s : string) : String.rev (Str.map f s) = Str.map f (String.rev s).
Proof.
  induction s as [|c s IH]; [reflexivity|].
  simpl Str.map. rewrite !rev_String, IH, map_app_s. reflexivity.
Qed.

Lemma strip_of_map (s : string) :
  Str.strip_of p (Str.map f s) = Str.map f (Str.strip_of p s).
Proof.
  unfold Str.strip_of, Str.rstrip_of.
  rewrite lstrip_of_map, rev_map, lstrip_of_map, rev_map. reflexivity.
Qed.

End Strip.

Section SizeCases.

Ltac each_ascii c := destruct c as [[|] [|] [|] [|] [|] [|] [|] [|]].

Lemma isspace_upper_char c : Str.isspace (Str.upper_char c) = Str.isspace c.
Proof. each_ascii c; reflexivity. Qed.

Lemma upper_char_idem c : Str.upper_char (Str.upper_char c) = Str.upper_char c.
Proof. each_ascii c; reflexivity. Qed.

Lemma upper_idem (s : string) : Str.upper (Str.upper s) = Str.upper s.
Proof.
  unfold Str.upper. induction s as [|c s IH]; [reflexivity|].
  simpl. rewrite upper_char_idem, IH. reflexivity.
Qed.

(** What [parse_size] works on is already stripped and in upper case. *)
Lemma upper_strip_idem (s : string) :
  Str.upper (Str.strip (Str.upper (Str.strip s))) = Str.upper (Str.strip s).
Proof.
  unfold Str.strip, Str.upper.
  rewrite (strip_of_map _ _ isspace_upper_char), strip_of_idem.
  apply upper_idem.
Qed.

(** [float(s)] raises nothing but its [ValueError]. *)
Lemma py_float_raises s e : Num.py_float s = Raise e -> e = Num.float_error s.
Proof.
  unfold Num.py_float.
  destruct (if Str.contains _ "_" then _ else _) as [t|]; [|congruence].
  destruct (Num.read_sign t) as [neg body].
  destruct (Num.digits body 0 0) as [[ip ni] r1].
  destruct (match r1 with String "." r => _ | _ => _ end) as [[fp nf] r2].
  destruct (ni + nf =? 0).
  - destruct (Num.inf_or_nan neg body); congruence.
  - destruct (Num.read_exponent r2) as [x r3]. destruct (String.eqb r3 ""); congruence.
Qed.

(** [int(s)] raises nothing but [ValueError]. *)
Lemma py_int_raises s e : Num.py_int s = Raise e -> is_ValueError e = true.
Proof.
  unfold Num.py_int.
  destruct (Num.read_sign _) as [neg body].
  destruct (Num.digit_run body 0 0 false) as [[[v n] rest]|]; [|intros [= <-]; reflexivity].
  destruct (n =? 0); [intros [= <-]; reflexivity|].
  destruct (negb _); [intros [= <-]; reflexivity|].
  destruct (_ <? n); [intros [= <-]; reflexivity | discriminate].
Qed.

Lemma parse_size_try_raises s sfx mult e :
  parse_size_try s sfx mult = Raise e -> is_ValueError e = true \/ e = float_infinity_error.
Proof.
  unfold parse_size_try.
  destruct (Num.py_float _) as [x|e0] eqn:E; simpl.
  - destruct (Num.fmul x _); simpl; try discriminate; intros [= <-]; auto.
  - intros [= <-]. rewrite (py_float_raises _ _ E). left. reflexivity.
Qed.

(** The loop leaves the function by an exception only for an infinite
    number: every [ValueError] of a turn is passed over. *)
Lemma parse_size_loop_raises s table e :
  parse_size_loop s table = Some (Raise e) -> e = float_infinity_error.
Proof.
  induction table as [|[sfx mult] rest IH]; [discriminate|].
  simpl. destruct (Str.endswith s sfx); [|exact IH].
  destruct (parse_size_try s sfx mult) as [n|e0] eqn:E; [discriminate|].
  destruct (parse_size_try_raises _ _ _ _ E) as [Hv | ->].
  - rewrite Hv. exact IH.
  - simpl. intros [= <-]. reflexivity.
Qed.

Lemma parse_size_raise_cases s e :
  parse_size s = Raise e ->
  e = invalid_size_format (Str.upper (Str.strip s)) \/ e = float_infinity_error.
Proof.
  unfold parse_size.
  destruct (parse_size_loop _ multipliers) as [r|] eqn:E.
  - intros ->. right. apply (parse_size_loop_raises _ _ _ E).
  - destruct (Num.py_int _) as [n|e0] eqn:Ei; simpl; [discriminate|].
    rewrite (py_int_raises _ _ Ei). intros [= <-]. left. reflexivity.
Qed.

(** A string of digits, with or without a minus sign, matches no suffix. *)
Lemma parse_size_loop_digit_end s d r :
  String.rev s = String d r -> Str.isdigit d = true ->
  parse_size_loop s multipliers = None.
Proof.
  intros Hr Hd. destruct (isdigit_facts d Hd) as (_ & _ & _ & _ & _ & _ & HK).
  unfold multipliers, parse_size_loop, Str.endswith. rewrite Hr.
  repeat match goal with
         | |- context [String.rev (String ?x ?y)] =>
             let v := eval vm_compute in (String.rev (String x y)) in
             change (String.rev (String x y)) with v
         end.
  rewrite !startswith_String, !HK by (simpl; tauto). reflexivity.
Qed.

Lemma py_int_digits neg body d :
  all_digits d = true -> d <> "" -> Str.len d <= 4300 ->
  Num.read_sign body = (neg, d) ->
  (forall c r, body = String c r -> Num.c_isspace c = false) ->
  Num.py_int body = Ok (if neg then - decimal_value d else decimal_value d).
Proof.
  intros Hd Hne Hlen Hsign Hhead. unfold Num.py_int.
  assert (Hl : Str.lstrip_of Num.c_isspace body = body).
  { destruct body as [|c r]; [reflexivity|]. apply lstrip_of_head, (Hhead c r eq_refl). }
  rewrite Hl, Hsign.
  rewrite <- (app_empty_r d) at 1. rewrite (digit_run_app d "" 0 0 Hd).
  change (Num.digit_run "" (decimal_fold d 0) (0 + Str.len d) false)
    with (Some (decimal_fold d 0, 0 + Str.len d, "")).
  cbv iota beta.
  pose proof (len_pos d Hne).
  replace (0 + Str.len d =? 0) with false by (symmetry; apply Z.eqb_neq; lia).
  change (negb (String.eqb (Str.lstrip_of Num.c_isspace "") "")) with false. cbv iota.
  replace (Num.int_max_str_digits <? 0 + Str.len d) with false
    by (symmetry; apply Z.ltb_ge; unfold Num.int_max_str_digits; lia).
  reflexivity.
Qed.

Lemma parse_size_digits d :
  all_digits d = true -> d <> "" -> Str.len d <= 4300 ->
  parse_size d = Ok (decimal_value d).
Proof.
  intros Hd Hne Hlen.
  destruct (digits_rev_head d Hd Hne) as (e & r' & Hrev & He).
  destruct d as [|c r] eqn:Ed; [congruence|]. rewrite <- Ed in *.
  assert (Hc : Str.isdigit c = true).
  { rewrite Ed in Hd. simpl in Hd. apply andb_true_iff in Hd. tauto. }
  destruct (isdigit_facts c Hc) as (Hcs & Hcs' & _ & _ & _ & Hsign & _).
  destruct (isdigit_facts e He) as (Hes & _).
  unfold parse_size.
  assert (Hstrip : Str.strip d = d).
  { rewrite Ed in *. eapply strip_of_id; eauto. }
  rewrite Hstrip, (upper_digits d Hd), (parse_size_loop_digit_end d e r' Hrev He).
  rewrite (py_int_digits false d d Hd Hne Hlen).
  - reflexivity.
  - rewrite Ed. apply Hsign.
  - intros c0 r0. rewrite Ed. intros [= <- <-]. exact Hcs'.
Qed.

Lemma parse_size_negative d :
  all_digits d = true -> d <> "" -> Str.len d <= 4300 ->
  parse_size ("-" +:+ d) = Ok (- decimal_value d).
Proof.
  intros Hd Hne Hlen.
  destruct (digits_rev_head d Hd Hne) as (e & r' & Hrev & He).
  destruct (isdigit_facts e He) as (Hes & _).
  assert (Hr : String.rev ("-" +:+ d) = String e (r' +:+ "-")).
  { rewrite rev_app_distr_s, Hrev. reflexivity. }
  unfold parse_size.
  assert (Hstrip : Str.strip ("-" +:+ d) = "-" +:+ d).
  { rewrite app_String, app_empty_l in *. eapply strip_of_id; eauto. }
  assert (Hupper : Str.upper ("-" +:+ d) = "-" +:+ d).
  { unfold Str.upper. rewrite map_app_s. fold Str.upper. rewrite (upper_digits d Hd). reflexivity. }
  rewrite Hstrip, Hupper, (parse_size_loop_digit_end _ e _ Hr He).
  rewrite (py_int_digits true ("-" +:+ d) d Hd Hne Hlen).
  - reflexivity.
  - reflexivity.
  - intros c0 r0 [= <- <-]. reflexivity.
Qed.

End SizeCases.

(** [parse_size] fails in two ways only.  A string it cannot read raises the
    [ValueError] "Invalid size format: " followed by the string, stripped and
    in upper case.  A number that is infinite as a float, before a suffix,
    raises [OverflowError]: the [int(num * multiplier)] of the loop raises it
    and the [except ValueError] around it does not catch it. *)
Theorem parse_size_error_classes (s : string) (e : exn) :
  parse_size s = Raise e ->
  e = invalid_size_format (Str.upper (Str.strip s))
  \/ e = OverflowError "cannot convert float infinity to integer".
Proof. apply parse_size_raise_cases. Qed.

Lemma parse_size_error_classes_witness :
  parse_size " 1e999k " = Raise (OverflowError "cannot convert float infinity to integer")
  /\ parse_size "12 KB" = Ok 12288
  /\ parse_size "1.5 kib" = Raise (invalid_size_format "1.5 KIB")
  /\ (invalid_size_format "1.5 KIB" = invalid_size_format (Str.upper (Str.strip "1.5 kib"))
      \/ invalid_size_format "1.5 KIB"
         = OverflowError "cannot convert float infinity to integer").
Proof.
  split; [vm_compute; reflexivity|]. split; [vm_compute; reflexivity|].
  split; [vm_compute; reflexivity|].
  apply (parse_size_error_classes "1.5 kib"). vm_compute. reflexivity.
Defined.

(** A plain decimal numeral of at most 4300 digits is the size it writes, and
    with a minus sign before it the negative of that: [parse_size] puts no
    lower bound on a size. *)
Theorem parse_size_plain_integer (d : string) :
  all_digits d = true -> d <> "" -> Str.len d <= 4300 ->
  parse_size d = Ok (decimal_value d)
  /\ parse_size ("-" +:+ d) = Ok (- decimal_value d).
Proof.
  intros Hd Hne Hlen. split.
  - apply parse_size_digits; assumption.
  - apply parse_size_negative; assumption.
Qed.

Lemma parse_size_plain_integer_witness :
  parse_size "1048576" = Ok 1048576 /\ parse_size ("-" +:+ "1048576") = Ok (- 1048576).
Proof.
  apply (parse_size_plain_integer "1048576");
    [reflexivity | discriminate | vm_compute; discriminate].
Defined.

(** [parse_size] reads its argument without the white space around it and
    without regard to case: it gives what it gives on the stripped, upper-case
    form of the argument. *)
Theorem parse_size_normalizes (s : string) :
  parse_size s = parse_size (Str.upper (Str.strip s)).
Proof. unfold parse_size. rewrite upper_strip_idem. reflexivity. Qed.


(** * The fetcher: reading, errors, headers *)

Section ReadBody.

Variable max_size : Z.

Lemma read_loop_stops_at_empty pre post : forall total buffer,
  read_loop max_size (pre ++ Ok [] :: post) total buffer
  = read_loop max_size pre total buffer.
Proof.
  induction pre as [|r pre IH]; intros total buffer; [reflexivity|].
  simpl. destruct r as [[|x chunk]|e]; try reflexivity.
  destruct (max_size <? _); [reflexivity | apply IH].
Qed.

Lemma read_loop_chunks chunks : forall buffer,
  blen buffer <= max_size ->
  List.Forall (fun c : bytes => c <> []) chunks ->
  match read_loop max_size (List.map Ok chunks) (blen buffer) buffer with
  | (out, None) =>
      blen (buffer ++ List.concat chunks) <= max_size /\ out = buffer ++ List.concat chunks
  | (_, Some e) =>
      max_size < blen (buffer ++ List.concat chunks) /\ e = size_exceeded max_size
  end.
Proof.
  induction chunks as [|c chunks IH]; intros buffer Hb Hne.
  - simpl. rewrite List.app_nil_r. auto.
  - inversion Hne as [|? ? Hc Hrest]; subst.
    destruct c as [|x c]; [congruence|].
    simpl List.map. simpl read_loop.
    change (List.concat ((x :: c) :: chunks)) with ((x :: c) ++ List.concat chunks).
    destruct (max_size <? blen buffer + blen (x :: c)) eqn:E.
    + apply Z.ltb_lt in E. split; [|reflexivity].
      rewrite !blen_app. pose proof (blen_nonneg (List.concat chunks)). lia.
    + apply Z.ltb_ge in E. rewrite <- blen_app in *.
      specialize (IH (buffer ++ x :: c) E Hrest).
      rewrite <- List.app_assoc in IH. exact IH.
Qed.

End ReadBody.

Section Handlers.

Lemma fetch_handlers_not_OSError url timeout e :
  is_OSError (fetch_handlers url timeout e) = false.
Proof.
  destruct e; try reflexivity.
  simpl. destruct (Str.contains _ "timed out"); [reflexivity|].
  destruct (Str.contains _ "ssl"); reflexivity.
Qed.

Lemma fetch_handlers_cases url timeout e :
  caught_by_batch (fetch_handlers url timeout e) = true \/ fetch_handlers url timeout e = e.
Proof.
  destruct e; try (right; reflexivity); left; try reflexivity.
  simpl. destruct (Str.contains _ "timed out"); [reflexivity|].
  destruct (Str.contains _ "ssl"); reflexivity.
Qed.

End Handlers.

Section Dicts.

Context {V : Type}.

Lemma dict_get_set (d : Dict.t V) k v k' :
  Dict.get (Dict.set d k v) k' = if String.eqb k k' then Some v else Dict.get d k'.
Proof.
  induction d as [|[k0 v0] d IH]; simpl.
  - destruct (String.eqb k k'); reflexivity.
  - destruct (String.eqb_spec k0 k) as [->|Hne]; simpl.
    + destruct (String.eqb k k'); reflexivity.
    + rewrite IH. destruct (String.eqb_spec k0 k') as [->|Hne'].
      * destruct (String.eqb_spec k k'); [congruence | reflexivity].
      * reflexivity.
Qed.

Lemma dict_get_absent (d : Dict.t V) k :
  ~ In k (List.map fst d) -> Dict.get d k = None.
Proof.
  induction d as [|[k0 v0] d IH]; [reflexivity|].
  simpl. intros H. destruct (String.eqb_spec k0 k); [tauto|]. apply IH. tauto.
Qed.

(** [d.update(other)]: the keys of [other] take its values, the others keep
    those of [d]. *)
Lemma dict_get_update (other : Dict.t V) : forall (d : Dict.t V) k,
  List.NoDup (List.map fst other) ->
  Dict.get (Dict.update d other) k
  = match Dict.get other k with
    | Some v => Some v
    | None => Dict.get d k
    end.
Proof.
  unfold Dict.update.
  induction other as [|[k0 v0] other IH]; intros d k Hnd; [reflexivity|].
  inversion Hnd as [|? ? Hnotin Hnd']; subst.
  simpl. rewrite (IH _ _ Hnd'), dict_get_set.
  destruct (String.eqb_spec k0 k) as [->|Hne]; [|reflexivity].
  rewrite (dict_get_absent _ _ Hnotin). reflexivity.
Qed.

End Dicts.

Section ContentType.

Lemma startswith_empty s : Str.startswith s "" = true.
Proof. destruct s; reflexivity. Qed.

Lemma contains_char c r sep :
  Str.contains (String c r) (String sep "")
  = Ascii.eqb sep c || Str.contains r (String sep "").
Proof.
  rewrite contains_String, startswith_String, startswith_empty.
  destruct (Ascii.eqb sep c); reflexivity.
Qed.

Lemma split_go_plain sep s : forall cur,
  Str.contains s (String sep "") = false ->
  Str.split_go sep cur s = [String.rev cur +:+ s].
Proof.
  induction s as [|c s IH]; intros cur H.
  - simpl. rewrite app_empty_r. reflexivity.
  - rewrite contains_char in H. apply orb_false_iff in H as [Hc Hs].
    simpl. rewrite Ascii.eqb_sym, Hc, (IH _ Hs), rev_String, app_assoc_s. reflexivity.
Qed.

Lemma split_go_app sep m rest : forall cur,
  Str.contains m (String sep "") = false ->
  Str.split_go sep cur (m +:+ String sep rest)
  = (String.rev cur +:+ m) :: Str.split_go sep "" rest.
Proof.
  induction m as [|c m IH]; intros cur H.
  - rewrite app_empty_l, app_empty_r. simpl. rewrite Ascii.eqb_refl. reflexivity.
  - rewrite contains_char in H. apply orb_false_iff in H as [Hc Hm].
    rewrite app_String. simpl. rewrite Ascii.eqb_sym, Hc, (IH _ Hm), rev_String, app_assoc_s.
    reflexivity.
Qed.

(** A content type without parameters. *)
Lemma split_plain ct :
  Str.contains ct ";" = false -> Str.split ct ";" = [ct].
Proof. intros H. unfold Str.split. rewrite (split_go_plain _ _ _ H). reflexivity. Qed.

(** A content type with the one parameter [charset]. *)
Lemma split_charset m v :
  Str.contains m ";" = false -> Str.contains v ";" = false ->
  Str.split (m +:+ "; charset=" +:+ v) ";" = [m; " charset=" +:+ v].
Proof.
  intros Hm Hv. unfold Str.split.
  change ("; charset=" +:+ v) with (String ";" (" charset=" +:+ v)).
  rewrite (split_go_app _ _ _ _ Hm), split_go_plain; [reflexivity|].
  change (" charset=" +:+ v)
    with (String " " (String "c" (String "h" (String "a" (String "r" (String "s"
            (String "e" (String "t" (String "=" v))))))))).
  rewrite !contains_char. exact Hv.
Qed.

Lemma contains_app_char (n v : string) c :
  Str.contains (n +:+ String c v) (String c "") = true.
Proof.
  induction n as [|x n IH].
  - rewrite app_empty_l, contains_char, Ascii.eqb_refl. reflexivity.
  - rewrite app_String, contains_char, IH. apply orb_true_r.
Qed.

Lemma split1_go_app sep (n v : string) : forall cur,
  Str.contains n (String sep "") = false ->
  Str.split1_go sep cur (n +:+ String sep v) = [String.rev cur +:+ n; v].
Proof.
  induction n as [|x n IH]; intros cur H.
  - rewrite app_empty_l, app_empty_r. simpl. rewrite Ascii.eqb_refl. reflexivity.
  - rewrite contains_char in H. apply orb_false_iff in H as [Hx Hn].
    rewrite app_String. simpl. rewrite Ascii.eqb_sym, Hx, (IH _ Hn), rev_String, app_assoc_s.
    reflexivity.
Qed.

(** The parts of a header value written from them. *)
Lemma split_with_params (params : list string) : forall first,
  Str.contains first ";" = false ->
  List.Forall (fun p => Str.contains p ";" = false) params ->
  Str.split (with_params first params) ";" = first :: params.
Proof.
  unfold Str.split.
  induction params as [|p params IH]; intros first Hf Hall.
  - simpl. rewrite (split_go_plain _ _ _ Hf). reflexivity.
  - inversion Hall as [|? ? Hp Hrest]; subst.
    change (with_params first (p :: params)) with (first +:+ String ";" (with_params p params)).
    rewrite (split_go_app _ _ _ _ Hf), (IH p Hp Hrest). reflexivity.
Qed.

(** Every header value has such parts. *)
Lemma with_params_exists (ct : string) :
  exists first params,
    ct = with_params first params
    /\ Str.contains first ";" = false
    /\ List.Forall (fun p => Str.contains p ";" = false) params.
Proof.
  induction ct as [|c ct (first & params & -> & Hf & Hall)].
  - exists "", []. repeat split. constructor.
  - destruct (Ascii.eqb_spec ";"%char c) as [<-|Hne].
    + exists "", (first :: params). repeat split. constructor; assumption.
    + exists (String c first), params. split; [|split; [|exact Hall]].
      * destruct params; reflexivity.
      * rewrite contains_char, Hf. apply Ascii.eqb_neq in Hne. rewrite Hne. reflexivity.
Qed.

(** The scan of the parameters: the first one that holds "charset=" gives
    the charset, and it is cut at its first equals sign. *)
Lemma find_charset_scan (before after : list string) (pre v : string) :
  List.Forall (fun p => Str.contains p "charset=" = false) before ->
  Str.contains (pre +:+ "=" +:+ v) "charset=" = true ->
  Str.contains pre "=" = false ->
  find_charset (before ++ (pre +:+ "=" +:+ v) :: after)
  = Str.strip_of is_quote (Str.strip v).
Proof.
  intros Hb Hc Hpre. induction Hb as [|p before Hp _ IH].
  - simpl List.app. simpl find_charset. rewrite Hc.
    change (pre +:+ "=" +:+ v) with (pre +:+ String "=" v).
    unfold Str.split1. rewrite (split1_go_app _ _ _ _ Hpre). reflexivity.
  - simpl List.app. simpl find_charset. rewrite Hp. exact IH.
Qed.

Lemma find_charset_default (params : list string) :
  List.Forall (fun p => Str.contains p "charset=" = false) params ->
  find_charset params = "utf-8".
Proof.
  induction 1 as [|p params Hp _ IH]; [reflexivity|].
  simpl. rewrite Hp. exact IH.
Qed.

End ContentType.

(** [response.read] is called until it returns an empty chunk, and never
    again: what the reads after the first empty chunk would return or raise
    has no part in the body. *)
Theorem read_body_stops_at_empty_chunk (max_size : Z) (pre post : list (res bytes)) :
  read_body max_size (pre ++ Ok [] :: post) = read_body max_size pre.
Proof. unfold read_body. rewrite read_loop_stops_at_empty. reflexivity. Qed.

(** The size check is strict.  A body that arrives in non-empty chunks is
    returned whole when its length is at most [max_size], the length
    [max_size] itself included, and raises the size error when it is
    longer. *)
Theorem read_body_size_check (max_size : Z) (chunks : list bytes) :
  0 <= max_size ->
  List.Forall (fun c : bytes => c <> []) chunks ->
  read_body max_size (List.map Ok chunks)
  = if blen (List.concat chunks) <=? max_size then Ok (List.concat chunks)
    else Raise (size_exceeded max_size).
Proof.
  intros Hmax Hne. unfold read_body.
  pose proof (read_loop_chunks max_size chunks [] Hmax Hne) as H.
  change (blen []) with 0 in H. simpl app in H.
  destruct (read_loop max_size (List.map Ok chunks) 0 []) as [out [e|]].
  - destruct H as [Hlt ->].
    replace (blen (List.concat chunks) <=? max_size) with false
      by (symmetry; apply Z.leb_gt; exact Hlt).
    reflexivity.
  - destruct H as [Hle ->].
    replace (blen (List.concat chunks) <=? max_size) with true
      by (symmetry; apply Z.leb_le; exact Hle).
    reflexivity.
Qed.

Lemma read_body_size_check_witness :
  read_body 20 (resp_reads three_chunks)
  = Ok (Inflate.fromhex "000102030405060708090a0b0c0d0e0f10111213")
  /\ read_body 19 (resp_reads three_chunks) = Raise (size_exceeded 19).
Proof.
  split.
  - apply (read_body_size_check 20
             [ Inflate.fromhex "0001020304050607"; Inflate.fromhex "08090a0b0c0d0e0f";
               Inflate.fromhex "10111213" ]);
      [lia | repeat constructor; discriminate].
  - apply (read_body_size_check 19
             [ Inflate.fromhex "0001020304050607"; Inflate.fromhex "08090a0b0c0d0e0f";
               Inflate.fromhex "10111213" ]);
      [lia | repeat constructor; discriminate].
Defined.

(** No [OSError] leaves [fetch_url].  Past the URL check, what it raises is
    a [ValueError] or a [RuntimeError], or else the exception of the
    transport, of a read or of the decompressor, passed on as it is; and that
    one is no [OSError], since the last handler turns every [OSError] into a
    [RuntimeError]. *)
Theorem fetch_url_raises (W : Net) (url method : string) (headers : Dict.t string)
    (data : option bytes) (timeout max_size : Z) (user_agent scheme : string) (e : exn) :
  urlparse_scheme W url = Ok scheme ->
  fetch_url W url method headers data timeout max_size user_agent = Raise e ->
  is_OSError e = false
  /\ (caught_by_batch e = true
      \/ fetch_body W (request_of url method headers data timeout user_agent) max_size
         = Raise e).
Proof.
  intros Hs. unfold fetch_url. rewrite Hs. simpl.
  destruct (negb _); [intros [= <-]; split; [reflexivity | left; reflexivity]|].
  fold (request_of url method headers data timeout user_agent).
  destruct (fetch_body _ _ _) as [r|e0]; [discriminate|].
  intros [= <-]. split; [apply fetch_handlers_not_OSError|].
  destruct (fetch_handlers_cases url timeout e0) as [H|H]; [left; exact H|].
  right. rewrite H. reflexivity.
Qed.

Lemma fetch_url_raises_witness :
  fetch_url (net example_web) "http://example.test/missing" "GET" [] None 30 1024
    "web-fetch/1.0"
  = Raise (RuntimeError "HTTP 404 Not Found: http://example.test/missing")
  /\ is_OSError (RuntimeError "HTTP 404 Not Found: http://example.test/missing") = false.
Proof.
  split; [vm_compute; reflexivity|].
  apply (fetch_url_raises (net example_web) "http://example.test/missing" "GET" [] None 30 1024
           "web-fetch/1.0" "http"); vm_compute; reflexivity.
Defined.

(** What the decompressor raises goes through the handlers of [fetch_url]
    like a failure of the transport.  A body that is no gzip file, for which
    [gzip.decompress] raises [BadGzipFile], an [OSError], is reported as a
    connection error; an [EOFError] for a gzip file cut short and a
    [zlib.error] are caught by no handler and leave [fetch_url] as they
    are. *)
Theorem fetch_url_decompress_failure (W : Net) (url method : string) (headers : Dict.t string)
    (data : option bytes) (timeout max_size : Z) (user_agent scheme : string)
    (response : Response) (body : bytes) (e : exn) :
  urlparse_scheme W url = Ok scheme ->
  scheme = "http" \/ scheme = "https" ->
  urlopen W (request_of url method headers data timeout user_agent) = Ok response ->
  read_body max_size (resp_reads response) = Ok body ->
  response_encoding response <> "" ->
  decompress_content (zlib W) body (response_encoding response) = Raise e ->
  fetch_url W url method headers data timeout max_size user_agent
  = Raise (fetch_handlers url timeout e)
  /\ (forall msg, e = BadGzipFile msg ->
        fetch_handlers url timeout e
        = RuntimeError ("Connection error: " +:+ url +:+ ": " +:+ msg))
  /\ (forall msg, e = EOFError msg \/ e = ZlibError msg -> fetch_handlers url timeout e = e).
Proof.
  intros Hs Hok Hopen Hbody Henc Hd. split; [|split].
  - rewrite (fetch_url_unfold W url method headers data timeout max_size user_agent scheme Hs Hok).
    unfold fetch_body. rewrite Hopen. simpl. rewrite Hbody. simpl.
    fold (response_encoding response).
    destruct (String.eqb_spec (response_encoding response) ""); [contradiction|].
    simpl. rewrite Hd. reflexivity.
  - intros msg ->. reflexivity.
  - intros msg [-> | ->]; reflexivity.
Qed.

Lemma fetch_url_decompress_failure_witness :
  let page :=
    {| resp_url := "http://example.test/p"; resp_status := 200;
       resp_headers := [("Content-Type", "text/plain"); ("Content-Encoding", "GZip")];
       resp_reads := [Ok (Inflate.fromhex "1f8b0700000000000003")] |} in
  fetch_url (Ref.net_of [("http://example.test/p", Ok page)])
    "http://example.test/p" "GET" [] None 30 1024 "web-fetch/1.0"
  = Raise (RuntimeError
             "Connection error: http://example.test/p: Unknown compression method").
Proof.
  intros page.
  destruct (fetch_url_decompress_failure
              (Ref.net_of [("http://example.test/p", Ok page)])
              "http://example.test/p" "GET" [] None 30 1024 "web-fetch/1.0" "http"
              page (Inflate.fromhex "1f8b0700000000000003")
              (BadGzipFile "Unknown compression method"))
    as (H1 & H2 & _);
    [reflexivity | left; reflexivity | reflexivity | reflexivity
    | vm_compute; discriminate | vm_compute; reflexivity |].
  rewrite H1, (H2 "Unknown compression method" eq_refl). reflexivity.
Defined.

(** The type and the charset of a result.  The [Content-Type] header, or
    "application/octet-stream" when the response has none, is cut at its
    semicolons.  [content_type] is the part before the first semicolon,
    stripped and in lower case.  The charset comes from the first parameter
    that holds "charset=", whatever stands before it: it is what follows the
    first equals sign of that parameter, without the white space and then the
    quotes around it, in the case it was written in.  When no parameter holds
    "charset=" the charset is "utf-8". *)
Theorem fetch_url_content_type (W : Net) (url method : string) (headers : Dict.t string)
    (data : option bytes) (timeout max_size : Z) (user_agent : string) (r : FetchResult) :
  fetch_url W url method headers data timeout max_size user_agent = Ok r ->
  exists response,
    urlopen W (request_of url method headers data timeout user_agent) = Ok response
    /\ (exists first params,
          message_get (resp_headers response) "Content-Type" "application/octet-stream"
          = with_params first params
          /\ Str.contains first ";" = false
          /\ List.Forall (fun p => Str.contains p ";" = false) params)
    /\ (forall first params,
          message_get (resp_headers response) "Content-Type" "application/octet-stream"
          = with_params first params ->
          Str.contains first ";" = false ->
          List.Forall (fun p => Str.contains p ";" = false) params ->
          content_type r = Str.lower (Str.strip first)
          /\ (List.Forall (fun p => Str.contains p "charset=" = false) params ->
              charset r = "utf-8")
          /\ (forall before pre v after,
                params = before ++ (pre +:+ "=" +:+ v) :: after ->
                List.Forall (fun p => Str.contains p "charset=" = false) before ->
                Str.contains (pre +:+ "=" +:+ v) "charset=" = true ->
                Str.contains pre "=" = false ->
                charset r = Str.strip_of is_quote (Str.strip v))).
Proof.
  intros H. apply fetch_url_ok_inv in H. unfold fetch_body in H.
  destruct (urlopen W _) as [response|e]; [|discriminate]. simpl in H.
  destruct (read_body max_size (resp_reads response)) as [body|e]; [|discriminate].
  simpl in H.
  destruct (if negb _ then _ else _) as [out|e]; [|discriminate].
  simpl in H. injection H as <-.
  exists response. split; [reflexivity|]. split; [apply with_params_exists|].
  intros first params -> Hf Hall. simpl.
  rewrite (split_with_params params first Hf Hall). simpl List.nth. simpl List.tl.
  split; [reflexivity|]. split.
  - apply find_charset_default.
  - intros before pre v after -> Hb Hc Hpre. apply find_charset_scan; assumption.
Qed.

Lemma fetch_url_content_type_witness :
  let page :=
    {| resp_url := "http://example.test/q"; resp_status := 200;
       resp_headers :=
         [("content-type",
           with_params " Text/HTML " ["boundary=x"; "charset" +:+ "=" +:+ " 'Latin-1' ";
                                      " charset=utf-8"])];
       resp_reads := [] |} in
  exists r,
    fetch_url (Ref.net_of [("http://example.test/q", Ok page)])
      "http://example.test/q" "GET" [] None 30 1024 "web-fetch/1.0" = Ok r
    /\ content_type r = "text/html" /\ charset r = "Latin-1".
Proof.
  intros page. eexists. split; [vm_compute; reflexivity|].
  destruct (fetch_url_content_type
              (Ref.net_of [("http://example.test/q", Ok page)])
              "http://example.test/q" "GET" [] None 30 1024 "web-fetch/1.0" _ eq_refl)
    as (response & Hopen & _ & Hparts).
  injection Hopen as <-.
  destruct (Hparts " Text/HTML "
              ["boundary=x"; "charset" +:+ "=" +:+ " 'Latin-1' "; " charset=utf-8"]
              eq_refl eq_refl ltac:(repeat constructor))
    as (H1 & _ & H2).
  split; [exact H1|].
  apply (H2 ["boundary=x"] "charset" " 'Latin-1' " [" charset=utf-8"] eq_refl);
    [repeat constructor | reflexivity | reflexivity].
Defined.

(** The headers of the request.  A header the caller gives replaces the
    default of the same name; the defaults the caller does not name are sent
    as they are: the [User-Agent] argument, [Accept: */*] and
    [Accept-Encoding: gzip, deflate]. *)
Theorem request_headers_override (url method : string) (headers : Dict.t string)
    (data : option bytes) (timeout : Z) (user_agent k : string) :
  List.NoDup (List.map fst headers) ->
  Dict.get (req_headers (request_of url method headers data timeout user_agent)) k
  = match Dict.get headers k with
    | Some v => Some v
    | None => Dict.get (default_headers user_agent) k
    end.
Proof. intros Hnd. exact (dict_get_update headers (default_headers user_agent) k Hnd). Qed.

Lemma request_headers_override_witness :
  Dict.get (req_headers (request_of "http://example.test/a" "GET"
                           [("Accept", "text/html"); ("X-Token", "t")] None 30 "agent/2"))
    "Accept"
  = Some "text/html".
Proof.
  assert (Hnd : List.NoDup (List.map fst [("Accept", "text/html"); ("X-Token", "t")])).
  { constructor; [simpl; intros [H|[]]; discriminate H|].
    constructor; [simpl; tauto | constructor]. }
  exact (request_headers_override "http://example.test/a" "GET"
           [("Accept", "text/html"); ("X-Token", "t")] None 30 "agent/2" "Accept" Hnd).
Defined.


(** * The renderer: binary content, the cut, the text of a page *)

Section TextFacts.

Lemma U_lstrip_cases (t : ustr) :
  U.lstrip t = [] \/ exists c r, U.lstrip t = c :: r /\ U.isspace c = false.
Proof.
  induction t as [|c t IH]; [left; reflexivity|].
  simpl. destruct (U.isspace c) eqn:E; [exact IH|]. right. eauto.
Qed.

Lemma U_lstrip_head c (r : ustr) : U.isspace c = false -> U.lstrip (c :: r) = c :: r.
Proof. intros H. simpl. rewrite H. reflexivity. Qed.

Lemma U_lstrip_idem (t : ustr) : U.lstrip (U.lstrip t) = U.lstrip t.
Proof.
  destruct (U_lstrip_cases t) as [-> | (c & r & -> & Hc)]; [reflexivity|].
  apply U_lstrip_head, Hc.
Qed.

Lemma U_lstrip_snoc (a : ustr) c :
  U.isspace c = false -> U.lstrip (a ++ [c]) = U.lstrip a ++ [c].
Proof.
  intros Hc. induction a as [|d a IH].
  - apply U_lstrip_head, Hc.
  - simpl. destruct (U.isspace d); [exact IH | reflexivity].
Qed.

(** Stripping a text twice is stripping it once. *)
Lemma U_strip_idem (t : ustr) : U.strip (U.strip t) = U.strip t.
Proof.
  unfold U.strip.
  destruct (U_lstrip_cases t) as [-> | (c & r & -> & Hc)]; [reflexivity|].
  change (List.rev (c :: r)) with (List.rev r ++ [c]).
  rewrite (U_lstrip_snoc _ _ Hc). set (z := U.lstrip (List.rev r)).
  rewrite List.rev_app_distr. change (List.rev [c] ++ List.rev z) with (c :: List.rev z).
  rewrite (U_lstrip_head _ _ Hc).
  change (List.rev (c :: List.rev z)) with (List.rev (List.rev z) ++ [c]).
  rewrite List.rev_involutive, (U_lstrip_snoc _ _ Hc). unfold z.
  rewrite U_lstrip_idem, List.rev_app_distr. reflexivity.
Qed.

Lemma U_lstrip_incl (t : ustr) x : In x (U.lstrip t) -> In x t.
Proof.
  induction t as [|c t IH]; [trivial|].
  simpl. destruct (U.isspace c); [right; auto | trivial].
Qed.

Lemma U_strip_incl (t : ustr) x : In x (U.strip t) -> In x t.
Proof.
  unfold U.strip. intros H.
  apply List.in_rev, U_lstrip_incl, List.in_rev, U_lstrip_incl in H. exact H.
Qed.

(** No line of [t.split("\n")] holds a newline. *)
Lemma split_lines_go_no_newline (t : ustr) : forall cur,
  ~ In 10%N cur ->
  List.Forall (fun l => ~ In 10%N l) (U.split_lines_go cur t).
Proof.
  induction t as [|c t IH]; intros cur Hcur; simpl.
  - constructor; [|constructor]. rewrite <- List.in_rev. exact Hcur.
  - destruct (N.eqb_spec c 10) as [->|Hne].
    + constructor; [rewrite <- List.in_rev; exact Hcur|]. apply IH. simpl. tauto.
    + apply IH. simpl. intros [H|H]; [congruence | tauto].
Qed.

Lemma split_lines_go_line (l : ustr) : forall cur rest,
  ~ In 10%N l ->
  U.split_lines_go cur (l ++ rest) = U.split_lines_go (List.rev l ++ cur) rest.
Proof.
  induction l as [|c l IH]; intros cur rest H; [reflexivity|].
  simpl. destruct (N.eqb_spec c 10) as [->|Hne]; [exfalso; apply H; left; reflexivity|].
  rewrite IH by (intros Hin; apply H; right; exact Hin).
  rewrite <- List.app_assoc. reflexivity.
Qed.

(** Splitting what was joined with newlines gives the lines back. *)
Lemma split_lines_join (ls : list ustr) :
  ls <> [] -> List.Forall (fun l => ~ In 10%N l) ls ->
  U.split_lines (U.join [10%N] ls) = ls.
Proof.
  unfold U.split_lines.
  induction ls as [|p ls IH]; [congruence|]. intros _ Hall.
  inversion Hall as [|? ? Hp Hls]; subst.
  destruct ls as [|q ls].
  - simpl U.join. rewrite <- (List.app_nil_r p) at 1.
    rewrite (split_lines_go_line p [] [] Hp). simpl.
    rewrite List.app_nil_r, List.rev_involutive. reflexivity.
  - change (U.join [10%N] (p :: q :: ls)) with (p ++ [10%N] ++ U.join [10%N] (q :: ls)).
    rewrite (split_lines_go_line p [] _ Hp). simpl.
    rewrite List.app_nil_r, List.rev_involutive. f_equal.
    apply IH; [discriminate | exact Hls].
Qed.

Lemma nonempty_true (t : ustr) : nonempty t = true -> t <> [].
Proof. destruct t; [discriminate | discriminate]. Qed.

(** The lines [extract_html_text] keeps. *)
Lemma cleaned_lines (t : ustr) :
  let lines := List.filter nonempty (List.map U.strip (U.split_lines t)) in
  List.Forall (fun l => l <> [] /\ U.strip l = l /\ ~ In 10%N l) lines.
Proof.
  intros lines. apply List.Forall_forall. intros l Hl.
  apply List.filter_In in Hl as [Hl Hne].
  apply List.in_map_iff in Hl as (l0 & <- & Hl0).
  split; [apply nonempty_true, Hne|]. split; [apply U_strip_idem|].
  intros Hin. apply U_strip_incl in Hin.
  pose proof (split_lines_go_no_newline t [] (fun H => H)) as Hall.
  rewrite List.Forall_forall in Hall. exact (Hall l0 Hl0 Hin).
Qed.

Lemma truncation_marker_len : U.len truncation_marker = 44.
Proof. vm_compute. reflexivity. Qed.

Lemma truncate_output_len (t : ustr) :
  U.len (truncate_output t) <= OUTPUT_TRUNCATE_SIZE + 44.
Proof.
  unfold truncate_output. destruct (OUTPUT_TRUNCATE_SIZE <? U.len t) eqn:E.
  - pose proof truncation_marker_len as Hm. unfold U.len in *.
    rewrite List.length_app, List.length_firstn. unfold OUTPUT_TRUNCATE_SIZE in *. lia.
  - apply Z.ltb_ge in E. lia.
Qed.

Lemma startswith_prefix (p q : string) : forall s,
  Str.startswith s (p +:+ q) = true -> Str.startswith s p = true.
Proof.
  induction p as [|a p IH]; intros s H; [apply startswith_empty|].
  rewrite app_String in H. destruct s as [|b s]; [discriminate H|].
  rewrite startswith_String in *. destruct (Ascii.eqb a b); [apply IH, H | discriminate H].
Qed.

End TextFacts.

(** Binary content is never decoded.  For a content type that is not text,
    [format_output] returns without raising, and what it returns depends on
    the body through its length only: not on the bytes, not on the charset,
    not on [raw]. *)
Theorem format_output_binary (L : Libs) (r : FetchResult) (show_headers raw json_output : bool)
    (content' : bytes) (charset' : string) (raw' : bool) :
  is_text_type (content_type r) = false ->
  blen content' = blen (content r) ->
  exists out,
    format_output L r show_headers raw json_output = Ok out
    /\ format_output L
         {| url := url r; status := status r; headers := headers r; content := content';
            content_type := content_type r; charset := charset' |}
         show_headers raw' json_output
       = Ok out.
Proof.
  intros Ht Hlen. unfold format_output, text_head. simpl. rewrite Ht, Hlen. simpl.
  destruct json_output; eexists; split; reflexivity.
Qed.

Lemma format_output_binary_witness :
  let image :=
    {| url := "http://example.test/i.png"; status := 200; headers := [];
       content := Inflate.fromhex "89504e47"; content_type := "image/png";
       charset := "utf-8" |} in
  exists out,
    format_output Ref.libraries image false false false = Ok out
    /\ format_output Ref.libraries
         {| url := "http://example.test/i.png"; status := 200; headers := [];
            content := Inflate.fromhex "ffffffff"; content_type := "image/png";
            charset := "undefined" |} false true false
       = Ok out.
Proof.
  intros image.
  exact (format_output_binary Ref.libraries image false false false
           (Inflate.fromhex "ffffffff") "undefined" true eq_refl eq_refl).
Defined.

(** The cut bounds the text mode.  For text content, whatever the length of
    the page, the rendering has at most [OUTPUT_TRUNCATE_SIZE] code points and
    the 44 of the marker. *)
Theorem format_output_text_bound (L : Libs) (r : FetchResult) (show_headers raw : bool)
    (out : ustr) :
  is_text_type (content_type r) = true ->
  format_output L r show_headers raw false = Ok out ->
  U.len out <= OUTPUT_TRUNCATE_SIZE + 44.
Proof.
  intros Ht. unfold format_output. rewrite Ht. simpl.
  destruct (decode_text L (content r) (charset r)) as [text|e]; [|discriminate]. simpl.
  destruct (text_body L r raw text) as [body|e]; [|discriminate]. simpl.
  intros [= <-]. apply truncate_output_len.
Qed.

Lemma format_output_text_bound_witness :
  exists out,
    format_output Ref.libraries (accented_page 3) true false false = Ok out
    /\ U.len out <= OUTPUT_TRUNCATE_SIZE + 44.
Proof.
  eexists. split; [vm_compute; reflexivity|].
  apply (format_output_text_bound Ref.libraries (accented_page 3) true false);
    vm_compute; reflexivity.
Defined.

(** Content types are matched by prefix.  A type is text exactly when it
    starts with "text/" or with one of "application/xml", "application/json",
    "application/javascript" and "application/x-javascript": the five
    "text/..." entries of [TEXT_CONTENT_TYPES] add nothing, and a type that
    only extends a listed one, such as "application/json-seq", is text. *)
Theorem is_text_type_prefixes (content_type : string) :
  is_text_type content_type
  = Str.startswith content_type "text/"
    || Str.startswith content_type "application/xml"
    || Str.startswith content_type "application/json"
    || Str.startswith content_type "application/javascript"
    || Str.startswith content_type "application/x-javascript".
Proof.
  unfold is_text_type, TEXT_CONTENT_TYPES. simpl List.existsb.
  destruct (Str.startswith content_type "text/") eqn:Et.
  - rewrite orb_true_r. reflexivity.
  - assert (H : forall q, Str.startswith content_type ("text/" +:+ q) = false).
    { intros q. destruct (Str.startswith content_type ("text/" +:+ q)) eqn:E; [|reflexivity].
      apply startswith_prefix in E. congruence. }
    change "text/html" with ("text/" +:+ "html"). change "text/plain" with ("text/" +:+ "plain").
    change "text/xml" with ("text/" +:+ "xml").
    change "text/javascript" with ("text/" +:+ "javascript").
    change "text/css" with ("text/" +:+ "css").
    rewrite !H.
    destruct (Str.startswith content_type "application/xml"),
      (Str.startswith content_type "application/json"),
      (Str.startswith content_type "application/javascript"),
      (Str.startswith content_type "application/x-javascript"); reflexivity.
Qed.

(** The text [extract_html_text] returns, when BeautifulSoup parses the
    page: either it is empty, or it has no empty line and no line with white
    space at either end. *)
Theorem extract_html_text_lines (L : Libs) (parse : ustr -> res Html.parsed)
    (html_content : ustr) (doc : Html.parsed) :
  soup L = Some parse ->
  parse html_content = Ok doc ->
  exists title description text,
    extract_html_text L html_content = Ok (SoupText title description text)
    /\ title = option_map U.strip (Html.title_text doc)
    /\ (text = []
        \/ List.Forall (fun l => l <> [] /\ U.strip l = l) (U.split_lines text)).
Proof.
  intros Hs Hp. unfold extract_html_text. rewrite Hs, Hp. simpl.
  eexists _, _, _. split; [reflexivity|]. split; [reflexivity|].
  pose proof (cleaned_lines (Html.visible_text doc)) as Hall. simpl in Hall.
  destruct (List.filter nonempty (List.map U.strip (U.split_lines (Html.visible_text doc))))
    as [|l ls] eqn:E; [left; reflexivity|].
  right. rewrite split_lines_join.
  - eapply List.Forall_impl; [|exact Hall]. simpl. tauto.
  - discriminate.
  - eapply List.Forall_impl; [|exact Hall]. simpl. tauto.
Qed.

Lemma extract_html_text_lines_witness :
  let page :=
    {| Html.title_text := Some (U.of_string " A page ");
       Html.meta_content := None;
       Html.visible_text := U.of_string "  one

 two  " |} in
  let L :=
    {| lookup_codec := Ref.codec; json_loads := Ref.loads; json_dumps := Ref.dumps;
       soup := Some (fun _ => Ok page) |} in
  extract_html_text L [] = Ok (SoupText (Some (U.of_string "A page")) None (U.of_string "one
two")).
Proof.
  intros page L.
  destruct (extract_html_text_lines L (fun _ => Ok page) [] page eq_refl eq_refl)
    as (title & description & text & H & _ & _).
  rewrite H. vm_compute in H. injection H as <- <- <-. reflexivity.
Defined.


(** * The command line and the batch *)

Section Headers.

(** One well-formed header line. *)
Lemma parse_custom_headers_step n v rest d :
  Str.contains n ":" = false ->
  parse_custom_headers ((n +:+ ":" +:+ v) :: rest) d
  = parse_custom_headers rest (Dict.set d (Str.strip n) (Str.strip v)).
Proof.
  intros Hn. change (n +:+ ":" +:+ v) with (n +:+ String ":" v).
  simpl parse_custom_headers. rewrite contains_app_char. simpl negb. cbv iota.
  unfold Str.split1. rewrite (split1_go_app _ _ _ _ Hn). reflexivity.
Qed.

Lemma parse_custom_headers_update (pairs : list (string * string)) : forall d,
  List.Forall (fun nv => Str.contains (fst nv) ":" = false) pairs ->
  parse_custom_headers (List.map (fun nv => fst nv +:+ ":" +:+ snd nv) pairs) d
  = inr (Dict.update d
           (List.map (fun nv => (Str.strip (fst nv), Str.strip (snd nv))) pairs)).
Proof.
  induction pairs as [|[n v] pairs IH]; intros d Hall; [reflexivity|].
  inversion Hall as [|? ? Hn Hrest]; subst. simpl in Hn.
  simpl List.map. rewrite (parse_custom_headers_step _ _ _ _ Hn), (IH _ Hrest).
  reflexivity.
Qed.

(** The loop stops at the first line without a colon. *)
Lemma parse_custom_headers_invalid l header : forall d,
  first_invalid_header l = Some header -> parse_custom_headers l d = inl header.
Proof.
  unfold first_invalid_header.
  induction l as [|h l IH]; intros d H; [discriminate|].
  simpl in *. destruct (negb (Str.contains h ":")); [congruence | apply IH, H].
Qed.

End Headers.

Section OutputMode.

Variable W : World.
Variable L' : Libs.
Variable a : Args.
Variable o : string.
Hypothesis Ho : truthy_string (arg_output a) = Some o.
Variables (hdrs : Dict.t string) (data : option bytes) (max_size : Z).

(** With [--output] a URL is fetched and saved; the renderer has no part. *)
Lemma fetch_one_output_libs b u :
  fetch_one {| net := net W; libs := L'; open_wb := open_wb W; print_stdout := print_stdout W |} a hdrs data max_size b u
  = fetch_one W a hdrs data max_size b u.
Proof. unfold fetch_one. simpl. rewrite Ho. reflexivity. Qed.

Lemma process_urls_output_libs urls : forall b,
  process_urls {| net := net W; libs := L'; open_wb := open_wb W; print_stdout := print_stdout W |} a hdrs data max_size urls b
  = process_urls W a hdrs data max_size urls b.
Proof.
  induction urls as [|u rest IH]; intros b; [reflexivity|].
  simpl process_urls. rewrite fetch_one_output_libs.
  destruct (fetch_one W a hdrs data max_size b u) as [b' [e|]].
  - destruct (caught_by_batch e); [apply IH | reflexivity].
  - apply IH.
Qed.

(** Every line the loop prints names the file with index 0. *)
Lemma process_urls_output_printed urls : forall b,
  results b = [] ->
  List.Forall (eq (saved_line (output_file_name o (List.length (arg_urls a)) 0))) (printed b) ->
  List.Forall (eq (saved_line (output_file_name o (List.length (arg_urls a)) 0)))
    (printed (fst (process_urls W a hdrs data max_size urls b))).
Proof.
  induction urls as [|u rest IH]; intros b Hb Hp; [exact Hp|].
  simpl. unfold fetch_one. rewrite Ho, Hb. simpl List.length.
  destruct (fetch_url _ _ _ _ _ _ _ _) as [r|e].
  - destruct (open_wb W _) as [[]|e].
    + cbv zeta. destruct (print_stdout W _) as [[]|e].
      * apply IH; [reflexivity|]. simpl. apply List.Forall_app. split; [exact Hp|].
        constructor; [reflexivity | constructor].
      * destruct (caught_by_batch e); [apply IH; [reflexivity | exact Hp] | exact Hp].
    + destruct (caught_by_batch e); [apply IH; assumption | exact Hp].
  - destruct (caught_by_batch e); [apply IH; assumption | exact Hp].
Qed.

End OutputMode.

Section Abort.

Variable W : World.
Variable a : Args.
Variables (hdrs : Dict.t string) (data : option bytes) (max_size : Z).

(** The loop over a list in two parts. *)
Lemma process_urls_app pre rest : forall b,
  process_urls W a hdrs data max_size (pre ++ rest) b
  = match process_urls W a hdrs data max_size pre b with
    | (b', None) => process_urls W a hdrs data max_size rest b'
    | (b', Some e) => (b', Some e)
    end.
Proof.
  induction pre as [|u pre IH]; intros b; [reflexivity|].
  simpl. destruct (fetch_one W a hdrs data max_size b u) as [b' [e|]].
  - destruct (caught_by_batch e); [apply IH | reflexivity].
  - apply IH.
Qed.

(** When no [print] raises, everything is printed. *)
Lemma print_all_done lines : forall done,
  print_all W lines = (done, None) -> done = lines.
Proof.
  induction lines as [|t lines IH]; intros done H; simpl in H; [congruence|].
  destruct (print_stdout W t) as [[]|e]; [|discriminate].
  destruct (print_all W lines) as [d [e|]]; [discriminate|].
  injection H as <-. f_equal. apply IH. reflexivity.
Qed.

End Abort.

(** A [--header] argument without a colon ends the run at once: the first
    such argument is reported on the error stream with the expected format,
    nothing is printed or written, and the exit status is 1.  No URL is
    fetched, whatever the platform. *)
Theorem main_invalid_header (W : World) (a : Args) (l : list string) (header : string) :
  arg_custom_headers a = Some l ->
  first_invalid_header l = Some header ->
  main W a
  = {| stdout := [];
       stderr := [ "Error: Invalid header format: " +:+ header;
                   "Expected format: 'Name: Value'" ];
       written := ∅; termination := Exited 1 |}.
Proof.
  intros Ha Hl. unfold main. rewrite Ha. simpl default.
  rewrite (parse_custom_headers_invalid l header [] Hl). reflexivity.
Qed.

Lemma main_invalid_header_witness :
  let a :=
    {| arg_urls := ["http://example.test/a"]; arg_headers := false; arg_raw := false;
       arg_json := false; arg_method := "GET"; arg_data := None;
       arg_custom_headers := Some ["Accept: text/html"; "X-Token"; "Broken"];
       arg_timeout := 30; arg_max_size := "bogus"; arg_output := None;
       arg_user_agent := "web-fetch/1.0" |} in
  stderr (main example_web a)
  = ["Error: Invalid header format: X-Token"; "Expected format: 'Name: Value'"]
  /\ termination (main example_web a) = Exited 1.
Proof.
  intros a.
  rewrite (main_invalid_header example_web a ["Accept: text/html"; "X-Token"; "Broken"]
             "X-Token" eq_refl eq_refl).
  split; reflexivity.
Defined.

(** Well-formed [--header] arguments.  Each is cut at its first colon, so a
    value may hold colons; the name and the value are stripped of white space;
    and the lines make the headers dict in their order, a later line of the
    same name replacing the value of an earlier one. *)
Theorem parse_custom_headers_pairs (pairs : list (string * string)) :
  List.Forall (fun nv => Str.contains (fst nv) ":" = false) pairs ->
  parse_custom_headers (List.map (fun nv => fst nv +:+ ":" +:+ snd nv) pairs) []
  = inr (Dict.of_pairs
           (List.map (fun nv => (Str.strip (fst nv), Str.strip (snd nv))) pairs)).
Proof. intros H. apply (parse_custom_headers_update pairs [] H). Qed.

Lemma parse_custom_headers_pairs_witness :
  parse_custom_headers
    ["Referer: http://example.test:8080/x"; "X-Token : one"; "Referer:  none "] []
  = inr [("Referer", "none"); ("X-Token", "one")].
Proof.
  exact (parse_custom_headers_pairs
           [("Referer", " http://example.test:8080/x"); ("X-Token ", " one");
            ("Referer", "  none ")]
           ltac:(repeat constructor)).
Defined.

(** A [--max-size] that [parse_size] rejects ends the run before any URL is
    fetched: nothing is printed or written and the exit status is 1.  For a
    size it cannot read, [main] prints "Error: Invalid size format: ..." and
    exits; for a number that is infinite as a float, the [OverflowError] is
    not a [ValueError], [main] does not catch it and the run ends with that
    exception. *)
Theorem main_invalid_max_size (W : World) (a : Args) (hdrs : Dict.t string) (e : exn) :
  parse_custom_headers (default [] (arg_custom_headers a)) [] = inr hdrs ->
  parse_size (arg_max_size a) = Raise e ->
  stdout (main W a) = []
  /\ written (main W a) = ∅
  /\ exit_status (termination (main W a)) = 1
  /\ (termination (main W a) = Exited 1
      /\ stderr (main W a)
         = ["Error: Invalid size format: " +:+ Str.upper (Str.strip (arg_max_size a))]
      \/ termination (main W a) = Uncaught float_infinity_error).
Proof.
  intros Hh Hs. unfold main. rewrite Hh, Hs.
  destruct (parse_size_raise_cases _ _ Hs) as [-> | ->]; simpl; repeat split; auto.
Qed.

Lemma main_invalid_max_size_witness :
  let a :=
    {| arg_urls := ["http://example.test/a"]; arg_headers := false; arg_raw := false;
       arg_json := false; arg_method := "GET"; arg_data := None;
       arg_custom_headers := None;
       arg_timeout := 30; arg_max_size := "1e999k"; arg_output := None;
       arg_user_agent := "web-fetch/1.0" |} in
  termination (main example_web a)
  = Uncaught (OverflowError "cannot convert float infinity to integer")
  /\ stdout (main example_web a) = [].
Proof.
  intros a.
  destruct (main_invalid_max_size example_web a [] float_infinity_error eq_refl)
    as (Hout & _ & _ & Hend); [vm_compute; reflexivity|].
  split; [|exact Hout].
  destruct Hend as [[Hend _] | Hend]; [vm_compute in Hend; discriminate Hend | exact Hend].
Defined.

(** The run without [--output].  When the command line is well formed and
    every failure is a [ValueError] or a [RuntimeError], each URL gives a
    rendering or an error line.  The renderings are printed after the loop, in
    input order.  If [sys.stdout] takes them all, the error lines go to the
    error stream in input order and the status is 0 when no URL failed, 1 when
    every one did, 2 otherwise.  If a [print] raises, the run ends there with
    that exception: what was printed before it stays, no error line is
    written, and [main] does not reach its exit. *)
Theorem main_exit_status_without_output (W : World) (a : Args) (hdrs : Dict.t string)
    (max_size : Z) :
  parse_custom_headers (default [] (arg_custom_headers a)) [] = inr hdrs ->
  parse_size (arg_max_size a) = Ok max_size ->
  truthy_string (arg_output a) = None ->
  all_caught W a hdrs (option_map encode_ascii (truthy_string (arg_data a))) max_size
    (arg_urls a) ->
  let outs := outcomes W a hdrs (option_map encode_ascii (truthy_string (arg_data a)))
                max_size (arg_urls a) in
  match print_all W (print_results (libs W) (arg_json a) (successes outs)) with
  | (done, None) =>
      done = print_results (libs W) (arg_json a) (successes outs)
      /\ main W a
         = {| stdout := done; stderr := failures outs; written := ∅;
              termination :=
                Exited (expected_status (List.length (successes outs))
                          (List.length (failures outs))) |}
  | (done, Some e) =>
      main W a = {| stdout := done; stderr := []; written := ∅; termination := Uncaught e |}
  end
  /\ (List.length (successes outs) + List.length (failures outs))%nat
     = List.length (arg_urls a).
Proof.
  intros Hh Hs Ho Hc outs. split; [|apply outcomes_count].
  unfold main. rewrite Hh, Hs.
  rewrite (process_urls_render W a hdrs _ max_size (arg_urls a) empty_batch Ho Hc).
  simpl. fold outs.
  destruct (print_all W (print_results (libs W) (arg_json a) (successes outs)))
    as [done [e|]] eqn:Hp; [reflexivity|].
  split; [apply (print_all_done W _ _ Hp)|].
  rewrite final_status_expected. reflexivity.
Qed.

Lemma main_exit_status_without_output_witness :
  let urls :=
    ["http://example.test/a"; "http://example.test/missing"; "http://example.test/b"] in
  let run := main example_web (command_line urls None) in
  let cut := main surrogate_web
               (command_line ["http://example.test/a"; "http://example.test/s"] None) in
  (termination run = Exited 2
   /\ List.length (stdout run) = 3%nat
   /\ List.nth 1 (stdout run) [] = divider
   /\ stderr run
      = ["Error fetching http://example.test/missing: HTTP 404 Not Found: http://example.test/missing"])
  /\ (termination cut
      = Uncaught (UnicodeEncodeError
                    "'utf-8' codec can't encode character '\ud800' in position 86: surrogates not allowed")
      /\ List.length (stdout cut) = 2%nat).
Proof.
  intros urls run cut. split.
  - destruct (main_exit_status_without_output example_web (command_line urls None) []
                MAX_SIZE_DEFAULT eq_refl)
      as (Hrun & _).
    + vm_compute. reflexivity.
    + reflexivity.
    + intros u e [<-|[<-|[<-|[]]]] H; vm_compute in H; try discriminate H;
        injection H as <-; reflexivity.
    + fold run in Hrun.
      destruct (print_all example_web _) as [done [e|]] eqn:Hp;
        [vm_compute in Hp; discriminate Hp|].
      destruct Hrun as [-> ->]. repeat split; vm_compute; reflexivity.
  - destruct (main_exit_status_without_output surrogate_web
                (command_line ["http://example.test/a"; "http://example.test/s"] None) []
                MAX_SIZE_DEFAULT eq_refl)
      as (Hcut & _).
    + vm_compute. reflexivity.
    + reflexivity.
    + intros u e [<-|[<-|[]]] H; vm_compute in H; discriminate H.
    + fold cut in Hcut.
      destruct (print_all surrogate_web _) as [done [e|]] eqn:Hp;
        [|vm_compute in Hp; discriminate Hp].
      rewrite Hcut. vm_compute in Hp. injection Hp as <- <-. split; reflexivity.
Defined.

(** With [--output] nothing is rendered: the run is the same whatever the
    libraries of the renderer are, be it the codecs, the JSON library or
    BeautifulSoup. *)
Theorem main_output_ignores_renderer (W : World) (L' : Libs) (a : Args) (o : string) :
  truthy_string (arg_output a) = Some o ->
  main {| net := net W; libs := L'; open_wb := open_wb W; print_stdout := print_stdout W |} a = main W a.
Proof.
  intros Ho. unfold main.
  destruct (parse_custom_headers _ _) as [h|hdrs]; [reflexivity|].
  destruct (parse_size _) as [max_size|e]; [|reflexivity].
  rewrite (process_urls_output_libs W L' a o Ho).
  pose proof (process_urls_output_results W a hdrs
                (option_map encode_ascii (truthy_string (arg_data a))) max_size o
                (arg_urls a) empty_batch Ho) as Hr.
  destruct (process_urls W a _ _ _ _ _) as [b [e|]]; [reflexivity|].
  simpl in Hr. simpl libs. rewrite Hr. reflexivity.
Qed.

Lemma main_output_ignores_renderer_witness :
  let a := command_line ["http://example.test/a"] (Some "page.txt") in
  let L' :=
    {| lookup_codec := fun _ => None;
       json_loads := fun _ => Raise (JSONDecodeError "Expecting value");
       json_dumps := fun _ _ => [];
       soup := None |} in
  main {| net := net example_web; libs := L'; open_wb := open_wb example_web;
          print_stdout := print_stdout example_web |} a
  = main example_web a.
Proof.
  intros a L'. exact (main_output_ignores_renderer example_web L' a "page.txt" eq_refl).
Defined.

(** The exit status with [--output] is never 2: the saved results are not
    counted, so a run in which a URL failed ends with status 1 even when
    others were saved. *)
Theorem main_output_status (W : World) (a : Args) (o : string) :
  truthy_string (arg_output a) = Some o ->
  exit_status (termination (main W a)) = 0 \/ exit_status (termination (main W a)) = 1.
Proof.
  intros Ho. unfold main.
  destruct (parse_custom_headers _ _) as [h|hdrs]; [right; reflexivity|].
  destruct (parse_size _) as [max_size|e];
    [|destruct (is_ValueError e); right; reflexivity].
  pose proof (process_urls_output_results W a hdrs
                (option_map encode_ascii (truthy_string (arg_data a))) max_size o
                (arg_urls a) empty_batch Ho) as Hr.
  destruct (process_urls _ _ _ _ _ _ _) as [b [e|]]; simpl in Hr; [right; reflexivity|].
  rewrite Hr. simpl. unfold final_status. rewrite Hr. destruct (errors b); auto.
Qed.

Lemma main_output_status_witness :
  exit_status
    (termination
       (main example_web
          (command_line ["http://example.test/a"; "http://example.test/missing"]
             (Some "out.txt"))))
  = 1.
Proof.
  destruct (main_output_status example_web
              (command_line ["http://example.test/a"; "http://example.test/missing"]
                 (Some "out.txt")) "out.txt" eq_refl) as [H|H].
  - vm_compute in H. discriminate H.
  - exact H.
Defined.

(** With [--output] every result is saved under one name, whatever the
    number of URLs: the name is built with [len(results)], which stays 0.
    Every file written and every "Saved to:" line printed has that name, so a
    later result replaces an earlier one. *)
Theorem main_output_one_file (W : World) (a : Args) (o : string) :
  truthy_string (arg_output a) = Some o ->
  (forall f, is_Some (written (main W a) !! f) ->
             f = output_file_name o (List.length (arg_urls a)) 0)
  /\ List.Forall (eq (saved_line (output_file_name o (List.length (arg_urls a)) 0)))
       (stdout (main W a)).
Proof.
  intros Ho. split; [intros f; apply main_output_single_name, Ho|].
  unfold main.
  destruct (parse_custom_headers _ _) as [h|hdrs]; [constructor|].
  destruct (parse_size _) as [max_size|e]; [|destruct (is_ValueError e); constructor].
  pose proof (process_urls_output_results W a hdrs
                (option_map encode_ascii (truthy_string (arg_data a))) max_size o
                (arg_urls a) empty_batch Ho) as Hr.
  pose proof (process_urls_output_printed W a o Ho hdrs
                (option_map encode_ascii (truthy_string (arg_data a))) max_size
                (arg_urls a) empty_batch eq_refl (List.Forall_nil _)) as Hp.
  destruct (process_urls _ _ _ _ _ _ _) as [b [e|]]; simpl in Hr, Hp; [exact Hp|].
  rewrite Hr. simpl. rewrite List.app_nil_r. exact Hp.
Qed.

Lemma main_output_one_file_witness :
  let a := command_line ["http://example.test/a"; "http://example.test/b"] (Some "page.html") in
  stdout (main example_web a) = [saved_line "page_0.html"; saved_line "page_0.html"]
  /\ List.Forall (eq (saved_line "page_0.html")) (stdout (main example_web a)).
Proof.
  intros a. split; [vm_compute; reflexivity|].
  exact (proj2 (main_output_one_file example_web a "page.html" eq_refl)).
Defined.

(** An exception that is neither a [ValueError] nor a [RuntimeError] ends
    the run where it is raised.  The URLs after it are not fetched, and since
    the renderings are printed after the loop, those of the URLs before it are
    lost: nothing is printed at all, and the run ends with that exception. *)
Theorem main_uncaught_exception (W : World) (a : Args) (hdrs : Dict.t string) (max_size : Z)
    (pre post : list string) (u : string) (e : exn) :
  parse_custom_headers (default [] (arg_custom_headers a)) [] = inr hdrs ->
  parse_size (arg_max_size a) = Ok max_size ->
  truthy_string (arg_output a) = None ->
  arg_urls a = pre ++ u :: post ->
  all_caught W a hdrs (option_map encode_ascii (truthy_string (arg_data a))) max_size pre ->
  rendered W a hdrs (option_map encode_ascii (truthy_string (arg_data a))) max_size u
  = Raise e ->
  caught_by_batch e = false ->
  main W a = {| stdout := []; stderr := []; written := ∅; termination := Uncaught e |}.
Proof.
  intros Hh Hs Ho Hurls Hc Hr He. unfold main. rewrite Hh, Hs, Hurls.
  rewrite process_urls_app, (process_urls_render W a hdrs _ max_size pre empty_batch Ho Hc).
  simpl process_urls. rewrite (fetch_one_render W a hdrs _ max_size _ u Ho), Hr, He.
  reflexivity.
Qed.

Lemma main_uncaught_exception_witness :
  let urls := ["http://example.test/a"; "http://example.test/d"; "http://example.test/b"] in
  main example_web (command_line urls None)
  = {| stdout := []; stderr := []; written := ∅;
       termination :=
         Uncaught (ZlibError "Error -3 while decompressing data: invalid block type") |}.
Proof.
  intros urls.
  apply (main_uncaught_exception example_web (command_line urls None) [] MAX_SIZE_DEFAULT
           ["http://example.test/a"] ["http://example.test/b"] "http://example.test/d").
  - reflexivity.
  - vm_compute. reflexivity.
  - reflexivity.
  - reflexivity.
  - intros v e [<-|[]] H. vm_compute in H. discriminate H.
  - vm_compute. reflexivity.
  - reflexivity.
Defined.
